(** * PyNBT: a shallow embedding of [opennbt/nbt.py]

    The module reads and writes Named Binary Tag documents through
    Python 2's [struct] module.  The development below follows the source
    top-down:

    - Python byte strings, exceptions and the reader closure [rd];
    - the part of [struct] the module relies on ([calcsize], [pack],
      [unpack] for the codes [b h i q f d s], standard sizes, no padding);
    - the tag classes, [BaseTag.read], the [write] methods, the
      constructors of [TAG_List] and [TAG_Compound], and [NBTFile];
    - tag objects, for the assignments to [item.name] that reach every
      place an object is stored in;
    - the properties of the codec. *)

From Stdlib Require Import ZArith Ascii String.
From stdpp Require Import gmap strings list fin_maps.

Local Open Scope Z_scope.

(** ** Python values *)

(** A Python 2 [str] is a sequence of 8-bit characters. *)
Definition pystr := list ascii.

(** String literals of the examples. *)
Definition b (s : string) : pystr := list_ascii_of_string s.

Definition Z_of_ascii (a : ascii) : Z := Z.of_N (N_of_ascii a).
Definition ascii_of_Z (z : Z) : ascii := ascii_of_N (Z.to_N z).

(** The exceptions the module can raise, under their Python names.
    [struct_error] is [struct.error]. *)
Inductive exn : Type :=
| struct_error
| IOError
| IndexError
| AttributeError
| TypeError
| ValueError
| OverflowError
| NotImplementedError.

(** Outcome of a call: a value, an exception, or [OutOfFuel] when the
    recursion budget of the model is used up (never an outcome of the
    program itself). *)
Inductive result (A : Type) : Type :=
| Ok (a : A)
| Raise (e : exn)
| OutOfFuel.
Arguments Ok {A} a.
Arguments Raise {A} e.
Arguments OutOfFuel {A}.

Definition rbind {A B} (m : result A) (k : A -> result B) : result B :=
  match m with
  | Ok a => k a
  | Raise e => Raise e
  | OutOfFuel => OutOfFuel
  end.

(** Code that reads from the file object [g]: the state is what is left
    of the stream. *)
Definition M (A : Type) : Type := pystr -> result (A * pystr).

Definition ret {A} (a : A) : M A := fun s => Ok (a, s).
Definition throw {A} (e : exn) : M A := fun _ => Raise e.
Definition lift {A} (r : result A) : M A :=
  fun s => rbind r (fun a => Ok (a, s)).
Definition bind {A B} (m : M A) (k : A -> M B) : M B :=
  fun s => match m s with
           | Ok (a, s') => k a s'
           | Raise e => Raise e
           | OutOfFuel => OutOfFuel
           end.

Declare Scope nbt_scope.
Delimit Scope nbt_scope with nbt.
Notation "'let*' x := m 'in' k" := (bind m (fun x => k))
  (at level 10, x pattern, m at level 100, k at level 200,
   format "'[v' 'let*'  x  :=  m  'in' '/' k ']'") : nbt_scope.
Notation "'let?' x := m 'in' k" := (rbind m (fun x => k))
  (at level 10, x pattern, m at level 100, k at level 200,
   format "'[v' 'let?'  x  :=  m  'in' '/' k ']'") : nbt_scope.
Local Open Scope nbt_scope.

(** ** The [struct] module *)

(** The first character of every format is ['>'] or ['<']: standard
    sizes, no alignment. *)
Inductive byte_order : Type := BigEndian | LittleEndian.

Inductive code : Type := c_b | c_h | c_i | c_q | c_f | c_d | c_s.

(** One item of a format: a repeat count and a code.  ['h'] is
    [Item 1 c_h], ['%ds' % n] is [Item n c_s]. *)
Inductive item : Type := Item (count : Z) (c : code).

Definition fmt := list item.

(** What [pack] takes and [unpack] returns.  A Python float is an IEEE-754
    binary64, kept as its 64-bit pattern. *)
Inductive pyval : Type :=
| PInt (z : Z)
| PFloat (bits : Z)
| PStr (s : pystr)
| PList (l : list Z).

Definition code_size (c : code) : Z :=
  match c with
  | c_b | c_s => 1
  | c_h => 2
  | c_i | c_f => 4
  | c_q | c_d => 8
  end.

(** A negative count prints as ['-'], which no format accepts. *)
Definition item_ok (it : item) : bool :=
  let 'Item n _ := it in 0 <=? n.

Definition item_size (it : item) : Z :=
  let 'Item n c := it in n * code_size c.

Definition fmt_size (f : fmt) : Z :=
  foldr (fun it acc => item_size it + acc) 0 f.

Definition calcsize (f : fmt) : result Z :=
  if forallb item_ok f then Ok (fmt_size f) else Raise struct_error.

(** *** Integers *)

Fixpoint le_bytes (n : nat) (z : Z) : pystr :=
  match n with
  | O => []
  | S n' => ascii_of_Z (z mod 256) :: le_bytes n' (z / 256)
  end.

Fixpoint le_value (bs : pystr) : Z :=
  match bs with
  | [] => 0
  | c :: bs' => Z_of_ascii c + 256 * le_value bs'
  end.

Definition ordered (o : byte_order) (bs : pystr) : pystr :=
  match o with
  | LittleEndian => bs
  | BigEndian => rev bs
  end.

Definition int_min (w : Z) : Z := - 2 ^ (8 * w - 1).
Definition int_max (w : Z) : Z := 2 ^ (8 * w - 1) - 1.

(** Two's complement reading of a [w]-byte unsigned value. *)
Definition to_signed (w : Z) (u : Z) : Z :=
  if u <=? int_max w then u else u - 2 ^ (8 * w).

Definition pack_int (o : byte_order) (w : Z) (z : Z) : result pystr :=
  if (int_min w <=? z) && (z <=? int_max w)
  then Ok (ordered o (le_bytes (Z.to_nat w) (z mod 2 ^ (8 * w))))
  else Raise struct_error.

Definition unpack_int (o : byte_order) (w : Z) (bs : pystr) : Z :=
  to_signed w (le_value (ordered o bs)).

(** *** Floats *)

(** [m / 2^k] rounded to nearest, ties to even ([1 <= k]). *)
Definition round_shift (m k : Z) : Z :=
  let q := Z.shiftr m k in
  let r := Z.land m (Z.ones k) in
  let half := 2 ^ (k - 1) in
  if r <? half then q
  else if half <? r then q + 1
  else if Z.even q then q else q + 1.

(** The C conversion [(float)x] on bit patterns, binary64 to binary32,
    as [_PyFloat_Pack4] uses it: [None] when a finite double is too
    large for a float, which [pack] turns into [OverflowError]. *)
Definition double_to_float (d : Z) : option Z :=
  let s := Z.shiftr d 63 in
  let e := Z.land (Z.shiftr d 52) 2047 in
  let m := Z.land d (Z.ones 52) in
  if e =? 2047 then
    if m =? 0 then Some (Z.shiftl s 31 + 2139095040)
    else Some (Z.shiftl s 31 + Z.lor 2143289344 (Z.shiftr m 29))
  else
    let M := if e =? 0 then m else 2 ^ 52 + m in
    let E := if e =? 0 then -1074 else e - 1075 in
    let E' := Z.max (E + 29) (-149) in
    let w := Z.shiftl (E' + 149) 23 + round_shift M (E' - E) in
    if w <? 2139095040 then Some (Z.shiftl s 31 + w) else None.

(** The C conversion [(double)y], binary32 to binary64; exact. *)
Definition float_to_double (w : Z) : Z :=
  let s := Z.shiftr w 31 in
  let e := Z.land (Z.shiftr w 23) 255 in
  let m := Z.land w (Z.ones 23) in
  if e =? 255 then
    Z.shiftl s 63 + Z.shiftl 2047 52
    + (if m =? 0 then 0 else Z.lor (2 ^ 51) (Z.shiftl m 29))
  else if e =? 0 then
    if m =? 0 then Z.shiftl s 63
    else
      let k := Z.log2 m + 1 in
      Z.shiftl s 63 + Z.shiftl (873 + k) 52 + (Z.shiftl m (53 - k) - 2 ^ 52)
  else Z.shiftl s 63 + Z.shiftl (e + 896) 52 + Z.shiftl m 29.

(** *** [pack] and [unpack] *)

(** One value under a numeric code.  A tag carries the kind of value its
    class packs, so the coercions Python applies to an integer under a
    float code, or to a float under an integer code, are not modelled:
    those combinations, like a string or a list under a numeric code, are
    reported as [struct.error]. *)
Definition pack_value (o : byte_order) (c : code) (v : pyval) : result pystr :=
  match c, v with
  | c_s, _ => Raise struct_error
  | (c_b | c_h | c_i | c_q), PInt z => pack_int o (code_size c) z
  | c_f, PFloat d =>
      match double_to_float d with
      | Some w => Ok (ordered o (le_bytes 4 w))
      | None => Raise OverflowError
      end
  | c_d, PFloat d => Ok (ordered o (le_bytes 8 d))
  | _, _ => Raise struct_error
  end.

Definition unpack_value (o : byte_order) (c : code) (bs : pystr) : pyval :=
  match c with
  | c_b | c_h | c_i | c_q => PInt (unpack_int o (code_size c) bs)
  | c_f => PFloat (float_to_double (le_value (ordered o bs)))
  | c_d => PFloat (le_value (ordered o bs))
  | c_s => PStr bs
  end.

(** Number of values an item stands for: ['5s'] is one string, ['5i'] is
    five integers. *)
Definition item_values (it : item) : Z :=
  let 'Item n c := it in match c with c_s => 1 | _ => n end.

Definition fmt_values (f : fmt) : Z :=
  foldr (fun it acc => item_values it + acc) 0 f.

Definition NUL : ascii := ascii_of_Z 0.

Fixpoint pack_rep (o : byte_order) (c : code) (n : nat) (args : list pyval)
  : result (pystr * list pyval) :=
  match n with
  | O => Ok ([], args)
  | S n' =>
      match args with
      | [] => Raise struct_error
      | v :: args' =>
          let? x := pack_value o c v in
          let? (xs, rest) := pack_rep o c n' args' in
          Ok (x ++ xs, rest)
      end
  end.

Fixpoint pack_items (o : byte_order) (f : fmt) (args : list pyval)
  : result pystr :=
  match f with
  | [] => Ok []
  | Item n c_s :: f' =>
      match args with
      | PStr s :: args' =>
          let? xs := pack_items o f' args' in
          Ok (take (Z.to_nat n) (s ++ replicate (Z.to_nat n) NUL) ++ xs)
      | _ => Raise struct_error
      end
  | Item n c :: f' =>
      let? (x, args') := pack_rep o c (Z.to_nat n) args in
      let? xs := pack_items o f' args' in
      Ok (x ++ xs)
  end.

(** [struct.pack(order + f, *args)] *)
Definition pack (o : byte_order) (f : fmt) (args : list pyval) : result pystr :=
  if negb (forallb item_ok f) then Raise struct_error
  else if Z.of_nat (length args) =? fmt_values f then pack_items o f args
  else Raise struct_error.

Fixpoint unpack_rep (o : byte_order) (c : code) (n : nat) (data : pystr)
  : list pyval * pystr :=
  match n with
  | O => ([], data)
  | S n' =>
      let w := Z.to_nat (code_size c) in
      let (vs, rest) := unpack_rep o c n' (drop w data) in
      (unpack_value o c (take w data) :: vs, rest)
  end.

Fixpoint unpack_items (o : byte_order) (f : fmt) (data : pystr) : list pyval :=
  match f with
  | [] => []
  | Item n c_s :: f' =>
      PStr (take (Z.to_nat n) data) :: unpack_items o f' (drop (Z.to_nat n) data)
  | Item n c :: f' =>
      let (vs, rest) := unpack_rep o c (Z.to_nat n) data in
      vs ++ unpack_items o f' rest
  end.

(** [struct.unpack(order + f, data)] *)
Definition unpack (o : byte_order) (f : fmt) (data : pystr)
  : result (list pyval) :=
  let? n := calcsize f in
  if Z.of_nat (length data) =? n then Ok (unpack_items o f data)
  else Raise struct_error.

(** ** The closures of [NBTFile] *)

Definition order_of (little_endian : bool) : byte_order :=
  if little_endian then LittleEndian else BigEndian.

(** [g.read(n)]: at most [n] characters, fewer at the end of the stream. *)
Definition g_read (n : Z) : M pystr :=
  fun s => Ok (take (Z.to_nat n) s, drop (Z.to_nat n) s).

(** [x = lambda f: struct.unpack(order + f, g.read(struct.calcsize(order + f)))] *)
Definition reader (little_endian : bool) (f : fmt) : M (list pyval) :=
  let* n := lift (calcsize (f)) in
  let* data := g_read n in
  lift (unpack (order_of little_endian) f data).

(** [w = lambda f, *args: g.write(struct.pack(order + f, *args))]; the
    outcome is what reaches the sink. *)
Definition writer (little_endian : bool) (f : fmt) (args : list pyval)
  : result pystr :=
  pack (order_of little_endian) f args.

(** ** Tuples and conversions *)

(** [t[i]] on a tuple, with Python's negative indices. *)
Definition getitem {A} (t : list A) (i : Z) : result A :=
  let n := Z.of_nat (length t) in
  let j := if i <? 0 then i + n else i in
  if (0 <=? j) && (j <? n) then
    match t !! Z.to_nat j with
    | Some x => Ok x
    | None => Raise IndexError
    end
  else Raise IndexError.

(** [v, = t] where [v] is then used as an integer. *)
Definition unpack1_int (t : list pyval) : result Z :=
  match t with
  | [PInt z] => Ok z
  | [_] => Raise TypeError
  | _ => Raise ValueError
  end.

(** [v1, v2 = t], both used as integers. *)
Definition unpack2_int (t : list pyval) : result (Z * Z) :=
  match t with
  | [PInt z1; PInt z2] => Ok (z1, z2)
  | [_; _] => Raise TypeError
  | _ => Raise ValueError
  end.

(** [t[0]] where the item is then used as a string. *)
Definition item0_str (t : list pyval) : result pystr :=
  let? v := getitem t 0 in
  match v with
  | PStr s => Ok s
  | _ => Raise TypeError
  end.

(** [len(v)] *)
Definition len (v : pyval) : result Z :=
  match v with
  | PStr s => Ok (Z.of_nat (length s))
  | PList l => Ok (Z.of_nat (length l))
  | PInt _ | PFloat _ => Raise TypeError
  end.

Definition pyval_eqb (v1 v2 : pyval) : bool :=
  match v1, v2 with
  | PInt z1, PInt z2 => z1 =? z2
  | PFloat d1, PFloat d2 => d1 =? d2
  | PStr s1, PStr s2 => bool_decide (s1 = s2)
  | PList l1, PList l2 => bool_decide (l1 = l2)
  | _, _ => false
  end.

(** ** Tags *)

(** The classes whose instances hold a plain value. *)
Inductive ValueClass : Type :=
| TAG_Byte
| TAG_Short
| TAG_Int
| TAG_Long
| TAG_Float
| TAG_Double
| TAG_Byte_Array
| TAG_String
| TAG_Int_Array.

Inductive TagClass : Type :=
| Plain (c : ValueClass)
| TAG_List
| TAG_Compound.
Coercion Plain : ValueClass >-> TagClass.

Global Instance ValueClass_eq_dec : EqDecision ValueClass.
Proof. solve_decision. Defined.
Global Instance TagClass_eq_dec : EqDecision TagClass.
Proof. solve_decision. Defined.

(** A tag object: [name] is [None] or a string; a [TAG_Compound] is a
    dictionary from keys to tags. *)
#[warnings="-register-all"]
Inductive Tag : Type :=
| PlainTag (cls : ValueClass) (value : pyval) (name : option pystr)
| ListTag (_type : Z) (value : list Tag) (name : option pystr)
| CompoundTag (value : gmap (option pystr) Tag) (name : option pystr).

Abbreviation dict := (gmap (option pystr) Tag).

Definition tag_name (t : Tag) : option pystr :=
  match t with
  | PlainTag _ _ name | ListTag _ _ name | CompoundTag _ name => name
  end.

Definition set_name (name : option pystr) (t : Tag) : Tag :=
  match t with
  | PlainTag cls value _ => PlainTag cls value name
  | ListTag ty value _ => ListTag ty value name
  | CompoundTag value _ => CompoundTag value name
  end.

Definition class_of (t : Tag) : TagClass :=
  match t with
  | PlainTag cls _ _ => Plain cls
  | ListTag _ _ _ => TAG_List
  | CompoundTag _ _ => TAG_Compound
  end.

(** [STRUCT_FMT], a class attribute of the six scalar classes only. *)
Definition STRUCT_FMT (cls : ValueClass) : option code :=
  match cls with
  | TAG_Byte => Some c_b
  | TAG_Short => Some c_h
  | TAG_Int => Some c_i
  | TAG_Long => Some c_q
  | TAG_Float => Some c_f
  | TAG_Double => Some c_d
  | TAG_Byte_Array | TAG_String | TAG_Int_Array => None
  end.

Definition _tags : list (option TagClass) :=
  [ None;
    Some (Plain TAG_Byte);
    Some (Plain TAG_Short);
    Some (Plain TAG_Int);
    Some (Plain TAG_Long);
    Some (Plain TAG_Float);
    Some (Plain TAG_Double);
    Some (Plain TAG_Byte_Array);
    Some (Plain TAG_String);
    Some TAG_List;
    Some TAG_Compound;
    Some (Plain TAG_Int_Array) ].

(** [t.index(x)] *)
Fixpoint index {A} `{EqDecision A} (t : list A) (x : A) : result Z :=
  match t with
  | [] => Raise ValueError
  | y :: t' => if decide (y = x) then Ok 0 else let? i := index t' x in Ok (i + 1)
  end.

(** *** Constructors *)

(** The first argument of [TAG_List.__init__], by the kind of object it
    is: an [int]; a [long], which Python 2 does not count as an instance of
    [int], whatever its value; a class of the table; [None], which is the
    first entry of the table; or an object of another kind, equal to no
    entry of the table, such as a float, a string, or a class that is not
    in the table ([BaseTag], [NBTFile]). *)
Inductive tag_type_arg : Type :=
| by_int (i : Z)
| by_long (i : Z)
| by_class (c : TagClass)
| by_None
| by_other.

(** The entry of [_tags] an object is equal to, if any: no entry is equal
    to a number. *)
Definition as_entry (tag_type : tag_type_arg) : option (option TagClass) :=
  match tag_type with
  | by_class c => Some (Some c)
  | by_None => Some None
  | by_int _ | by_long _ | by_other => None
  end.

(** [_tags.index(tag_type)] *)
Definition _tags_index (tag_type : tag_type_arg) : result Z :=
  match as_entry tag_type with
  | Some entry => index _tags entry
  | None => Raise ValueError
  end.

(** [isinstance(tag_type, int)] holds of an [int] only; every other
    object goes to [_tags.index]. *)
Definition TAG_List___init__ (tag_type : tag_type_arg) (value : list Tag)
    (name : option pystr) : result Tag :=
  match tag_type with
  | by_int i => Ok (ListTag i value name)
  | _ => let? i := _tags_index tag_type in Ok (ListTag i value name)
  end.

(** [if item.name is None: item.name = key] *)
Definition name_from_key (key : option pystr) (item : Tag) : Tag :=
  match tag_name item with
  | None => set_name key item
  | Some _ => item
  end.

(** [TAG_Compound.update(self, other)]: [dict.update], then every item of
    [self] without a name takes its key.  The dictionaries hold tags as
    values, each entry a tag of its own; the assignments to [item.name] on
    tag objects that several places share are [name_items] below. *)
Definition TAG_Compound_update (self other : dict) : dict :=
  map_imap (fun key item => Some (name_from_key key item)) (other ∪ self).

Definition TAG_Compound___init__ (value : dict) (name : option pystr) : Tag :=
  CompoundTag (TAG_Compound_update ∅ value) name.

(** [TAG_Compound.__setitem__(self, key, value)].  The call changes two
    objects: the result is the dictionary and the tag [value] as they are
    after it; the dictionary holds that very tag under [key]. *)
Definition TAG_Compound___setitem__ (self : dict) (key : option pystr)
    (value : Tag) : dict * Tag :=
  let value' := name_from_key key value in
  (<[key := value']> self, value').

(** ** Reading *)

Section Read.

Variable rd : fmt -> M (list pyval).

(** [_read_utf8(rd)] *)
Definition _read_utf8 : M pystr :=
  let* t := rd [Item 1 c_h] in
  let* length := lift (unpack1_int t) in
  let* t := rd [Item length c_s] in
  lift (item0_str t).

(** [name = _read_utf8(rd) if has_name else None] *)
Definition read_name (has_name : bool) : M (option pystr) :=
  if has_name then let* n := _read_utf8 in ret (Some n) else ret None.

(** [_tags[tag].read(rd, has_name)], given [read] of a class: the entry
    [None] of the table has no attribute [read]. *)
Definition read_entry (entry : option TagClass) (read_cls : TagClass -> M Tag)
  : M Tag :=
  match entry with
  | Some cls => read_cls cls
  | None => throw AttributeError
  end.

(** The [while True] loop of the [TAG_Compound] branch; [k] bounds the
    number of iterations. *)
Fixpoint compound_loop (read_child : TagClass -> M Tag) (k : nat)
    (final : dict) : M dict :=
  match k with
  | O => fun _ => OutOfFuel
  | S k' =>
      let* t := rd [Item 1 c_b] in
      let* tag := lift (unpack1_int t) in
      if tag =? 0 then ret final
      else
        let* entry := lift (getitem _tags tag) in
        let* tmp := read_entry entry read_child in
        compound_loop read_child k' (<[tag_name tmp := tmp]> final)
  end.

(** The list comprehension of the [TAG_List] branch over [range(0, n)]. *)
Fixpoint list_items (read_item : M Tag) (n : nat) : M (list Tag) :=
  match n with
  | O => ret []
  | S n' =>
      let* x := read_item in
      let* xs := list_items read_item n' in
      ret (x :: xs)
  end.

(** [BaseTag.read(cls, rd, has_name)]; [fuel] bounds the nesting depth. *)
Fixpoint read (fuel : nat) (cls : TagClass) (has_name : bool) : M Tag :=
  match fuel with
  | O => fun _ => OutOfFuel
  | S fuel' =>
      let* name := read_name has_name in
      match cls with
      | TAG_Compound =>
          let* final :=
            compound_loop (fun c => read fuel' c true) fuel ∅ in
          ret (TAG_Compound___init__ final name)
      | TAG_List =>
          let* t := rd [Item 1 c_b; Item 1 c_i] in
          let* (tag_type, length) := lift (unpack2_int t) in
          let* real_type := lift (getitem _tags tag_type) in
          let* value :=
            list_items (read_entry real_type (fun c => read fuel' c false))
                       (Z.to_nat length) in
          lift (TAG_List___init__ (by_int tag_type) value name)
      | Plain TAG_String =>
          let* value := _read_utf8 in
          ret (PlainTag TAG_String (PStr value) name)
      | Plain TAG_Byte_Array =>
          let* t := rd [Item 1 c_i] in
          let* length := lift (unpack1_int t) in
          let* t := rd [Item length c_s] in
          let* value := lift (getitem t 0) in
          ret (PlainTag TAG_Byte_Array value name)
      | Plain TAG_Int_Array =>
          let* t := rd [Item 1 c_i] in
          let* length := lift (unpack1_int t) in
          let* t := rd [Item length c_i] in
          let* value := lift (getitem t 0) in
          ret (PlainTag TAG_Int_Array value name)
      | Plain c =>
          match STRUCT_FMT c with
          | Some f =>
              let* t := rd [Item 1 f] in
              let* value := lift (getitem t 0) in
              ret (PlainTag c value name)
          | None => throw AttributeError
          end
      end
  end.

(** [cls.read(rd, has_name)] with a budget no stream can use up (see
    [TAG_read_not_OutOfFuel]). *)
Definition TAG_read (cls : TagClass) (has_name : bool) : M Tag :=
  fun s => read (S (length s)) cls has_name s.

End Read.

(** ** Writing *)

Section Write.

Variable wt : fmt -> list pyval -> result pystr.

(** [_write_utf8(wt, value)] *)
Definition _write_utf8 (value : pystr) : result pystr :=
  let n := Z.of_nat (length value) in
  wt [Item 1 c_h; Item n c_s] [PInt n; PStr value].

(** The first lines of every [write]:
    [if self.name is not None: wt('b', tag); _write_utf8(wt, self.name)] *)
Definition write_header (tag : Z) (name : option pystr) : result pystr :=
  match name with
  | None => Ok []
  | Some n =>
      let? x := wt [Item 1 c_b] [PInt tag] in
      let? y := _write_utf8 n in
      Ok (x ++ y)
  end.

(** Outputs of consecutive calls. *)
Definition sequence (rs : list (result pystr)) : result pystr :=
  foldr (fun r acc => let? x := r in let? xs := acc in Ok (x ++ xs)) (Ok []) rs.

Fixpoint write (self : Tag) : result pystr :=
  match self with
  | PlainTag TAG_Byte_Array value name =>
      let? h := write_header 7 name in
      let? n := len value in
      let? x := wt [Item 1 c_i; Item n c_s] [PInt n; value] in
      Ok (h ++ x)
  | PlainTag TAG_String value name =>
      let? h := write_header 8 name in
      let? n := len value in
      let? x := wt [Item 1 c_h; Item n c_s] [PInt n; value] in
      Ok (h ++ x)
  | PlainTag TAG_Int_Array value name =>
      let? h := write_header 11 name in
      let? n := len value in
      let? x := wt [Item 1 c_i; Item n c_i] [PInt n; value] in
      Ok (h ++ x)
  | PlainTag cls value name =>
      (* BaseTag.write; [_tags.index] finds every class of the table, so
         taking it before the test on the name changes nothing *)
      match STRUCT_FMT cls with
      | None => Raise NotImplementedError
      | Some f =>
          let? tag := index _tags (Some (Plain cls)) in
          let? h := write_header tag name in
          let? x := wt [Item 1 f] [value] in
          Ok (h ++ x)
      end
  | ListTag _type value name =>
      let? h := write_header 9 name in
      let? x := wt [Item 1 c_b; Item 1 c_i]
                   [PInt _type; PInt (Z.of_nat (length value))] in
      let? xs := sequence (map write value) in
      Ok (h ++ x ++ xs)
  | CompoundTag value name =>
      let? h := write_header 10 name in
      let? xs := map_fold (fun _ v acc =>
                   let? x := write v in let? r := acc in Ok (x ++ r))
                   (Ok []) value in
      let? e := wt [Item 1 c_b] [PInt 0] in
      Ok (h ++ xs ++ e)
  end.

End Write.

(** ** Documents *)

(** [NBTFile(io=None, name=name, value=value)] *)
Definition NBTFile_new (name : option pystr) (value : option dict) : Tag :=
  TAG_Compound___init__ (default ∅ value) name.

(** [NBTFile(io, compressed=False, little_endian=little_endian)] on an
    open file: the stream is what [io.read] delivers. *)
Definition NBTFile_load (little_endian : bool) : M Tag :=
  let x := reader little_endian in
  let* t := x [Item 1 c_b] in
  let* first := lift (getitem t 0) in
  if negb (pyval_eqb first (PInt 10)) then throw IOError
  else
    let* tmp := TAG_read x TAG_Compound true in
    match tmp with
    | CompoundTag value name => ret (TAG_Compound___init__ value name)
    | _ => throw TypeError
    end.

(** [self.save(io, compressed=False, little_endian=little_endian)] *)
Definition NBTFile_save (self : Tag) (little_endian : bool) : result pystr :=
  write (writer little_endian) self.

(** ** Tag objects *)

(** [update] assigns to [item.name] on the tag object itself, so a tag
    that is stored in two places is one object with one name.  Objects are
    told apart by their identity, and the [name] attribute of every object
    is kept in a store. *)
Definition ident : Type := positive.
Definition names : Type := ident -> option pystr.

(** A tag object with the objects it holds. *)
#[warnings="-register-all"]
Inductive OTag : Type :=
| OPlain (id : ident) (cls : ValueClass) (value : pyval)
| OList (id : ident) (_type : Z) (value : list OTag)
| OCompound (id : ident) (value : gmap (option pystr) OTag).

Definition obj_id (t : OTag) : ident :=
  match t with
  | OPlain id _ _ | OList id _ _ | OCompound id _ => id
  end.

(** The tree an object stands for, with the names as they are in [ns]. *)
Fixpoint view (ns : names) (t : OTag) : Tag :=
  match t with
  | OPlain id cls value => PlainTag cls value (ns id)
  | OList id _type value => ListTag _type (map (view ns) value) (ns id)
  | OCompound id value => CompoundTag (view ns <$> value) (ns id)
  end.

(** [item.name = name] *)
Definition assign (ns : names) (item : ident) (name : option pystr) : names :=
  fun id => if decide (id = item) then name else ns id.

(** [if item.name is None: item.name = key] on the object [item]. *)
Definition name_item (ns : names) (entry : option pystr * ident) : names :=
  match ns entry.2 with
  | None => assign ns entry.2 entry.1
  | Some _ => ns
  end.

(** [for key, item in self.items(): ...], where [items] is [self.items()]
    in the order in which the dictionary yields it. *)
Definition name_items (items : list (option pystr * ident)) (ns : names)
  : names :=
  foldl name_item ns items.

(** [TAG_Compound.update(self, other)] on dictionaries of objects:
    [dict.update], then the loop over [self.items()]. *)
Definition TAG_Compound_update_objects
    (self other : gmap (option pystr) ident)
    (items : list (option pystr * ident)) (ns : names)
  : gmap (option pystr) ident * names :=
  (other ∪ self, name_items items ns).

(** [NBTFile(io=None, name=name, value=value)] on objects: [self] is the new
    object, [items] the items of its dictionary after [dict.update]. *)
Definition NBTFile_new_objects (self : ident) (name : option pystr)
    (value : option (gmap (option pystr) OTag))
    (items : list (option pystr * ident)) (ns : names) : OTag * names :=
  let value := default ∅ value in
  let ns := assign ns self name in
  (OCompound self value,
   (TAG_Compound_update_objects ∅ (obj_id <$> value) items ns).2).

(** ** Vocabulary of the properties *)

(** The widths of the integer codes. *)
Definition is_width (w : Z) : Prop := w = 1 \/ w = 2 \/ w = 4 \/ w = 8.

(** [p] is [c] with at least one character missing at the end. *)
Definition truncation (p c : pystr) : Prop :=
  exists q, q <> [] /\ c = p ++ q.

(** [m] reads [a] from exactly the characters [bs], whatever follows. *)
Definition reads {A} (m : M A) (bs : pystr) (a : A) : Prop :=
  forall rest, m (bs ++ rest) = Ok (a, rest).

(** A computation that consumes a prefix of the stream, depends on that
    prefix only, and raises [struct.error] on every truncation of it. *)
Definition local {A} (m : M A) : Prop :=
  forall s a s', m s = Ok (a, s') ->
    exists c, s = c ++ s' /\ reads m c a /\
              forall p, truncation p c -> m p = Raise struct_error.

(** [m2] agrees with [m1] wherever [m1] has an outcome of the program. *)
Definition refines {A} (m1 m2 : M A) : Prop :=
  forall s, m1 s <> OutOfFuel -> m2 s = m1 s.

(** The tag byte of a class: its index in [_tags]. *)
Definition discriminant (cls : TagClass) : Z :=
  match index _tags (Some cls) with
  | Ok i => i
  | _ => 0
  end.

(** One character holding the integer [z]. *)
Definition chr (z : Z) : ascii := ascii_of_Z (z mod 256).

(** [m] has an outcome of the program on every stream of at most [n]
    characters. *)
Definition safe {A} (n : nat) (m : M A) : Prop :=
  forall s, (length s <= n)%nat -> m s <> OutOfFuel.

(** Number of tags in a tree. *)
Fixpoint weight (t : Tag) : nat :=
  match t with
  | PlainTag _ _ _ => 1
  | ListTag _ value _ => S (foldr (fun x acc => weight x + acc)%nat O value)
  | CompoundTag value _ =>
      S (map_fold (fun _ x acc => weight x + acc)%nat O value)
  end.

(** *** Trees the format can carry *)

(** A name fits the signed 16-bit length prefix. *)
Definition name_ok (name : option pystr) : bool :=
  match name with
  | None => true
  | Some n => Z.of_nat (length n) <=? 32767
  end.

(** A float that narrowing to binary32 and widening back leaves as it is. *)
Definition float_exact (d : Z) : bool :=
  match double_to_float d with
  | Some w => float_to_double w =? d
  | None => false
  end.

(** The value is of the kind the class packs and fits its wire field.
    [TAG_Int_Array] has no such value. *)
Definition value_ok (cls : ValueClass) (value : pyval) : bool :=
  match cls, value with
  | TAG_Byte, PInt z => (-128 <=? z) && (z <=? 127)
  | TAG_Short, PInt z => (-32768 <=? z) && (z <=? 32767)
  | TAG_Int, PInt z => (-2147483648 <=? z) && (z <=? 2147483647)
  | TAG_Long, PInt z =>
      (-9223372036854775808 <=? z) && (z <=? 9223372036854775807)
  | TAG_Float, PFloat d => (0 <=? d) && (d <? 2 ^ 64) && float_exact d
  | TAG_Double, PFloat d => (0 <=? d) && (d <? 2 ^ 64)
  | TAG_Byte_Array, PStr s => Z.of_nat (length s) <=? 2147483647
  | TAG_String, PStr s => Z.of_nat (length s) <=? 32767
  | _, _ => false
  end.

(** An element of a list: no name, and of the class the declared type
    selects in [_tags]. *)
Definition element_ok (_type : Z) (x : Tag) : bool :=
  bool_decide (tag_name x = None) &&
  match getitem _tags _type with
  | Ok (Some cls) => bool_decide (cls = class_of x)
  | _ => false
  end.

(** The declared type is an index of [_tags]. *)
Definition type_ok (_type : Z) : bool :=
  match getitem _tags _type with
  | Ok _ => true
  | _ => false
  end.

(** An entry of a compound: a string key, and the tag is named by it. *)
Definition entry_ok (key : option pystr) (x : Tag) : bool :=
  bool_decide (is_Some key) && bool_decide (tag_name x = key).

(** Trees on which writing then reading is the identity: every name and
    value fits its wire field, list elements are unnamed and of the
    declared type, compound entries are named by their key. *)
Fixpoint well_formed (t : Tag) : bool :=
  name_ok (tag_name t) &&
  match t with
  | PlainTag cls value _ => value_ok cls value
  | ListTag _type value _ =>
      (Z.of_nat (length value) <=? 2147483647) &&
      type_ok _type &&
      forallb (fun x => element_ok _type x && well_formed x) value
  | CompoundTag value _ =>
      map_fold (fun key x acc => entry_ok key x && well_formed x && acc)
               true value
  end.

(** Trees without a [TAG_Int_Array], the class whose [read] keeps one
    integer of the array. *)
Fixpoint int_array_free (t : Tag) : bool :=
  match t with
  | PlainTag cls _ _ => negb (bool_decide (cls = TAG_Int_Array))
  | ListTag _ value _ => forallb int_array_free value
  | CompoundTag value _ =>
      map_fold (fun _ x acc => int_array_free x && acc) true value
  end.

(** The identities of the objects inside an object, at every depth. *)
Fixpoint inner_ids (t : OTag) : list ident :=
  match t with
  | OPlain _ _ _ => []
  | OList _ _ value =>
      foldr (fun x acc => obj_id x :: inner_ids x ++ acc) [] value
  | OCompound _ value =>
      map_fold (fun _ x acc => obj_id x :: inner_ids x ++ acc) [] value
  end.

(** Unless [m] raises [struct.error], it does the same when more
    characters follow the stream, and leaves them. *)
Definition stable {A} (m : M A) : Prop :=
  forall s ext,
    match m s with
    | Ok (a, s') => m (s ++ ext) = Ok (a, s' ++ ext)
    | Raise e => e = struct_error \/ m (s ++ ext) = Raise e
    | OutOfFuel => True
    end.

(** The children of a compound as they follow each other in the stream:
    [children rd rc s xs rest] when [s] holds the tags [xs], each after its
    tag byte and read by [rc], then a zero byte, then [rest]. *)
Inductive children (rd : fmt -> M (list pyval)) (rc : TagClass -> M Tag)
  : pystr -> list Tag -> pystr -> Prop :=
| children_end s rest :
    rd [Item 1 c_b] s = Ok ([PInt 0], rest) ->
    children rd rc s [] rest
| children_next s tag s1 entry tmp s2 xs rest :
    rd [Item 1 c_b] s = Ok ([PInt tag], s1) ->
    tag <> 0 ->
    getitem _tags tag = Ok entry ->
    read_entry entry rc s1 = Ok (tmp, s2) ->
    children rd rc s2 xs rest ->
    children rd rc s (tmp :: xs) rest.

(** [final[tmp.name] = tmp] *)
Definition store (final : dict) (tmp : Tag) : dict :=
  <[tag_name tmp := tmp]> final.

(** Two streams of a compound without name: a child [a] = 5 then a child
    [a] = 7, and the child [a] = 7 alone. *)
Definition child_a (little_endian : bool) (z : Z) : pystr :=
  [chr 1] ++ ordered (order_of little_endian) [chr 1; chr 0]
          ++ ["a"%char; chr z].
Definition twice_a (little_endian : bool) : pystr :=
  child_a little_endian 5 ++ child_a little_endian 7 ++ [chr 0].
Definition once_a (little_endian : bool) : pystr :=
  child_a little_endian 7 ++ [chr 0].


(** *** Examples *)




(** Tags of two classes. *)
Definition mixed_elements : list Tag :=
  [PlainTag TAG_Short (PInt 5) None; PlainTag TAG_Byte (PInt 1) None].

(** * Properties *)

(** ** Bytes and integers *)

Lemma Z_of_ascii_range (a : ascii) : 0 <= Z_of_ascii a < 256.
Proof.
  unfold Z_of_ascii. pose proof (N_ascii_bounded a). lia.
Qed.

Lemma Z_of_ascii_of_Z (z : Z) : 0 <= z < 256 -> Z_of_ascii (ascii_of_Z z) = z.
Proof.
  intros Hz. unfold Z_of_ascii, ascii_of_Z.
  rewrite N_ascii_embedding by lia. lia.
Qed.

Lemma le_bytes_length (n : nat) (z : Z) : length (le_bytes n z) = n.
Proof.
  revert z. induction n as [|n IH]; intros z; simpl; [done|]. by rewrite IH.
Qed.

Lemma le_value_range (bs : pystr) : 0 <= le_value bs < 256 ^ Z.of_nat (length bs).
Proof.
  induction bs as [|c bs IH]; simpl length; simpl le_value; [simpl; lia|].
  rewrite Nat2Z.inj_succ, Z.pow_succ_r by lia.
  pose proof (Z_of_ascii_range c). lia.
Qed.

Lemma le_value_le_bytes (n : nat) (z : Z) :
  0 <= z -> le_value (le_bytes n z) = z mod 256 ^ Z.of_nat n.
Proof.
  revert z. induction n as [|n IH]; intros z Hz.
  - simpl. by rewrite Z.mod_1_r.
  - simpl le_bytes. simpl le_value.
    rewrite Z_of_ascii_of_Z by (apply Z.mod_pos_bound; lia).
    rewrite IH by (apply Z.div_pos; lia).
    rewrite Nat2Z.inj_succ, Z.pow_succ_r by lia.
    rewrite (Z.rem_mul_r z 256 (256 ^ Z.of_nat n)) by lia. done.
Qed.

Lemma ordered_length (o : byte_order) (bs : pystr) :
  length (ordered o bs) = length bs.
Proof. destruct o; simpl; [apply length_rev|done]. Qed.

Lemma ordered_involutive (o : byte_order) (bs : pystr) :
  ordered o (ordered o bs) = bs.
Proof. destruct o; simpl; [apply rev_involutive|done]. Qed.

Lemma pack_int_length (o : byte_order) (w z : Z) (bs : pystr) :
  0 <= w -> pack_int o w z = Ok bs -> Z.of_nat (length bs) = w.
Proof.
  unfold pack_int. intros Hw H. case_match; [|done].
  injection H as <-. rewrite ordered_length, le_bytes_length. lia.
Qed.

Lemma pack_int_Ok (o : byte_order) (w z : Z) :
  int_min w <= z <= int_max w ->
  pack_int o w z = Ok (ordered o (le_bytes (Z.to_nat w) (z mod 2 ^ (8 * w)))).
Proof.
  intros Hz. unfold pack_int.
  destruct (int_min w <=? z) eqn:H1; [|lia].
  destruct (z <=? int_max w) eqn:H2; [done|lia].
Qed.

Lemma pack_int_inv (o : byte_order) (w z : Z) (bs : pystr) :
  pack_int o w z = Ok bs ->
  int_min w <= z <= int_max w /\
  bs = ordered o (le_bytes (Z.to_nat w) (z mod 2 ^ (8 * w))).
Proof.
  unfold pack_int. intros H.
  destruct (int_min w <=? z) eqn:H1; [|done].
  destruct (z <=? int_max w) eqn:H2; [|done].
  simpl in H. injection H as <-. split; [lia|done].
Qed.

Lemma pack_int_Raise (o : byte_order) (w z : Z) :
  z < int_min w \/ int_max w < z -> pack_int o w z = Raise struct_error.
Proof.
  intros Hz. unfold pack_int.
  destruct (int_min w <=? z) eqn:H1; [|done].
  destruct (z <=? int_max w) eqn:H2; [lia|done].
Qed.

(** An integer in range comes back from its [w] bytes. *)
Lemma unpack_pack_int (o : byte_order) (w z : Z) (bs : pystr) :
  is_width w -> pack_int o w z = Ok bs -> unpack_int o w bs = z.
Proof.
  intros Hw H. apply pack_int_inv in H as [Hz ->].
  unfold unpack_int. rewrite ordered_involutive.
  rewrite le_value_le_bytes by (apply Z.mod_pos_bound; destruct Hw as [-> | [-> | [-> | ->]]]; done).
  replace (256 ^ Z.of_nat (Z.to_nat w)) with (2 ^ (8 * w)).
  2:{ destruct Hw as [-> | [-> | [-> | ->]]]; done. }
  rewrite Z.mod_mod by (destruct Hw as [-> | [-> | [-> | ->]]]; done).
  unfold to_signed, int_min, int_max in *.
  destruct Hw as [-> | [-> | [-> | ->]]]; simpl in *.
  all: destruct (Z_lt_le_dec z 0);
    [ rewrite <- (Z.mod_add z 1) by lia; rewrite Z.mod_small by lia
    | rewrite Z.mod_small by lia ];
    case_match; lia.
Qed.

(** ** The reader monad *)

Lemma bind_Ok_inv {A B} (m : M A) (k : A -> M B) s y s2 :
  bind m k s = Ok (y, s2) ->
  exists a s1, m s = Ok (a, s1) /\ k a s1 = Ok (y, s2).
Proof.
  unfold bind. destruct (m s) as [[a s1]| |]; [|done..]. eauto.
Qed.

Lemma bind_Ok {A B} (m : M A) (k : A -> M B) s a s1 :
  m s = Ok (a, s1) -> bind m k s = k a s1.
Proof. unfold bind. by intros ->. Qed.

Lemma bind_Raise {A B} (m : M A) (k : A -> M B) s e :
  m s = Raise e -> bind m k s = Raise e.
Proof. unfold bind. by intros ->. Qed.

Lemma lift_Ok_inv {A} (r : result A) s a s' :
  lift r s = Ok (a, s') -> r = Ok a /\ s' = s.
Proof.
  unfold lift. destruct r; simpl; [|done..]. by intros [= -> ->].
Qed.

Lemma truncation_nil (p : pystr) : ~ truncation p [].
Proof.
  intros (q & Hq & H). symmetry in H. apply app_eq_nil in H as [_ ->]. done.
Qed.

Lemma truncation_length (p c : pystr) :
  truncation p c -> (length p < length c)%nat.
Proof.
  intros (q & Hq & ->). rewrite length_app. destruct q; [done|simpl; lia].
Qed.

Lemma truncation_take (p c : pystr) :
  truncation p c -> p = take (length p) c.
Proof.
  intros (q & _ & ->). by rewrite take_app_length.
Qed.

Lemma truncation_app_inv (p c1 c2 : pystr) :
  truncation p (c1 ++ c2) ->
  truncation p c1 \/ exists p2, p = c1 ++ p2 /\ truncation p2 c2.
Proof.
  revert p. induction c1 as [|x c1 IH]; intros p (q & Hq & H).
  - right. exists p. split; [done|]. by exists q.
  - destruct p as [|y p].
    + left. exists (x :: c1). done.
    + simpl in H. injection H as <- H.
      destruct (IH p) as [(q' & Hq' & ->)|(p2 & -> & Hp2)].
      * by exists q.
      * left. exists q'. done.
      * right. exists p2. done.
Qed.

Lemma truncation_app_r (c p2 c2 : pystr) :
  truncation p2 c2 -> truncation (c ++ p2) (c ++ c2).
Proof.
  intros (q & Hq & ->). exists q. by rewrite <- app_assoc.
Qed.

Lemma local_ret {A} (a : A) : local (ret a).
Proof.
  intros s a' s' [= <- <-]. exists []. split; [done|]. split; [done|].
  intros p Hp. by apply truncation_nil in Hp.
Qed.

Lemma local_throw {A} (e : exn) : local (throw (A:=A) e).
Proof. by intros s a s' H. Qed.

Lemma local_lift {A} (r : result A) : local (lift r).
Proof.
  intros s a s' H. apply lift_Ok_inv in H as [-> ->].
  exists []. split; [done|]. split; [done|].
  intros p Hp. by apply truncation_nil in Hp.
Qed.

Lemma local_bind {A B} (m : M A) (k : A -> M B) :
  local m -> (forall a, local (k a)) -> local (bind m k).
Proof.
  intros Hm Hk s y s2 H.
  apply bind_Ok_inv in H as (a & s1 & H1 & H2).
  destruct (Hm _ _ _ H1) as (c1 & -> & R1 & T1).
  destruct (Hk a _ _ _ H2) as (c2 & -> & R2 & T2).
  exists (c1 ++ c2). split; [by rewrite app_assoc|]. split.
  - intros rest. rewrite <- app_assoc.
    rewrite (bind_Ok _ _ _ _ _ (R1 _)). apply R2.
  - intros p Hp. apply truncation_app_inv in Hp as [Hp|(p2 & -> & Hp2)].
    + apply bind_Raise. by apply T1.
    + rewrite (bind_Ok _ _ _ _ _ (R1 _)). by apply T2.
Qed.

Lemma local_ite {A} (c : bool) (m1 m2 : M A) :
  local m1 -> local m2 -> local (if c then m1 else m2).
Proof. by destruct c. Qed.

(** ** The reader closure *)

Lemma calcsize_nonneg (f : fmt) (n : Z) : calcsize f = Ok n -> 0 <= n.
Proof.
  unfold calcsize. destruct (forallb item_ok f) eqn:Hf; [|done].
  intros [= <-]. induction f as [|[k c] f IH]; simpl in *; [done|].
  apply andb_prop in Hf as [Hk Hf]. specialize (IH Hf).
  assert (0 <= code_size c) by (by destruct c). apply Z.leb_le in Hk. nia.
Qed.

(** What [rd(f)] does: it fails on a format with a negative count, and on a
    stream shorter than the format; otherwise it consumes exactly
    [calcsize(f)] characters. *)
Lemma reader_spec (le : bool) (f : fmt) (s : pystr) :
  reader le f s =
    match calcsize f with
    | Ok n =>
        if Z.of_nat (length s) <? n then Raise struct_error
        else Ok (unpack_items (order_of le) f (take (Z.to_nat n) s),
                 drop (Z.to_nat n) s)
    | Raise e => Raise e
    | OutOfFuel => OutOfFuel
    end.
Proof.
  unfold reader, bind, lift, g_read, unpack.
  destruct (calcsize f) as [n| |] eqn:Hn; simpl; [|done..].
  pose proof (calcsize_nonneg _ _ Hn).
  rewrite length_take.
  destruct (Z.ltb_spec (Z.of_nat (length s)) n).
  - destruct (Z.eqb_spec (Z.of_nat (Nat.min (Z.to_nat n) (length s))) n); [lia|done].
  - destruct (Z.eqb_spec (Z.of_nat (Nat.min (Z.to_nat n) (length s))) n); [done|lia].
Qed.

Lemma reader_not_OutOfFuel (le : bool) (f : fmt) (s : pystr) :
  reader le f s <> OutOfFuel.
Proof.
  rewrite reader_spec. unfold calcsize.
  destruct (forallb item_ok f); [|done]. by case_match.
Qed.

Lemma reader_reads (le : bool) (f : fmt) (bs : pystr) :
  calcsize f = Ok (Z.of_nat (length bs)) ->
  reads (reader le f) bs (unpack_items (order_of le) f bs).
Proof.
  intros Hf rest. rewrite reader_spec, Hf, length_app.
  destruct (Z.ltb_spec (Z.of_nat (length bs + length rest)) (Z.of_nat (length bs))); [lia|].
  rewrite Nat2Z.id, take_app_length, drop_app_length. done.
Qed.

Lemma local_reader (le : bool) (f : fmt) : local (reader le f).
Proof.
  intros s a s' H. rewrite reader_spec in H.
  destruct (calcsize f) as [n| |] eqn:Hn; [|done..].
  pose proof (calcsize_nonneg _ _ Hn) as Hn0.
  destruct (Z.ltb_spec (Z.of_nat (length s)) n) as [|Hlen]; [done|].
  injection H as <- <-.
  assert (Hc : Z.of_nat (length (take (Z.to_nat n) s)) = n)
    by (rewrite length_take; lia).
  exists (take (Z.to_nat n) s). split; [by rewrite take_drop|]. split.
  - apply reader_reads. by rewrite Hc.
  - intros p Hp. apply truncation_length in Hp.
    rewrite reader_spec, Hn.
    destruct (Z.ltb_spec (Z.of_nat (length p)) n); [done|lia].
Qed.

(** ** Reading is local *)

Lemma local_OutOfFuel {A} : local (fun _ : pystr => OutOfFuel (A:=A * pystr)).
Proof. by intros s a s' H. Qed.

Ltac local_step :=
  first
    [ apply local_ret
    | apply local_throw
    | apply local_lift
    | apply local_OutOfFuel
    | assumption
    | apply local_bind; [|intros ?] ].

Section Locality.

Variable rd : fmt -> M (list pyval).
Hypothesis rd_local : forall f, local (rd f).

Lemma local_read_utf8 : local (_read_utf8 rd).
Proof. unfold _read_utf8. repeat (local_step || apply rd_local). Qed.

Lemma local_read_name (has_name : bool) : local (read_name rd has_name).
Proof.
  destruct has_name; [|apply local_ret].
  apply local_bind; [apply local_read_utf8|intros; apply local_ret].
Qed.

Lemma local_read_entry (entry : option TagClass) (rc : TagClass -> M Tag) :
  (forall c, local (rc c)) -> local (read_entry entry rc).
Proof. intros H. destruct entry; simpl; [apply H|apply local_throw]. Qed.

Lemma local_compound_loop (rc : TagClass -> M Tag) (k : nat) (final : dict) :
  (forall c, local (rc c)) -> local (compound_loop rd rc k final).
Proof.
  intros Hrc. revert final. induction k as [|k IH]; intros final; simpl.
  - apply local_OutOfFuel.
  - apply local_bind; [apply rd_local|]. intros t.
    apply local_bind; [apply local_lift|]. intros tag.
    apply local_ite; [apply local_ret|].
    apply local_bind; [apply local_lift|]. intros entry.
    apply local_bind; [by apply local_read_entry|]. intros tmp.
    apply IH.
Qed.

Lemma local_list_items (ri : M Tag) (n : nat) :
  local ri -> local (list_items ri n).
Proof.
  intros Hri. induction n as [|n IH]; simpl; repeat local_step.
Qed.

Lemma local_read (fuel : nat) (cls : TagClass) (has_name : bool) :
  local (read rd fuel cls has_name).
Proof.
  revert cls has_name.
  induction fuel as [|fuel IH]; intros cls has_name; cbn [read].
  - apply local_OutOfFuel.
  - apply local_bind; [apply local_read_name|].
    intros name. destruct cls as [c| |].
    + destruct c; simpl;
        repeat (local_step || apply rd_local || apply local_read_utf8).
    + apply local_bind; [apply rd_local|]. intros t.
      apply local_bind; [apply local_lift|]. intros [tag_type length].
      apply local_bind; [apply local_lift|]. intros real_type.
      apply local_bind; [|intros; apply local_lift].
      apply local_list_items, local_read_entry. intros c. apply IH.
    + apply local_bind; [|intros; apply local_ret].
      apply local_compound_loop. intros c. apply IH.
Qed.

End Locality.

(** ** Fuel *)

Lemma refines_refl {A} (m : M A) : refines m m.
Proof. by intros s _. Qed.

Lemma refines_bind {A B} (m1 m2 : M A) (k1 k2 : A -> M B) :
  refines m1 m2 -> (forall a, refines (k1 a) (k2 a)) ->
  refines (bind m1 k1) (bind m2 k2).
Proof.
  intros Hm Hk s H. unfold bind in *.
  destruct (m1 s) as [[a s1]| |] eqn:E; [| |done].
  - rewrite (Hm s) by (by rewrite E). rewrite E. by apply Hk.
  - rewrite (Hm s) by (by rewrite E). by rewrite E.
Qed.

Lemma refines_ite {A} (c : bool) (m1 m2 m1' m2' : M A) :
  refines m1 m1' -> refines m2 m2' ->
  refines (if c then m1 else m2) (if c then m1' else m2').
Proof. by destruct c. Qed.

Section Fuel.

Variable rd : fmt -> M (list pyval).

Lemma refines_read_entry (entry : option TagClass) (rc1 rc2 : TagClass -> M Tag) :
  (forall c, refines (rc1 c) (rc2 c)) ->
  refines (read_entry entry rc1) (read_entry entry rc2).
Proof. intros H. destruct entry; simpl; [apply H|apply refines_refl]. Qed.

Lemma refines_compound_loop (rc1 rc2 : TagClass -> M Tag) (k1 k2 : nat)
    (final : dict) :
  (forall c, refines (rc1 c) (rc2 c)) -> (k1 <= k2)%nat ->
  refines (compound_loop rd rc1 k1 final) (compound_loop rd rc2 k2 final).
Proof.
  intros Hrc. revert k2 final.
  induction k1 as [|k1 IH]; intros k2 final Hk; [by intros s H|].
  destruct k2 as [|k2]; [lia|]. simpl.
  apply refines_bind; [apply refines_refl|]. intros t.
  apply refines_bind; [apply refines_refl|]. intros tag.
  apply refines_ite; [apply refines_refl|].
  apply refines_bind; [apply refines_refl|]. intros entry.
  apply refines_bind; [by apply refines_read_entry|]. intros tmp.
  apply IH. lia.
Qed.

Lemma refines_list_items (ri1 ri2 : M Tag) (n : nat) :
  refines ri1 ri2 -> refines (list_items ri1 n) (list_items ri2 n).
Proof.
  intros Hri. induction n as [|n IH]; simpl; [apply refines_refl|].
  apply refines_bind; [done|]. intros x.
  apply refines_bind; [done|]. intros xs. apply refines_refl.
Qed.

(** More fuel does not change an outcome. *)
Lemma refines_read (f1 f2 : nat) (cls : TagClass) (has_name : bool) :
  (f1 <= f2)%nat -> refines (read rd f1 cls has_name) (read rd f2 cls has_name).
Proof.
  revert f2 cls has_name.
  induction f1 as [|f1 IH]; intros f2 cls has_name Hf; [by intros s H|].
  destruct f2 as [|f2]; [lia|]. cbn [read].
  apply refines_bind; [apply refines_refl|]. intros name.
  destruct cls as [c| |].
  - apply refines_refl.
  - apply refines_bind; [apply refines_refl|]. intros t.
    apply refines_bind; [apply refines_refl|]. intros [tag_type length].
    apply refines_bind; [apply refines_refl|]. intros real_type.
    apply refines_bind; [|intros; apply refines_refl].
    apply refines_list_items, refines_read_entry. intros c. apply IH. lia.
  - apply refines_bind; [|intros; apply refines_refl].
    apply refines_compound_loop; [|lia]. intros c. apply IH. lia.
Qed.

End Fuel.

Lemma safe_le {A} (n n' : nat) (m : M A) : (n' <= n)%nat -> safe n m -> safe n' m.
Proof. intros Hn H s Hs. apply H. lia. Qed.

Lemma safe_ret {A} (n : nat) (a : A) : safe n (ret a).
Proof. by intros s _. Qed.

Lemma safe_throw {A} (n : nat) (e : exn) : safe n (throw (A:=A) e).
Proof. by intros s _. Qed.

Lemma lift_not_OutOfFuel {A} (r : result A) (s : pystr) :
  r <> OutOfFuel -> lift r s <> OutOfFuel.
Proof. by destruct r. Qed.

Lemma local_length {A} (m : M A) s a s' :
  local m -> m s = Ok (a, s') -> (length s' <= length s)%nat.
Proof.
  intros Hm H. destruct (Hm _ _ _ H) as (c & -> & _). rewrite length_app. lia.
Qed.

Lemma safe_bind {A B} (n : nat) (m : M A) (k : A -> M B) :
  local m -> safe n m -> (forall a, safe n (k a)) -> safe n (bind m k).
Proof.
  intros Hl Hm Hk s Hs. unfold bind.
  destruct (m s) as [[a s1]| |] eqn:E; [|done|by apply Hm in E].
  apply Hk. apply (local_length _ _ _ _ Hl) in E. lia.
Qed.

Lemma safe_ite {A} (n : nat) (c : bool) (m1 m2 : M A) :
  safe n m1 -> safe n m2 -> safe n (if c then m1 else m2).
Proof. by destruct c. Qed.

Lemma safe_reader {n : nat} (le : bool) (f : fmt) : safe n (reader le f).
Proof. intros s _. apply reader_not_OutOfFuel. Qed.

(** After a read of at least one character the stream is shorter. *)
Lemma safe_after_reader {B} (n : nat) (le : bool) (f : fmt) (k : list pyval -> M B) :
  1 <= fmt_size f ->
  (forall a, (1 <= n)%nat -> safe (n - 1) (k a)) -> safe n (bind (reader le f) k).
Proof.
  intros Hf Hk s Hs. unfold bind. rewrite reader_spec. unfold calcsize.
  destruct (forallb item_ok f); [|done].
  destruct (Z.ltb_spec (Z.of_nat (length s)) (fmt_size f)); [done|].
  apply Hk; [lia|]. rewrite length_drop. lia.
Qed.

Lemma safe_lift {A} (n : nat) (r : result A) : r <> OutOfFuel -> safe n (lift r).
Proof. intros H s _. by apply lift_not_OutOfFuel. Qed.

Lemma getitem_not_OutOfFuel {A} (t : list A) (i : Z) : getitem t i <> OutOfFuel.
Proof. unfold getitem. repeat case_match; done. Qed.

Lemma unpack1_int_not_OutOfFuel (t : list pyval) : unpack1_int t <> OutOfFuel.
Proof. by destruct t as [|[] []]. Qed.

Lemma unpack2_int_not_OutOfFuel (t : list pyval) : unpack2_int t <> OutOfFuel.
Proof. by destruct t as [|[] [|[] []]]. Qed.

Lemma safe_read_entry (n : nat) (entry : option TagClass) (rc : TagClass -> M Tag) :
  (forall c, safe n (rc c)) -> safe n (read_entry entry rc).
Proof. intros H. destruct entry; simpl; [apply H|apply safe_throw]. Qed.

Lemma safe_list_items (ri : M Tag) (n k : nat) :
  local ri -> safe n ri -> safe n (list_items ri k).
Proof.
  intros Hl Hri. induction k as [|k IH]; simpl; [apply safe_ret|].
  apply safe_bind; [done..|]. intros x.
  apply safe_bind; [by apply local_list_items|done|]. intros xs.
  apply safe_ret.
Qed.

Section Enough.

Variable le : bool.
Local Abbreviation rd := (reader le).

Lemma safe_read_utf8 (n : nat) : safe n (_read_utf8 rd).
Proof.
  unfold _read_utf8.
  apply safe_bind; [apply local_reader|apply safe_reader|]. intros t.
  apply safe_bind; [apply local_lift| |].
  { apply safe_lift, unpack1_int_not_OutOfFuel. }
  intros length.
  apply safe_bind; [apply local_reader|apply safe_reader|]. intros t'.
  apply safe_lift. unfold item0_str, getitem.
  destruct t' as [|[] ?]; done.
Qed.

Lemma safe_compound_loop (rc : TagClass -> M Tag) (m k n : nat) (final : dict) :
  (forall c, local (rc c)) -> (forall c, safe m (rc c)) ->
  (n < k)%nat -> (n <= S m)%nat ->
  safe n (compound_loop rd rc k final).
Proof.
  intros Hl Hrc. revert n final.
  induction k as [|k IH]; intros n final Hk Hm; [lia|]. simpl.
  apply safe_after_reader; [done|]. intros t Hn.
  apply safe_bind; [apply local_lift| |].
  { apply safe_lift, unpack1_int_not_OutOfFuel. }
  intros tag. apply safe_ite; [apply safe_ret|].
  apply safe_bind; [apply local_lift| |].
  { apply safe_lift, getitem_not_OutOfFuel. }
  intros entry.
  apply safe_bind; [by apply local_read_entry| |].
  { apply safe_read_entry. intros c. apply (safe_le m); [lia|done]. }
  intros tmp. apply IH; lia.
Qed.

(** A stream shorter than the fuel cannot use it up. *)
Lemma safe_read (fuel n : nat) (cls : TagClass) (has_name : bool) :
  (n < fuel)%nat -> safe n (read rd fuel cls has_name).
Proof.
  revert n cls has_name.
  induction fuel as [|fuel IH]; intros n cls has_name Hn; [lia|]. cbn [read].
  apply safe_bind.
  { apply local_read_name, local_reader. }
  { destruct has_name; [|apply safe_ret].
    apply safe_bind; [apply local_read_utf8, local_reader|apply safe_read_utf8|].
    intros; apply safe_ret. }
  intros name. destruct cls as [c| |].
  - destruct c; simpl;
      repeat first
        [ apply safe_ret | apply safe_throw
        | apply safe_lift;
          first [apply getitem_not_OutOfFuel | apply unpack1_int_not_OutOfFuel]
        | apply safe_read_utf8
        | apply safe_reader
        | apply safe_bind;
          [ first [apply local_reader | apply local_lift
                  | apply local_read_utf8, local_reader] | | intros ? ] ].
  - apply safe_after_reader; [done|]. intros t Hn1.
    apply safe_bind; [apply local_lift| |].
    { apply safe_lift, unpack2_int_not_OutOfFuel. }
    intros [tag_type length].
    apply safe_bind; [apply local_lift| |].
    { apply safe_lift, getitem_not_OutOfFuel. }
    intros real_type.
    assert (Hl : local (read_entry real_type (fun c => read rd fuel c false))).
    { apply local_read_entry. intros c. apply local_read, local_reader. }
    apply safe_bind; [by apply local_list_items| |].
    + apply safe_list_items; [done|]. apply safe_read_entry. intros c.
      apply IH. lia.
    + intros value. by apply safe_lift.
  - apply safe_bind.
    { apply local_compound_loop; [apply local_reader|].
      intros c. apply local_read, local_reader. }
    { destruct fuel as [|fuel].
      - assert (n = O) as -> by lia. intros s Hs. destruct s; [|simpl in Hs; lia].
        simpl. unfold bind. by rewrite reader_spec.
      - apply (safe_compound_loop _ fuel); [| |lia..].
        + intros c. apply local_read, local_reader.
        + intros c. apply IH. lia. }
    intros final. apply safe_ret.
Qed.

(** [TAG_read] always has an outcome of the program, and it is that of
    [read] under any larger budget. *)
Lemma TAG_read_not_OutOfFuel (cls : TagClass) (has_name : bool) (s : pystr) :
  TAG_read rd cls has_name s <> OutOfFuel.
Proof. unfold TAG_read. by apply (safe_read _ (length s)); [lia|]. Qed.

Lemma TAG_read_fuel (fuel : nat) (cls : TagClass) (has_name : bool) (s : pystr) :
  read rd fuel cls has_name s <> OutOfFuel ->
  TAG_read rd cls has_name s = read rd fuel cls has_name s.
Proof.
  intros H. unfold TAG_read.
  destruct (Nat.le_gt_cases fuel (S (length s))) as [Hle|Hgt].
  - by apply refines_read.
  - symmetry. apply refines_read; [lia|]. apply TAG_read_not_OutOfFuel.
Qed.

End Enough.

(** ** Reading back what was written *)

Lemma reads_ret {A} (a : A) : reads (ret a) [] a.
Proof. by intros rest. Qed.

Lemma reads_lift {A} (r : result A) (a : A) : r = Ok a -> reads (lift r) [] a.
Proof. by intros -> rest. Qed.

Lemma reads_bind {A B} (m : M A) (k : A -> M B) bs bs' a y :
  reads m bs a -> reads (k a) bs' y -> reads (bind m k) (bs ++ bs') y.
Proof.
  intros Hm Hk rest. rewrite <- app_assoc.
  rewrite (bind_Ok _ _ _ _ _ (Hm _)). apply Hk.
Qed.

Lemma reads_bind_nil {A B} (m : M A) (k : A -> M B) bs a y :
  reads m [] a -> reads (k a) bs y -> reads (bind m k) bs y.
Proof. intros Hm Hk. by apply (reads_bind m k [] bs a y). Qed.

Lemma reads_bind_last {A B} (m : M A) (k : A -> M B) bs a y :
  reads m bs a -> reads (k a) [] y -> reads (bind m k) bs y.
Proof.
  intros Hm Hk. rewrite <- (app_nil_r bs). by apply reads_bind with a.
Qed.

Lemma rbind_Ok_inv {A B} (r : result A) (k : A -> result B) (y : B) :
  rbind r k = Ok y -> exists a, r = Ok a /\ k a = Ok y.
Proof. destruct r; simpl; [eauto|done..]. Qed.

Local Arguments pack_int : simpl never.
Local Arguments unpack_int : simpl never.
Local Arguments pack_value : simpl never.
Local Arguments unpack_value : simpl never.

Section Wire.

Variable le : bool.
Local Abbreviation o := (order_of le).
Local Abbreviation rd := (reader le).
Local Abbreviation wt := (writer le).

Lemma pack_scalar (c : code) (v : pyval) :
  c <> c_s -> wt [Item 1 c] [v] = pack_value o c v.
Proof.
  intros Hc. unfold writer, pack. simpl.
  destruct c; try done; simpl;
    destruct (pack_value _ _ v) as [x| |]; simpl; try done;
    by rewrite !app_nil_r.
Qed.

Lemma reads_scalar (c : code) (bs : pystr) :
  c <> c_s -> Z.of_nat (length bs) = code_size c ->
  reads (rd [Item 1 c]) bs [unpack_value o c bs].
Proof.
  intros Hc Hbs.
  assert (H : unpack_items o [Item 1 c] bs = [unpack_value o c bs]).
  { destruct c; try done; simpl in *;
      rewrite take_ge by lia; done. }
  rewrite <- H. apply reader_reads. unfold calcsize. simpl.
  f_equal. lia.
Qed.

(** The two integer fields of a list header. *)
Lemma pack_bi (t n : Z) :
  wt [Item 1 c_b; Item 1 c_i] [PInt t; PInt n] =
    (let? x := pack_int o 1 t in let? y := pack_int o 4 n in Ok (x ++ y)).
Proof.
  unfold writer, pack. simpl. unfold pack_value. simpl.
  destruct (pack_int o 1 t) as [x| |]; simpl; [|done..].
  destruct (pack_int o 4 n) as [y| |]; simpl; [|done..].
  by rewrite !app_nil_r.
Qed.

Lemma reads_bi (x y : pystr) :
  Z.of_nat (length x) = 1 -> Z.of_nat (length y) = 4 ->
  reads (rd [Item 1 c_b; Item 1 c_i]) (x ++ y)
        [PInt (unpack_int o 1 x); PInt (unpack_int o 4 y)].
Proof.
  intros Hx Hy.
  assert (H : unpack_items o [Item 1 c_b; Item 1 c_i] (x ++ y)
              = [PInt (unpack_int o 1 x); PInt (unpack_int o 4 y)]).
  { destruct x as [|a [|]]; simpl in Hx; try lia. simpl.
    rewrite take_0, drop_0, take_ge by lia. done. }
  rewrite <- H. apply reader_reads. unfold calcsize. simpl.
  f_equal. rewrite length_app. lia.
Qed.

(** A length field of code [c] followed by the characters. *)
Lemma pack_len_s (c : code) (s : pystr) :
  c <> c_s ->
  wt [Item 1 c; Item (Z.of_nat (length s)) c_s]
     [PInt (Z.of_nat (length s)); PStr s] =
    (let? x := pack_value o c (PInt (Z.of_nat (length s))) in Ok (x ++ s)).
Proof.
  intros Hc. unfold writer, pack. simpl.
  destruct (Z.leb_spec 0 (Z.of_nat (length s))); [|lia]. simpl.
  destruct c; try done; simpl;
    destruct (pack_value o _ _) as [x| |]; simpl; try done;
    by rewrite Nat2Z.id, take_app_length, !app_nil_r.
Qed.

Lemma reads_s (s : pystr) :
  reads (rd [Item (Z.of_nat (length s)) c_s]) s [PStr s].
Proof.
  assert (H : unpack_items o [Item (Z.of_nat (length s)) c_s] s = [PStr s]).
  { simpl. by rewrite Nat2Z.id, take_ge by lia. }
  rewrite <- H. apply reader_reads. unfold calcsize. simpl.
  destruct (Z.leb_spec 0 (Z.of_nat (length s))); [|lia]. simpl. f_equal. lia.
Qed.

(** A string of at most 32767 characters is written, and read back. *)
Lemma write_read_utf8 (value : pystr) :
  Z.of_nat (length value) <= 32767 ->
  exists x, pack_int o 2 (Z.of_nat (length value)) = Ok x /\
            _write_utf8 wt value = Ok (x ++ value) /\
            reads (_read_utf8 rd) (x ++ value) value.
Proof.
  intros Hlen.
  assert (Hx : pack_int o 2 (Z.of_nat (length value)) = Ok
    (ordered o (le_bytes (Z.to_nat 2) (Z.of_nat (length value) mod 2 ^ (8 * 2))))).
  { apply pack_int_Ok. unfold int_min, int_max. simpl. lia. }
  eexists. split; [exact Hx|]. split.
  - unfold _write_utf8. rewrite pack_len_s by done.
    unfold pack_value. cbn [code_size]. by rewrite Hx.
  - unfold _read_utf8.
    eapply reads_bind.
    { apply (reads_scalar c_h); [done|].
      by rewrite ordered_length, le_bytes_length. }
    apply reads_bind_nil with (a := Z.of_nat (length value)).
    { apply reads_lift. unfold unpack_value. cbn [code_size unpack1_int].
      by erewrite unpack_pack_int; [|unfold is_width; lia|exact Hx]. }
    eapply reads_bind_last; [apply reads_s|].
    by apply reads_lift.
Qed.

End Wire.

(** ** Trees *)

Lemma weight_pos (t : Tag) : (1 <= weight t)%nat.
Proof. destruct t; cbn [weight]; lia. Qed.

Lemma weight_elements (l : list Tag) (x : Tag) :
  x ∈ l -> (weight x <= foldr (fun x acc => weight x + acc)%nat O l)%nat.
Proof.
  induction 1 as [y l'|y z l' _ IH]; cbn [foldr].
  - apply Nat.le_add_r.
  - etransitivity; [apply IH|]. rewrite Nat.add_comm. apply Nat.le_add_r.
Qed.

Lemma weight_element (_type : Z) (value : list Tag) name (x : Tag) :
  x ∈ value -> (weight x < weight (ListTag _type value name))%nat.
Proof. intros H. apply weight_elements in H. cbn [weight]. lia. Qed.

Lemma weight_entries (l : list (option pystr * Tag)) :
  (length l <=
   foldr (uncurry (fun (_ : option pystr) x acc => weight x + acc)%nat) O l)%nat /\
  forall key x, (key, x) ∈ l ->
    (weight x <=
     foldr (uncurry (fun (_ : option pystr) x acc => weight x + acc)%nat) O l)%nat.
Proof.
  induction l as [|[k y] l [IH1 IH2]]; cbn [foldr uncurry length].
  - split; [done|]. intros key x H. by apply elem_of_nil in H.
  - pose proof (weight_pos y). split.
    + apply (Nat.add_le_mono 1 _ _ _ H IH1).
    + intros key x Hx. apply elem_of_cons in Hx as [[= <- <-]|Hx].
      * apply Nat.le_add_r.
      * etransitivity; [apply (IH2 _ _ Hx)|].
        rewrite Nat.add_comm. apply Nat.le_add_r.
Qed.

Lemma weight_entry (value : dict) name key (x : Tag) :
  value !! key = Some x -> (weight x < weight (CompoundTag value name))%nat.
Proof.
  intros H. cbn [weight]. rewrite map_fold_foldr.
  apply elem_of_map_to_list in H.
  apply (proj2 (weight_entries _)) in H. lia.
Qed.

Lemma weight_size (value : dict) name :
  (length (map_to_list value) < weight (CompoundTag value name))%nat.
Proof.
  cbn [weight]. rewrite map_fold_foldr.
  pose proof (proj1 (weight_entries (map_to_list value))). lia.
Qed.

Lemma foldr_entries_andb (P : option pystr -> Tag -> bool)
    (l : list (option pystr * Tag)) :
  foldr (uncurry (fun key x acc => P key x && acc)) true l = true <->
  forall key x, (key, x) ∈ l -> P key x = true.
Proof.
  induction l as [|[k y] l IH]; cbn [foldr uncurry].
  - split; [|done]. intros _ key x H. by apply elem_of_nil in H.
  - rewrite andb_true_iff, IH. split.
    + intros [H1 H2] key x H. apply elem_of_cons in H as [[= -> ->]|H]; auto.
    + intros H. split; [apply H; left|intros key x Hx; apply H; by right].
Qed.

Lemma map_fold_andb (P : option pystr -> Tag -> bool) (d : dict) :
  map_fold (fun key x acc => P key x && acc) true d = true <->
  forall key x, d !! key = Some x -> P key x = true.
Proof.
  rewrite map_fold_foldr, foldr_entries_andb.
  split; intros H key x Hx; apply H; by apply elem_of_map_to_list.
Qed.

Lemma well_formed_name (t : Tag) : well_formed t = true -> name_ok (tag_name t) = true.
Proof. destruct t; simpl; intros H; by apply andb_prop in H as [? _]. Qed.

Lemma well_formed_list _type value name :
  well_formed (ListTag _type value name) = true ->
  Z.of_nat (length value) <= 2147483647 /\
  (exists entry, getitem _tags _type = Ok entry /\
     forall x, x ∈ value ->
       tag_name x = None /\ entry = Some (class_of x) /\ well_formed x = true).
Proof.
  cbn [well_formed]. rewrite !andb_true_iff.
  intros (_ & ((Hlen & Hty) & Hall)). split; [lia|].
  unfold type_ok in Hty.
  destruct (getitem _tags _type) as [entry| |] eqn:E; [|done..].
  exists entry. split; [done|]. intros x Hx.
  rewrite forallb_forall in Hall. apply list_elem_of_In, Hall in Hx.
  apply andb_prop in Hx as [Hx Hwf]. unfold element_ok in Hx. rewrite E in Hx.
  apply andb_prop in Hx as [Hn Hc]. apply bool_decide_eq_true in Hn.
  destruct entry as [cls|]; [|done]. apply bool_decide_eq_true in Hc.
  by subst.
Qed.

Lemma well_formed_compound value name :
  well_formed (CompoundTag value name) = true ->
  forall key x, value !! key = Some x ->
    is_Some key /\ tag_name x = key /\ well_formed x = true.
Proof.
  cbn [well_formed]. rewrite andb_true_iff. intros [_ H] key x Hx.
  rewrite (map_fold_andb (fun key x => entry_ok key x && well_formed x)) in H.
  specialize (H key x Hx). apply andb_prop in H as [H Hwf].
  unfold entry_ok in H. apply andb_prop in H as [H1 H2].
  apply bool_decide_eq_true in H1, H2. done.
Qed.

(** ** Values *)

Lemma lor_bound (a c n : Z) :
  0 <= n -> 0 <= a < 2 ^ n -> 0 <= c < 2 ^ n -> 0 <= Z.lor a c < 2 ^ n.
Proof.
  intros Hn Ha Hc. split; [apply Z.lor_nonneg; lia|].
  destruct (Z.eq_dec (Z.lor a c) 0) as [->|Hz]; [lia|].
  apply Z.log2_lt_pow2; [pose proof (proj2 (Z.lor_nonneg a c)); lia|].
  rewrite Z.log2_lor by lia.
  destruct (Z.eq_dec a 0) as [->|Ha0]; destruct (Z.eq_dec c 0) as [->|Hc0];
    try (by rewrite Z.lor_0_l in Hz); try (by rewrite Z.lor_0_r in Hz).
  - rewrite Z.max_r by (simpl; apply Z.log2_nonneg). apply Z.log2_lt_pow2; lia.
  - rewrite Z.max_l by (simpl; apply Z.log2_nonneg). apply Z.log2_lt_pow2; lia.
  - apply Z.max_lub_lt; apply Z.log2_lt_pow2; lia.
Qed.

Lemma round_shift_nonneg (m k : Z) : 0 <= m -> 0 <= round_shift m k.
Proof.
  intros Hm. unfold round_shift.
  assert (0 <= Z.shiftr m k) by (by apply Z.shiftr_nonneg).
  repeat case_match; lia.
Qed.

(** The bit pattern of the narrowed float is a 32-bit pattern. *)
Lemma double_to_float_range (d w : Z) :
  0 <= d < 2 ^ 64 -> double_to_float d = Some w -> 0 <= w < 2 ^ 32.
Proof.
  intros Hd. unfold double_to_float.
  assert (Hs : 0 <= Z.shiftr d 63 <= 1).
  { rewrite Z.shiftr_div_pow2 by lia. split; [apply Z.div_pos; lia|].
    assert (d / 2 ^ 63 < 2); [|lia]. apply Z.div_lt_upper_bound; lia. }
  rewrite Z.shiftl_mul_pow2 by lia.
  assert (Hm : 0 <= Z.land d (Z.ones 52) < 2 ^ 52).
  { rewrite Z.land_ones by lia. apply Z.mod_pos_bound. lia. }
  set (s := Z.shiftr d 63) in *. set (m := Z.land d (Z.ones 52)) in *.
  set (e := Z.land (Z.shiftr d 52) 2047).
  assert (He : 0 <= e).
  { apply Z.land_nonneg. right. lia. }
  destruct (e =? 2047).
  - destruct (m =? 0); intros [= <-]; [change (2 ^ 31) with 2147483648; change (2 ^ 32) with 4294967296; lia|].
    assert (0 <= Z.lor 2143289344 (Z.shiftr m 29) < 2 ^ 31); [|change (2 ^ 31) with 2147483648 in *; change (2 ^ 32) with 4294967296; lia].
    apply lor_bound; [lia|change (2 ^ 31) with 2147483648; lia|].
    rewrite Z.shiftr_div_pow2 by lia. split; [apply Z.div_pos; lia|].
    apply Z.div_lt_upper_bound; [lia|].
    change (2 ^ 29 * 2 ^ 31) with (2 ^ 60). change (2 ^ 52) with 4503599627370496 in Hm. change (2 ^ 60) with 1152921504606846976. lia.
  - set (M := if e =? 0 then m else 2 ^ 52 + m).
    set (E := if e =? 0 then -1074 else e - 1075).
    set (E' := Z.max (E + 29) (-149)).
    assert (0 <= M) by (unfold M; case_match; lia).
    pose proof (round_shift_nonneg M (E' - E) ltac:(done)).
    assert (0 <= Z.shiftl (E' + 149) 23) by (apply Z.shiftl_nonneg; lia).
    case_match eqn:Hw; [|done]. intros [= <-].
    apply Z.ltb_lt in Hw.
    change (2 ^ 31) with 2147483648. change (2 ^ 32) with 4294967296. lia.
Qed.

Section Values.

Variable le : bool.
Local Abbreviation o := (order_of le).

Lemma le_value_le_bytes_small (n : nat) (z : Z) :
  0 <= z < 256 ^ Z.of_nat n -> le_value (le_bytes n z) = z.
Proof.
  intros Hz. rewrite le_value_le_bytes by lia. apply Z.mod_small. done.
Qed.

(** A value that fits its field is packed, in the size of its code, and
    unpacked as it was. *)
Lemma pack_unpack_value (cls : ValueClass) (c : code) (value : pyval) :
  STRUCT_FMT cls = Some c -> value_ok cls value = true ->
  exists bs, pack_value o c value = Ok bs /\
             Z.of_nat (length bs) = code_size c /\
             unpack_value o c bs = value.
Proof.
  intros Hc Hv.
  destruct cls; try discriminate Hc; injection Hc as <-;
    destruct value as [z|d|s|l]; cbn [value_ok] in Hv; try discriminate Hv.
  1-4: apply andb_prop in Hv as [H1 H2]; apply Z.leb_le in H1, H2;
    unfold pack_value, unpack_value; cbn [code_size];
    match goal with |- context [pack_int o ?w ?z] =>
      assert (Hp : pack_int o w z =
                   Ok (ordered o (le_bytes (Z.to_nat w) (z mod 2 ^ (8 * w)))))
        by (apply pack_int_Ok; unfold int_min, int_max; simpl; lia);
      rewrite Hp; eexists; split; [done|]; split;
        [by rewrite ordered_length, le_bytes_length
        |f_equal; apply (unpack_pack_int o w z); [unfold is_width; lia|exact Hp]]
    end.
  - apply andb_prop in Hv as [Hv Hx]. apply andb_prop in Hv as [H1 H2].
    apply Z.leb_le in H1. apply Z.ltb_lt in H2.
    unfold float_exact in Hx.
    destruct (double_to_float d) as [w|] eqn:Hw; [|done].
    apply Z.eqb_eq in Hx.
    pose proof (double_to_float_range d w ltac:(lia) Hw) as Hr.
    unfold pack_value, unpack_value. rewrite Hw.
    eexists; split; [done|]; split;
      [by rewrite ordered_length, le_bytes_length|].
    rewrite ordered_involutive, le_value_le_bytes_small; [by rewrite Hx|].
    change (256 ^ Z.of_nat 4) with (2 ^ 32). lia.
  - apply andb_prop in Hv as [H1 H2].
    apply Z.leb_le in H1. apply Z.ltb_lt in H2.
    unfold pack_value, unpack_value.
    eexists; split; [done|]; split;
      [by rewrite ordered_length, le_bytes_length|].
    rewrite ordered_involutive, le_value_le_bytes_small; [done|].
    change (256 ^ Z.of_nat 8) with (2 ^ 64). lia.
Qed.

End Values.

(** ** Writing then reading *)

Section RoundTrip.

Variable le : bool.
Local Abbreviation o := (order_of le).
Local Abbreviation rd := (reader le).
Local Abbreviation wt := (writer le).

Lemma pack_byte (z : Z) :
  -128 <= z <= 127 -> pack_int o 1 z = Ok [chr z].
Proof.
  intros Hz. rewrite pack_int_Ok by (unfold int_min, int_max; simpl; lia).
  change (Z.to_nat 1) with 1%nat. change (2 ^ (8 * 1)) with 256.
  cbn [le_bytes]. rewrite Z.mod_mod by lia. by destruct le.
Qed.

Lemma unpack_byte (z : Z) : -128 <= z <= 127 -> unpack_int o 1 [chr z] = z.
Proof.
  intros Hz. apply (unpack_pack_int o 1 z); [unfold is_width; lia|].
  by apply pack_byte.
Qed.

Lemma write_byte (z : Z) :
  -128 <= z <= 127 -> wt [Item 1 c_b] [PInt z] = Ok [chr z].
Proof. intros Hz. rewrite pack_scalar by done. by apply pack_byte. Qed.

Lemma reads_byte (z : Z) :
  -128 <= z <= 127 -> reads (rd [Item 1 c_b]) [chr z] [PInt z].
Proof.
  intros Hz. pose proof (reads_scalar le c_b [chr z] ltac:(done) ltac:(done)) as H.
  unfold unpack_value in H. cbn [code_size] in H. by rewrite unpack_byte in H.
Qed.

(** The header of a named tag is its tag byte and its name; a tag without
    a name has no header. *)
Lemma write_header_Some (tag : Z) (n : pystr) :
  -128 <= tag <= 127 -> Z.of_nat (length n) <= 32767 ->
  exists x, write_header wt tag (Some n) = Ok (chr tag :: x) /\
            _write_utf8 wt n = Ok x /\
            reads (read_name rd true) x (Some n).
Proof.
  intros Htag Hn.
  destruct (write_read_utf8 le n Hn) as (x & _ & Hw & Hr).
  exists (x ++ n). split; [|split; [done|]].
  - unfold write_header. by rewrite write_byte, Hw.
  - unfold read_name. eapply reads_bind_last; [exact Hr|apply reads_ret].
Qed.

Lemma reads_read_name_None : reads (read_name rd false) [] None.
Proof. apply reads_ret. Qed.

Lemma pack_int32 (z : Z) :
  -2147483648 <= z <= 2147483647 ->
  exists x, pack_int o 4 z = Ok x /\ Z.of_nat (length x) = 4 /\
            unpack_int o 4 x = z.
Proof.
  intros Hz.
  assert (Hp : pack_int o 4 z =
               Ok (ordered o (le_bytes (Z.to_nat 4) (z mod 2 ^ (8 * 4)))))
    by (apply pack_int_Ok; unfold int_min, int_max; simpl; lia).
  eexists. split; [exact Hp|]. split.
  - by rewrite ordered_length, le_bytes_length.
  - apply (unpack_pack_int o 4 z); [unfold is_width; lia|exact Hp].
Qed.

(** The elements of a list, one after the other. *)
Lemma write_read_items (ri : M Tag) (value : list Tag) :
  (forall x, x ∈ value -> exists p, write wt x = Ok p /\ reads ri p x) ->
  exists ps, sequence (map (write wt) value) = Ok ps /\
             reads (list_items ri (length value)) ps value.
Proof.
  induction value as [|x value IH]; intros H.
  - exists []. split; [done|]. apply reads_ret.
  - destruct (H x) as (p & Hw & Hr); [left|].
    destruct IH as (ps & Hws & Hrs); [intros y Hy; apply H; by right|].
    exists (p ++ ps). split.
    + cbn [map sequence foldr]. fold (sequence (map (write wt) value)).
      by rewrite Hw, Hws.
    + cbn [length list_items].
      eapply reads_bind; [exact Hr|].
      eapply reads_bind_last; [exact Hrs|apply reads_ret].
Qed.

(** The entries of a compound, in the order they are written, then the
    end tag. *)
Lemma write_read_entries (rc : TagClass -> M Tag) (l : list (option pystr * Tag)) :
  (forall key x, (key, x) ∈ l ->
     exists p, write wt x = Ok (chr (discriminant (class_of x)) :: p) /\
               reads (rc (class_of x)) p x /\ tag_name x = key) ->
  exists ps,
    foldr (uncurry (fun (_ : option pystr) v acc =>
             let? x := write wt v in let? r := acc in Ok (x ++ r)))
          (Ok []) l = Ok ps /\
    forall k final, (length l < k)%nat ->
      reads (compound_loop rd rc k final) (ps ++ [chr 0])
            (foldl (fun m kx => <[kx.1 := kx.2]> m) final l).
Proof.
  induction l as [|[key x] l IH]; intros H.
  - exists []. split; [done|]. intros k final Hk.
    destruct k as [|k]; [simpl in Hk; lia|]. cbn [compound_loop app foldl].
    eapply reads_bind_last; [by apply reads_byte|].
    apply reads_bind_nil with (a := 0); [by apply reads_lift|].
    apply reads_ret.
  - destruct (H key x) as (p & Hw & Hr & Hkey); [left|].
    destruct IH as (ps & Hws & Hrs); [intros k' y Hy; apply H; by right|].
    exists ((chr (discriminant (class_of x)) :: p) ++ ps). split.
    + cbn [foldr uncurry]. by rewrite Hw, Hws.
    + intros k final Hk. destruct k as [|k]; [simpl in Hk; lia|].
      cbn [compound_loop foldl fst snd].
      assert (Hd : 1 <= discriminant (class_of x) <= 11)
        by (destruct x as [[]| |]; done).
      change ((chr (discriminant (class_of x)) :: p) ++ ps)
        with ([chr (discriminant (class_of x))] ++ (p ++ ps)).
      rewrite <- app_assoc.
      eapply reads_bind; [apply reads_byte; lia|].
      apply reads_bind_nil with (a := discriminant (class_of x));
        [by apply reads_lift|].
      destruct (Z.eqb_spec (discriminant (class_of x)) 0) as [?|_]; [lia|].
      apply reads_bind_nil with (a := Some (class_of x)).
      { apply reads_lift. destruct x as [[]| |]; done. }
      rewrite <- app_assoc.
      eapply reads_bind; [exact Hr|].
      rewrite Hkey. apply Hrs. simpl in Hk. lia.
Qed.

End RoundTrip.

(** ** Dictionaries *)

Lemma foldl_insert_union (l : list (option pystr * Tag)) (m : dict) :
  NoDup l.*1 ->
  foldl (fun m kx => <[kx.1 := kx.2]> m) m l = list_to_map l ∪ m.
Proof.
  revert m. induction l as [|[key x] l IH]; intros m Hl; cbn [foldl fst snd].
  - by rewrite list_to_map_nil, (left_id ∅ (∪)).
  - apply NoDup_cons in Hl as [Hkey Hl]. rewrite IH by done.
    rewrite list_to_map_cons, <- insert_union_l.
    rewrite insert_union_r; [done|]. by apply not_elem_of_list_to_map_1.
Qed.

Lemma foldl_insert_map_to_list (d : dict) :
  foldl (fun m kx => <[kx.1 := kx.2]> m) ∅ (map_to_list d) = d.
Proof.
  rewrite foldl_insert_union by apply NoDup_fst_map_to_list.
  by rewrite (right_id ∅ (∪)), list_to_map_to_list.
Qed.

(** [update] leaves a dictionary of named tags as it is. *)
Lemma TAG_Compound_update_named (d : dict) :
  (forall key x, d !! key = Some x -> is_Some (tag_name x)) ->
  TAG_Compound_update ∅ d = d.
Proof.
  intros H. unfold TAG_Compound_update. rewrite (right_id ∅ (∪)).
  apply map_eq. intros key. rewrite map_lookup_imap.
  destruct (d !! key) as [x|] eqn:E; [|done]. simpl.
  unfold name_from_key. by destruct (H key x E) as [n ->].
Qed.

(** ** The codec on well-formed trees *)

Lemma index_tags (cls : TagClass) : index _tags (Some cls) = Ok (discriminant cls).
Proof. by destruct cls as [[]| |]. Qed.

Lemma discriminant_range (cls : TagClass) : 1 <= discriminant cls <= 11.
Proof. by destruct cls as [[]| |]. Qed.

Lemma getitem_discriminant (cls : TagClass) :
  getitem _tags (discriminant cls) = Ok (Some cls).
Proof. by destruct cls as [[]| |]. Qed.

Lemma getitem_tags_range (i : Z) (entry : option TagClass) :
  getitem _tags i = Ok entry -> -12 <= i <= 11.
Proof.
  unfold getitem. change (Z.of_nat (length _tags)) with 12.
  destruct (i <? 0) eqn:Hi; [apply Z.ltb_lt in Hi|apply Z.ltb_ge in Hi];
    case_match eqn:Hr; try done; apply andb_prop in Hr as [H1 H2];
    apply Z.leb_le in H1; apply Z.ltb_lt in H2; lia.
Qed.

Lemma getitem_tags_Ok (i : Z) :
  -12 <= i <= 11 -> exists entry, getitem _tags i = Ok entry.
Proof.
  intros Hi. unfold getitem. change (Z.of_nat (length _tags)) with 12.
  set (j := if i <? 0 then i + 12 else i).
  assert (Hj : 0 <= j < 12) by (subst j; destruct (Z.ltb_spec i 0); lia).
  destruct (Z.leb_spec 0 j); [|lia]. destruct (Z.ltb_spec j 12); [|lia].
  cbn [andb]. destruct (_tags !! Z.to_nat j) as [e|] eqn:E; [by exists e|].
  apply lookup_ge_None in E. cbn [length _tags] in E. lia.
Qed.

Lemma getitem_tags_IndexError (tag : Z) :
  tag < -12 \/ 11 < tag -> getitem _tags tag = Raise IndexError.
Proof.
  intros Ht. unfold getitem. change (Z.of_nat (length _tags)) with 12.
  destruct (Z.ltb_spec tag 0).
  - destruct (Z.leb_spec 0 (tag + 12)); [lia|done].
  - destruct (Z.leb_spec 0 tag); [|lia].
    destruct (Z.ltb_spec tag 12); [lia|done].
Qed.

Section Codec.

Variable le : bool.
Local Abbreviation o := (order_of le).
Local Abbreviation rd := (reader le).
Local Abbreviation wt := (writer le).

Lemma write_header_Ok (tag : Z) (name : option pystr) :
  -128 <= tag <= 127 -> name_ok name = true ->
  exists h, write_header wt tag name = Ok h.
Proof.
  intros Htag Hn. destruct name as [n|]; [|by exists []].
  apply Z.leb_le in Hn.
  destruct (write_header_Some le tag n Htag Hn) as (x & Hx & _). eauto.
Qed.

(** A well-formed tag is written as its header followed by a payload from
    which [read] rebuilds the tag, once the name has been read. *)
Lemma write_read (fuel : nat) (t : Tag) :
  well_formed t = true -> (weight t < fuel)%nat ->
  exists h p,
    write_header wt (discriminant (class_of t)) (tag_name t) = Ok h /\
    write wt t = Ok (h ++ p) /\
    forall has_name nb,
      reads (read_name rd has_name) nb (tag_name t) ->
      reads (read rd fuel (class_of t) has_name) (nb ++ p) t.
Proof.
  revert t. induction fuel as [|fuel IH]; intros t Hwf Hfuel; [lia|].
  pose proof (well_formed_name t Hwf) as Hname.
  pose proof (discriminant_range (class_of t)) as Hd.
  destruct (write_header_Ok (discriminant (class_of t)) (tag_name t)
              ltac:(lia) Hname) as (h & Hh).
  exists h. destruct t as [cls value name| _type value name| value name];
    cbn [tag_name class_of] in *.
  - (* plain values *)
    cbn [well_formed tag_name] in Hwf. apply andb_prop in Hwf as [_ Hv].
    destruct (STRUCT_FMT cls) as [c|] eqn:Hc.
    + destruct (pack_unpack_value le cls c value Hc Hv) as (bs & Hp & Hlen & Hu).
      exists bs. split; [done|]. split.
      * assert (Hw : write wt (PlainTag cls value name) =
                     (let? tag := index _tags (Some (Plain cls)) in
                      let? h := write_header wt tag name in
                      let? x := wt [Item 1 c] [value] in Ok (h ++ x)))
          by (destruct cls; cbn [STRUCT_FMT] in Hc; try discriminate Hc; by injection Hc as <-).
        rewrite Hw, index_tags. cbn [rbind]. rewrite Hh. cbn [rbind].
        rewrite pack_scalar
          by (destruct cls; cbn [STRUCT_FMT] in Hc; try discriminate Hc; by injection Hc as <-).
        by rewrite Hp.
      * intros has_name nb Hnb. cbn [read].
        eapply reads_bind; [exact Hnb|].
        assert (Hr : reads (let* t := rd [Item 1 c] in
                            let* value := lift (getitem t 0) in
                            ret (PlainTag cls value name)) bs
                           (PlainTag cls value name)).
        { eapply reads_bind_last.
          - apply reads_scalar; [|done].
            destruct cls; cbn [STRUCT_FMT] in Hc; try discriminate Hc; by injection Hc as <-.
          - rewrite Hu. apply reads_bind_nil with (a := value);
              [by apply reads_lift|apply reads_ret]. }
        destruct cls; cbn [STRUCT_FMT] in Hc; try discriminate Hc; by injection Hc as <-.
    + destruct cls; try done; destruct value as [z|d|s|l]; try done;
        cbn [value_ok] in Hv; apply Z.leb_le in Hv.
      * (* TAG_Byte_Array *)
        destruct (pack_int32 le (Z.of_nat (length s)) ltac:(lia))
          as (x & Hx & Hlen & Hu).
        exists (x ++ s). split; [done|]. split.
        -- cbn [write]. change 7 with (discriminant TAG_Byte_Array).
           rewrite Hh. cbn [rbind len].
           rewrite pack_len_s by done. unfold pack_value. cbn [code_size].
           by rewrite Hx.
        -- intros has_name nb Hnb. cbn [read].
           eapply reads_bind; [exact Hnb|].
           eapply reads_bind; [by apply (reads_scalar le c_i)|].
           apply reads_bind_nil with (a := Z.of_nat (length s)).
           { apply reads_lift. unfold unpack_value. cbn [code_size unpack1_int].
             by rewrite Hu. }
           eapply reads_bind_last; [apply reads_s|].
           apply reads_bind_nil with (a := PStr s);
             [by apply reads_lift|apply reads_ret].
      * (* TAG_String *)
        destruct (write_read_utf8 le s Hv) as (x & Hx & Hw & Hr).
        exists (x ++ s). split; [done|]. split.
        -- cbn [write]. change 8 with (discriminant TAG_String).
           rewrite Hh. cbn [rbind len]. unfold _write_utf8 in Hw.
           cbv zeta in Hw. by rewrite Hw.
        -- intros has_name nb Hnb. cbn [read].
           eapply reads_bind; [exact Hnb|].
           eapply reads_bind_last; [exact Hr|apply reads_ret].
  - (* lists *)
    destruct (well_formed_list _ _ _ Hwf) as (Hlen & entry & Hentry & Hall).
    pose proof (getitem_tags_range _ _ Hentry) as Hty.
    destruct (pack_int32 le (Z.of_nat (length value)) ltac:(lia))
      as (x & Hx & Hxlen & Hxu).
    destruct (write_read_items le
                (read_entry entry (fun c => read rd fuel c false)) value)
      as (ps & Hws & Hrs).
    { intros y Hy. destruct (Hall y Hy) as (Hn & He & Hwfy).
      destruct (IH y Hwfy) as (hy & py & Hhy & Hwy & Hry).
      { apply (weight_element _type value name) in Hy. lia. }
      rewrite Hn in Hhy. injection Hhy as <-.
      exists py. split; [done|]. rewrite He. cbn [read_entry].
      apply (Hry false []). rewrite Hn. apply reads_read_name_None. }
    exists ([chr _type] ++ x ++ ps). split; [done|]. split.
    + cbn [write]. change 9 with (discriminant TAG_List).
      rewrite Hh. cbn [rbind].
      rewrite pack_bi, pack_byte by lia. cbn [rbind]. rewrite Hx. cbn [rbind].
      rewrite Hws. cbn [rbind]. by rewrite <- !app_assoc.
    + intros has_name nb Hnb. cbn [read].
      eapply reads_bind; [exact Hnb|].
      rewrite app_assoc. eapply reads_bind; [by apply reads_bi|].
      apply reads_bind_nil with (a := (_type, Z.of_nat (length value))).
      { apply reads_lift. rewrite unpack_byte by lia. by rewrite Hxu. }
      apply reads_bind_nil with (a := entry); [by apply reads_lift|].
      rewrite Nat2Z.id.
      eapply reads_bind_last; [exact Hrs|]. by apply reads_lift.
  - (* compounds *)
    pose proof (well_formed_compound _ _ Hwf) as Hall.
    destruct (write_read_entries le (fun c => read rd fuel c true)
                (map_to_list value)) as (ps & Hws & Hrs).
    { intros key x Hx. apply elem_of_map_to_list in Hx.
      destruct (Hall key x Hx) as ([n Hkey] & Hn & Hwfx).
      destruct (IH x Hwfx) as (hx & px & Hhx & Hwx & Hrx).
      { apply (weight_entry value name) in Hx. lia. }
      pose proof (well_formed_name x Hwfx) as Hnx.
      rewrite Hn, Hkey in Hhx, Hnx. apply Z.leb_le in Hnx.
      pose proof (discriminant_range (class_of x)).
      destruct (write_header_Some le (discriminant (class_of x)) n
                  ltac:(lia) Hnx) as (u & Hu & _ & Hur).
      rewrite Hu in Hhx. injection Hhx as <-.
      exists (u ++ px). split; [done|]. split; [|by rewrite Hn].
      apply Hrx. by rewrite Hn, Hkey. }
    exists (ps ++ [chr 0]). split; [done|]. split.
    + cbn [write]. change 10 with (discriminant TAG_Compound).
      rewrite Hh. cbn [rbind].
      rewrite map_fold_foldr, Hws. cbn [rbind]. by rewrite write_byte.
    + intros has_name nb Hnb. cbn [read].
      eapply reads_bind; [exact Hnb|].
      eapply reads_bind_last.
      { apply Hrs. pose proof (weight_size value name). lia. }
      rewrite foldl_insert_map_to_list.
      unfold TAG_Compound___init__. rewrite TAG_Compound_update_named.
      * apply reads_ret.
      * intros key x Hx. destruct (Hall key x Hx) as (Hk & -> & _). done.
Qed.

End Codec.

(** * The claims *)

(** ** Round trip *)

Section Documents.

Variable le : bool.
Local Abbreviation o := (order_of le).
Local Abbreviation rd := (reader le).
Local Abbreviation wt := (writer le).

Lemma reads_TAG_read (fuel : nat) (cls : TagClass) (has_name : bool)
    (bs : pystr) (t : Tag) :
  reads (read rd fuel cls has_name) bs t -> reads (TAG_read rd cls has_name) bs t.
Proof.
  intros H rest. rewrite (TAG_read_fuel le fuel); [apply H|]. by rewrite H.
Qed.

(** The first byte of a document, then the root compound. *)
Lemma reads_NBTFile_load (bs : pystr) (value : dict) (name : option pystr) :
  reads (TAG_read rd TAG_Compound true) bs (CompoundTag value name) ->
  (forall key x, value !! key = Some x -> is_Some (tag_name x)) ->
  reads (NBTFile_load le) (chr 10 :: bs) (CompoundTag value name).
Proof.
  intros H Hnamed. unfold NBTFile_load.
  change (chr 10 :: bs) with ([chr 10] ++ bs).
  eapply reads_bind; [by apply reads_byte|].
  apply reads_bind_nil with (a := PInt 10); [by apply reads_lift|].
  cbn [pyval_eqb negb]. change (10 =? 10) with true. cbn [negb].
  eapply reads_bind_last; [exact H|].
  unfold TAG_Compound___init__. rewrite TAG_Compound_update_named by done.
  apply reads_ret.
Qed.

End Documents.


(** ** Headers *)

Ltac compute_discriminant :=
  repeat match goal with
         | |- context [discriminant ?c] =>
             let k := eval vm_compute in (discriminant c) in
             change (discriminant c) with k
         end.

Ltac case_rbind :=
  repeat first
    [ done
    | progress cbn [rbind]
    | match goal with
      | |- context [rbind ?r _] =>
          lazymatch r with
          | Ok _ => fail
          | Raise _ => fail
          | OutOfFuel => fail
          | _ => destruct r
          end
      end ].

Section Headers.

Variable le : bool.
Local Abbreviation o := (order_of le).
Local Abbreviation rd := (reader le).
Local Abbreviation wt := (writer le).

(** Every [write] is the header, then the output of the same tag without
    its name. *)
Lemma write_split (t : Tag) :
  write wt t =
    (let? h := write_header wt (discriminant (class_of t)) (tag_name t) in
     let? p := write wt (set_name None t) in
     Ok (h ++ p)).
Proof.
  destruct t as [cls value name| _type value name| value name];
    cbn [tag_name class_of set_name].
  - destruct cls; cbn [write STRUCT_FMT]; rewrite ?index_tags;
      compute_discriminant; cbn [write_header]; case_rbind.
  - cbn [write]. compute_discriminant. cbn [write_header]. case_rbind.
  - cbn [write]. compute_discriminant. cbn [write_header]. case_rbind.
Qed.

End Headers.

Section Claims.

Variable little_endian : bool.
Local Abbreviation o := (order_of little_endian).
Local Abbreviation rd := (reader little_endian).
Local Abbreviation wt := (writer little_endian).

Lemma set_name_None (t : Tag) : tag_name t = None -> set_name None t = t.
Proof. destruct t; cbn; by intros ->. Qed.

Lemma class_of_set_name (name : option pystr) (t : Tag) :
  class_of (set_name name t) = class_of t.
Proof. by destruct t. Qed.

Lemma tag_name_set_name (name : option pystr) (t : Tag) :
  tag_name (set_name name t) = name.
Proof. by destruct t. Qed.

Lemma set_name_set_name (n1 n2 : option pystr) (t : Tag) :
  set_name n1 (set_name n2 t) = set_name n1 t.
Proof. by destruct t. Qed.

(** C8.  A tag whose name is [None] is written without tag byte and
    without name: its output is what follows the tag byte and the name in
    the output of the same tag under any name [n].  The output then does
    not tell the class: an unnamed [TAG_Byte] 0 and an unnamed empty
    compound are both written as one zero byte, and a document saved from
    an unnamed compound is refused by [NBTFile]. *)
Theorem write_without_name (t : Tag) :
  tag_name t = None ->
  write_header wt (discriminant (class_of t)) (tag_name t) = Ok [] /\
  (forall n,
     write wt (set_name (Some n) t) =
       (let? x := wt [Item 1 c_b] [PInt (discriminant (class_of t))] in
        let? y := _write_utf8 wt n in
        let? p := write wt t in
        Ok (x ++ y ++ p))) /\
  write wt (PlainTag TAG_Byte (PInt 0) None) = Ok [chr 0] /\
  write wt (CompoundTag ∅ None) = Ok [chr 0] /\
  NBTFile_load little_endian [chr 0] = Raise IOError.
Proof.
  intros Hn. split; [by rewrite Hn|]. split; [|by destruct little_endian].
  intros n. rewrite write_split.
  rewrite class_of_set_name, tag_name_set_name, set_name_set_name.
  rewrite (set_name_None t Hn). cbn [write_header].
  destruct (wt [Item 1 c_b] _) as [x| |]; cbn [rbind]; [|done..].
  destruct (_write_utf8 wt n) as [y| |]; cbn [rbind]; [|done..].
  destruct (write wt t) as [p| |]; cbn [rbind]; [|done..].
  by rewrite app_assoc.
Qed.

(** C7.  A list of declared type 0 without elements is written as its
    header followed by five zero bytes, the element type and the 4-byte
    count, and [read] rebuilds it from them once the name, if any, has been
    read. *)
Theorem empty_list_round_trip (name : option pystr) :
  name_ok name = true ->
  exists h,
    write_header wt 9 name = Ok h /\
    write wt (ListTag 0 [] name) = Ok (h ++ [chr 0; chr 0; chr 0; chr 0; chr 0]) /\
    forall has_name nb rest,
      reads (read_name rd has_name) nb name ->
      TAG_read rd TAG_List has_name
        (nb ++ [chr 0; chr 0; chr 0; chr 0; chr 0] ++ rest)
      = Ok (ListTag 0 [] name, rest).
Proof.
  intros Hname.
  destruct (write_header_Ok little_endian 9 name ltac:(lia) Hname) as (h & Hh).
  exists h. split; [done|]. split.
  - cbn [write]. rewrite Hh. cbn [rbind]. rewrite pack_bi.
    by destruct little_endian.
  - intros has_name nb rest Hnb. rewrite app_assoc.
    apply (reads_TAG_read little_endian 1). cbn [read].
    eapply reads_bind; [exact Hnb|].
    eapply reads_bind_last; [apply (reads_bi little_endian [chr 0] [chr 0; chr 0; chr 0; chr 0]); done|].
    apply reads_bind_nil with (a := (0, 0));
      [apply reads_lift; by destruct little_endian|].
    apply reads_bind_nil with (a := None); [by apply reads_lift|].
    apply reads_bind_nil with (a := []); [apply reads_ret|].
    by apply reads_lift.
Qed.

Lemma chr_Z_of_ascii (a : ascii) : chr (Z_of_ascii a) = a.
Proof.
  unfold chr. pose proof (Z_of_ascii_range a).
  rewrite Z.mod_small by done. unfold ascii_of_Z, Z_of_ascii.
  rewrite N2Z.id. apply ascii_N_embedding.
Qed.

Lemma unpack_int_byte (a : ascii) :
  unpack_int o 1 [a] = to_signed 1 (Z_of_ascii a).
Proof. unfold unpack_int. destruct little_endian; cbn; f_equal; lia. Qed.

Lemma unpack_int_byte_10 (a : ascii) : unpack_int o 1 [a] = 10 <-> a = chr 10.
Proof.
  rewrite unpack_int_byte. pose proof (Z_of_ascii_range a) as Ha.
  unfold to_signed, int_max. change (2 ^ (8 * 1 - 1) - 1) with 127.
  change (2 ^ (8 * 1)) with 256. split.
  - intros H. rewrite <- (chr_Z_of_ascii a). f_equal.
    destruct (Z.leb_spec (Z_of_ascii a) 127); lia.
  - by intros ->.
Qed.

Lemma reader_byte (a : ascii) (rest : pystr) :
  rd [Item 1 c_b] (a :: rest) = Ok ([PInt (unpack_int o 1 [a])], rest).
Proof.
  apply (reads_scalar little_endian c_b [a] ltac:(done) ltac:(done) rest).
Qed.

(** C3.  [NBTFile] reads one byte; unless it is 0x0A the call raises
    [IOError], and when it is, the rest of the stream goes to
    [TAG_Compound.read].  A stream that starts with 0x09 is refused. *)
Theorem NBTFile_load_first_byte (first : ascii) (rest : pystr) :
  NBTFile_load little_endian (first :: rest) =
    (if bool_decide (first = chr 10) then
       (let* tmp := TAG_read rd TAG_Compound true in
        match tmp with
        | CompoundTag value name => ret (TAG_Compound___init__ value name)
        | _ => throw TypeError
        end) rest
     else Raise IOError) /\
  NBTFile_load little_endian (chr 9 :: rest) = Raise IOError.
Proof.
  assert (H : forall a,
    NBTFile_load little_endian (a :: rest) =
      (if bool_decide (a = chr 10) then
         (let* tmp := TAG_read rd TAG_Compound true in
          match tmp with
          | CompoundTag value name => ret (TAG_Compound___init__ value name)
          | _ => throw TypeError
          end) rest
       else Raise IOError)).
  { intros a. unfold NBTFile_load.
    rewrite (bind_Ok _ _ _ _ _ (reader_byte a rest)).
    rewrite (bind_Ok _ _ _ (PInt (unpack_int o 1 [a])) rest) by done.
    cbn [pyval_eqb].
    destruct (Z.eqb_spec (unpack_int o 1 [a]) 10) as [E|E];
      rewrite unpack_int_byte_10 in E.
    - by rewrite bool_decide_eq_true_2.
    - by rewrite bool_decide_eq_false_2. }
  split; [apply H|]. by rewrite H.
Qed.

(** C4, as the code has it.  The length prefix of a name or string is a
    signed 16-bit integer.  A string of at most 32767 characters is written
    as the two bytes of its length followed by its characters, and is read
    back from them; a longer string is refused by the writer, and a prefix
    that reads as a negative number is refused by the reader. *)
Theorem utf8_signed_length (value : pystr) :
  (Z.of_nat (length value) <= 32767 ->
   exists x,
     pack_int o 2 (Z.of_nat (length value)) = Ok x /\
     length x = 2%nat /\
     _write_utf8 wt value = Ok (x ++ value) /\
     forall rest, _read_utf8 rd (x ++ value ++ rest) = Ok (value, rest)) /\
  (32767 < Z.of_nat (length value) ->
   _write_utf8 wt value = Raise struct_error) /\
  (forall x rest,
     length x = 2%nat -> unpack_int o 2 x < 0 ->
     _read_utf8 rd (x ++ rest) = Raise struct_error).
Proof.
  split; [|split].
  - intros Hlen. destruct (write_read_utf8 little_endian value Hlen)
      as (x & Hx & Hw & Hr).
    exists x. split; [done|]. split.
    { apply pack_int_length in Hx; lia. }
    split; [done|]. intros rest. rewrite app_assoc. apply Hr.
  - intros Hlen. unfold _write_utf8. cbv zeta.
    rewrite pack_len_s by done. unfold pack_value. cbn [code_size].
    rewrite pack_int_Raise; [done|]. right. unfold int_max. simpl. lia.
  - intros x rest Hx Hneg. unfold _read_utf8.
    assert (H1 : rd [Item 1 c_h] (x ++ rest)
                 = Ok ([PInt (unpack_int o 2 x)], rest)).
    { apply (reads_scalar little_endian c_h x); [done|]. simpl. lia. }
    rewrite (bind_Ok _ _ _ _ _ H1).
    rewrite (bind_Ok _ _ _ (unpack_int o 2 x) rest) by done.
    apply bind_Raise. rewrite reader_spec. unfold calcsize. cbn [forallb item_ok].
    destruct (Z.leb_spec 0 (unpack_int o 2 x)); [lia|done].
Qed.

(** C5, as the code has it.  [TAG_List.__init__] never looks at the tags
    it is given.  Whether it succeeds is settled by the declared type
    alone: an [int] is stored as it is; for a class of the table, or
    [None], the index in [_tags] is stored; a [long] is not an [int] in
    Python 2, is looked up in [_tags] like every object of another kind,
    and raises [ValueError].  When the call succeeds the list holds exactly
    the tags given, of whatever classes and names, and [ValueError] is the
    only exception. *)
Theorem TAG_List_init_unchecked :
  (forall tag_type,
     (exists i, forall value name,
        TAG_List___init__ tag_type value name = Ok (ListTag i value name)) \/
     (forall value name,
        TAG_List___init__ tag_type value name = Raise ValueError)) /\
  (forall i value name,
     TAG_List___init__ (by_int i) value name = Ok (ListTag i value name)) /\
  (forall cls value name,
     TAG_List___init__ (by_class cls) value name
     = Ok (ListTag (discriminant cls) value name) /\
     1 <= discriminant cls <= 11 /\
     getitem _tags (discriminant cls) = Ok (Some cls)) /\
  (forall value name,
     TAG_List___init__ by_None value name = Ok (ListTag 0 value name)) /\
  (forall i value name,
     TAG_List___init__ (by_long i) value name = Raise ValueError) /\
  (forall value name,
     TAG_List___init__ by_other value name = Raise ValueError).
Proof.
  assert (Hcls : forall cls value name,
    TAG_List___init__ (by_class cls) value name
    = Ok (ListTag (discriminant cls) value name)).
  { intros cls value name. unfold TAG_List___init__, _tags_index.
    cbn [as_entry]. by rewrite index_tags. }
  split; [|split; [done|split; [|done]]].
  - intros [i|i|cls| |].
    + left. by exists i.
    + by right.
    + left. exists (discriminant cls). apply Hcls.
    + left. by exists 0.
    + by right.
  - intros cls value name. split; [apply Hcls|].
    split; [apply discriminant_range|apply getitem_discriminant].
Qed.

(** C6.  After [self[key] = value] the dictionary holds under [key] the tag
    as the call leaves it; a tag that had no name is now named [key], and a
    tag that had a name is unchanged, whatever the key. *)
Theorem setitem_name (self : dict) (key : option pystr) (value : Tag) :
  (TAG_Compound___setitem__ self key value).1 !! key
  = Some (TAG_Compound___setitem__ self key value).2 /\
  (tag_name value = None ->
   (TAG_Compound___setitem__ self key value).2 = set_name key value /\
   tag_name (TAG_Compound___setitem__ self key value).2 = key) /\
  (forall n, tag_name value = Some n ->
   (TAG_Compound___setitem__ self key value).2 = value).
Proof.
  unfold TAG_Compound___setitem__, name_from_key. cbn [fst snd].
  split; [apply lookup_insert_eq|]. split.
  - intros ->. by rewrite tag_name_set_name.
  - intros n Hn. by rewrite Hn.
Qed.

(** C10, as the code has it.  [_tags[tag_type]] is evaluated before the
    count is used.  A list whose 4-byte count is negative is read as a
    list without elements, nothing after the count being consumed, when
    its type byte is an index of [_tags], from -12 to 11; with any other
    type byte the read raises [IndexError]. *)
Theorem read_list_negative_count (has_name : bool) (nb : pystr)
    (name : option pystr) (x y rest : pystr) :
  reads (read_name rd has_name) nb name ->
  length x = 1%nat -> length y = 4%nat ->
  unpack_int o 4 y < 0 ->
  (-12 <= unpack_int o 1 x <= 11 ->
   TAG_read rd TAG_List has_name (nb ++ x ++ y ++ rest)
   = Ok (ListTag (unpack_int o 1 x) [] name, rest)) /\
  (unpack_int o 1 x < -12 \/ 11 < unpack_int o 1 x ->
   TAG_read rd TAG_List has_name (nb ++ x ++ y ++ rest) = Raise IndexError).
Proof.
  intros Hnb Hx Hy Hneg.
  assert (Hread :
    read rd 1 TAG_List has_name (nb ++ x ++ y ++ rest) =
    (let* real_type := lift (getitem _tags (unpack_int o 1 x)) in
     let* value :=
       list_items (read_entry real_type (fun c => read rd 0 c false))
                  (Z.to_nat (unpack_int o 4 y)) in
     lift (TAG_List___init__ (by_int (unpack_int o 1 x)) value name)) rest).
  { cbn [read]. rewrite (bind_Ok _ _ _ _ _ (Hnb _)).
    rewrite (app_assoc x y rest).
    rewrite (bind_Ok _ _ _ _ _
               (reads_bi little_endian x y ltac:(lia) ltac:(lia) rest)).
    by rewrite (bind_Ok _ _ _ (unpack_int o 1 x, unpack_int o 4 y) rest). }
  split.
  - intros Hty. destruct (getitem_tags_Ok _ Hty) as [entry Hentry].
    rewrite (TAG_read_fuel little_endian 1); rewrite Hread, Hentry;
      replace (Z.to_nat (unpack_int o 4 y)) with O by lia; done.
  - intros Hty. rewrite (TAG_read_fuel little_endian 1); rewrite Hread;
      by rewrite getitem_tags_IndexError.
Qed.

End Claims.

(** ** Streams that are long enough *)

Lemma stable_ret {A} (a : A) : stable (ret a).
Proof. by intros s ext. Qed.

Lemma stable_throw {A} (e : exn) : stable (throw (A:=A) e).
Proof. intros s ext. by right. Qed.

Lemma stable_lift {A} (r : result A) : stable (lift r).
Proof. intros s ext. destruct r; simpl; auto. Qed.

Lemma stable_OutOfFuel {A} : stable (fun _ : pystr => OutOfFuel (A:=A * pystr)).
Proof. by intros s ext. Qed.

Lemma stable_bind {A B} (m : M A) (k : A -> M B) :
  stable m -> (forall a, stable (k a)) -> stable (bind m k).
Proof.
  intros Hm Hk s ext. specialize (Hm s ext). unfold bind.
  destruct (m s) as [[a s1]|e|]; [|destruct Hm as [-> | ->]; auto|done].
  rewrite Hm. apply Hk.
Qed.

Lemma stable_ite {A} (c : bool) (m1 m2 : M A) :
  stable m1 -> stable m2 -> stable (if c then m1 else m2).
Proof. by destruct c. Qed.

Lemma stable_reader (le : bool) (f : fmt) : stable (reader le f).
Proof.
  intros s ext. rewrite !reader_spec.
  destruct (calcsize f) as [n|e|] eqn:Hn; [| |done].
  2:{ left. unfold calcsize in Hn.
      destruct (forallb item_ok f); [done|]. by injection Hn as <-. }
  pose proof (calcsize_nonneg _ _ Hn).
  destruct (Z.ltb_spec (Z.of_nat (length s)) n); [by left|].
  rewrite length_app.
  destruct (Z.ltb_spec (Z.of_nat (length s + length ext)) n); [lia|].
  rewrite take_app_le, drop_app_le by lia. done.
Qed.

Section Stable.

Variable rd : fmt -> M (list pyval).
Hypothesis rd_stable : forall f, stable (rd f).

Lemma stable_read_utf8 : stable (_read_utf8 rd).
Proof.
  unfold _read_utf8.
  apply stable_bind; [apply rd_stable|]. intros t.
  apply stable_bind; [apply stable_lift|]. intros length.
  apply stable_bind; [apply rd_stable|]. intros t'. apply stable_lift.
Qed.

Lemma stable_read_name (has_name : bool) : stable (read_name rd has_name).
Proof.
  destruct has_name; [|apply stable_ret].
  apply stable_bind; [apply stable_read_utf8|intros; apply stable_ret].
Qed.

Lemma stable_read_entry (entry : option TagClass) (rc : TagClass -> M Tag) :
  (forall c, stable (rc c)) -> stable (read_entry entry rc).
Proof. intros H. destruct entry; simpl; [apply H|apply stable_throw]. Qed.

Lemma stable_compound_loop (rc : TagClass -> M Tag) (k : nat) (final : dict) :
  (forall c, stable (rc c)) -> stable (compound_loop rd rc k final).
Proof.
  intros Hrc. revert final. induction k as [|k IH]; intros final; simpl.
  - apply stable_OutOfFuel.
  - apply stable_bind; [apply rd_stable|]. intros t.
    apply stable_bind; [apply stable_lift|]. intros tag.
    apply stable_ite; [apply stable_ret|].
    apply stable_bind; [apply stable_lift|]. intros entry.
    apply stable_bind; [by apply stable_read_entry|]. intros tmp.
    apply IH.
Qed.

Lemma stable_list_items (ri : M Tag) (n : nat) :
  stable ri -> stable (list_items ri n).
Proof.
  intros Hri. induction n as [|n IH]; simpl; [apply stable_ret|].
  apply stable_bind; [done|]. intros x.
  apply stable_bind; [done|]. intros xs. apply stable_ret.
Qed.

Lemma stable_read (fuel : nat) (cls : TagClass) (has_name : bool) :
  stable (read rd fuel cls has_name).
Proof.
  revert cls has_name.
  induction fuel as [|fuel IH]; intros cls has_name; cbn [read].
  - apply stable_OutOfFuel.
  - apply stable_bind; [apply stable_read_name|].
    intros name. destruct cls as [c| |].
    + destruct c; simpl;
        repeat first
          [ apply stable_ret | apply stable_throw | apply stable_lift
          | apply rd_stable | apply stable_read_utf8
          | apply stable_bind; [|intros ?] ].
    + apply stable_bind; [apply rd_stable|]. intros t.
      apply stable_bind; [apply stable_lift|]. intros [tag_type length].
      apply stable_bind; [apply stable_lift|]. intros real_type.
      apply stable_bind; [|intros; apply stable_lift].
      apply stable_list_items, stable_read_entry. intros c. apply IH.
    + apply stable_bind; [|intros; apply stable_ret].
      apply stable_compound_loop. intros c. apply IH.
Qed.

End Stable.

Lemma stable_TAG_read (le : bool) (cls : TagClass) (has_name : bool) :
  stable (TAG_read (reader le) cls has_name).
Proof.
  intros s ext.
  pose proof (stable_read (reader le) (stable_reader le) (S (length s))
                cls has_name s ext) as H.
  pose proof (TAG_read_not_OutOfFuel le cls has_name s) as Hs.
  unfold TAG_read in Hs |- * at 1.
  destruct (read (reader le) (S (length s)) cls has_name s)
    as [[t s']|e|] eqn:E; [| |done].
  - rewrite (TAG_read_fuel le (S (length s))); by rewrite H.
  - destruct H as [-> | H]; [by left|right].
    rewrite (TAG_read_fuel le (S (length s))); by rewrite H.
Qed.

Lemma stable_NBTFile_load (le : bool) : stable (NBTFile_load le).
Proof.
  unfold NBTFile_load.
  apply stable_bind; [apply stable_reader|]. intros t.
  apply stable_bind; [apply stable_lift|]. intros first.
  apply stable_ite; [apply stable_throw|].
  apply stable_bind; [apply stable_TAG_read|]. intros tmp.
  destruct tmp; first [apply stable_ret|apply stable_throw].
Qed.

(** ** Truncated streams *)

Section Truncation.

Variable little_endian : bool.
Local Abbreviation o := (order_of little_endian).
Local Abbreviation rd := (reader little_endian).

Lemma unpack_int_byte_eq (a : ascii) (z : Z) :
  -128 <= z <= 127 -> unpack_int o 1 [a] = z <-> a = chr z.
Proof.
  intros Hz. split; [|intros ->; by apply unpack_byte].
  rewrite unpack_int_byte. pose proof (Z_of_ascii_range a) as Ha.
  unfold to_signed, int_max. change (2 ^ (8 * 1 - 1) - 1) with 127.
  change (2 ^ (8 * 1)) with 256.
  intros H. rewrite <- (chr_Z_of_ascii a). unfold chr. f_equal.
  destruct (Z.leb_spec (Z_of_ascii a) 127).
  - by subst z.
  - subst z. rewrite <- (Z.mod_add (Z_of_ascii a - 256) 1 256) by done.
    f_equal. lia.
Qed.

Lemma local_TAG_read (cls : TagClass) (has_name : bool) :
  local (TAG_read rd cls has_name).
Proof.
  intros s t rest H. unfold TAG_read in H.
  destruct (local_read rd (local_reader little_endian) _ _ _ _ _ _ H)
    as (c & -> & Hr & Ht).
  exists c. split; [done|]. split.
  - by eapply reads_TAG_read.
  - intros p Hp. rewrite (TAG_read_fuel little_endian (S (length (c ++ rest))));
      rewrite (Ht p Hp); done.
Qed.

Lemma local_NBTFile_load : local (NBTFile_load little_endian).
Proof.
  unfold NBTFile_load.
  apply local_bind; [apply local_reader|]. intros t.
  apply local_bind; [apply local_lift|]. intros first.
  apply local_ite; [apply local_throw|].
  apply local_bind; [apply local_TAG_read|]. intros tmp.
  destruct tmp; first [apply local_ret|apply local_throw].
Qed.

(** The loop returns right after a zero tag byte. *)
Lemma compound_loop_end (rc : TagClass -> M Tag) (k : nat) (final d : dict)
    (s rest : pystr) :
  (forall c, local (rc c)) ->
  compound_loop rd rc k final s = Ok (d, rest) ->
  exists c, s = c ++ chr 0 :: rest.
Proof.
  intros Hrc. revert final s.
  induction k as [|k IH]; intros final s H; [done|]. cbn [compound_loop] in H.
  apply bind_Ok_inv in H as (t & s1 & H1 & H).
  destruct s as [|a s].
  { by rewrite reader_spec in H1. }
  rewrite reader_byte in H1. injection H1 as <- <-.
  apply bind_Ok_inv in H as (tag & s1 & H1 & H).
  apply lift_Ok_inv in H1 as [[= <-] ->].
  destruct (Z.eqb_spec (unpack_int o 1 [a]) 0) as [E|E].
  - injection H as <- <-. apply unpack_int_byte_eq in E; [|lia].
    subst a. by exists [].
  - apply bind_Ok_inv in H as (entry & s1 & H1 & H).
    apply lift_Ok_inv in H1 as [_ ->].
    apply bind_Ok_inv in H as (tmp & s2 & H2 & H).
    destruct (local_read_entry entry rc Hrc _ _ _ H2) as (c2 & -> & _).
    destruct (IH _ _ H) as (c3 & ->).
    exists (a :: c2 ++ c3). rewrite <- app_comm_cons. by rewrite <- app_assoc.
Qed.

End Truncation.

(** C2.  The loop of the [TAG_Compound] branch reads one tag byte at a
    time: on a zero byte it returns what it has collected, on any other
    byte it reads a child and goes on.  When a read succeeds, the bytes it
    consumed end, for a compound, with the zero byte; and on every stream
    that stops short of those bytes, however many are missing, the read
    raises [struct.error], the error of the reader on a stream that is
    exhausted.  The same holds for a whole document.  Conversely, a read
    whose outcome is not [struct.error] did not lack input: with more
    bytes after the stream the outcome is the same. *)
Theorem compound_read_truncated (little_endian : bool) :
  (forall rc k final rest,
     compound_loop (reader little_endian) rc (S k) final (chr 0 :: rest)
     = Ok (final, rest)) /\
  (forall rc k final first rest,
     first <> chr 0 ->
     compound_loop (reader little_endian) rc (S k) final (first :: rest) =
       (let* entry :=
          lift (getitem _tags (unpack_int (order_of little_endian) 1 [first])) in
        let* tmp := read_entry entry rc in
        compound_loop (reader little_endian) rc k (<[tag_name tmp := tmp]> final))
       rest) /\
  (forall cls has_name s t rest,
     TAG_read (reader little_endian) cls has_name s = Ok (t, rest) ->
     exists c,
       s = c ++ rest /\
       (cls = TAG_Compound -> exists c', c = c' ++ [chr 0]) /\
       forall p, truncation p c ->
         TAG_read (reader little_endian) cls has_name p = Raise struct_error) /\
  (forall s t rest,
     NBTFile_load little_endian s = Ok (t, rest) ->
     exists c,
       s = c ++ rest /\
       forall p, truncation p c ->
         NBTFile_load little_endian p = Raise struct_error) /\
  (forall cls has_name s more,
     TAG_read (reader little_endian) cls has_name s <> Raise struct_error ->
     TAG_read (reader little_endian) cls has_name (s ++ more) =
       match TAG_read (reader little_endian) cls has_name s with
       | Ok (t, rest) => Ok (t, rest ++ more)
       | outcome => outcome
       end).
Proof.
  split; [|split; [|split; [|split]]].
  - intros rc k final rest. cbn [compound_loop].
    rewrite (bind_Ok _ _ _ _ _ (reader_byte little_endian (chr 0) rest)).
    rewrite (bind_Ok _ _ _ (unpack_int (order_of little_endian) 1 [chr 0]) rest)
      by done.
    by rewrite unpack_byte.
  - intros rc k final first rest Hfirst. cbn [compound_loop].
    rewrite (bind_Ok _ _ _ _ _ (reader_byte little_endian first rest)).
    rewrite (bind_Ok _ _ _ (unpack_int (order_of little_endian) 1 [first]) rest)
      by done.
    destruct (Z.eqb_spec (unpack_int (order_of little_endian) 1 [first]) 0)
      as [E|E]; [|done].
    apply unpack_int_byte_eq in E; [done|lia].
  - intros cls has_name s t rest H.
    destruct (local_TAG_read little_endian cls has_name _ _ _ H)
      as (c & -> & _ & Ht).
    exists c. split; [done|]. split; [|done].
    intros ->. unfold TAG_read in H. cbn [read] in H.
    apply bind_Ok_inv in H as (name & s1 & H1 & H).
    destruct (local_read_name _ (local_reader little_endian) _ _ _ _ H1)
      as (c1 & Hs & _).
    apply bind_Ok_inv in H as (final & s2 & H2 & H).
    injection H as _ ->.
    apply compound_loop_end in H2 as (c2 & ->).
    2:{ intros cls. apply local_read, local_reader. }
    exists (c1 ++ c2). apply (app_inv_tail rest).
    rewrite Hs, <- !app_assoc. done.
  - intros s t rest H.
    destruct (local_NBTFile_load little_endian _ _ _ H) as (c & -> & _ & Ht).
    by exists c.
  - intros cls has_name s more H.
    pose proof (stable_TAG_read little_endian cls has_name s more) as Hs.
    pose proof (TAG_read_not_OutOfFuel little_endian cls has_name s) as Hf.
    destruct (TAG_read (reader little_endian) cls has_name s)
      as [[t rest]|e|]; [done| |done].
    destruct Hs as [-> | Hs]; done.
Qed.
(** ** Children of the same name *)

Lemma lookup_foldl_store (xs : list Tag) (final : dict) (key : option pystr) :
  foldl store final xs !! key =
    match last (filter (fun x => tag_name x = key) xs) with
    | Some x => Some x
    | None => final !! key
    end.
Proof.
  revert final. induction xs as [|x xs IH]; intros final; [done|].
  cbn [foldl]. rewrite IH. unfold store.
  destruct (decide (tag_name x = key)) as [E|E].
  - rewrite filter_cons_True by done. rewrite last_cons.
    destruct (last _); [done|]. rewrite E. apply lookup_insert_eq.
  - rewrite filter_cons_False by done.
    destruct (last _); [done|]. by apply lookup_insert_ne.
Qed.

(** [update] leaves a dictionary whose tags are named by their key as it
    is. *)
Lemma TAG_Compound_update_keys (d : dict) :
  (forall key x, d !! key = Some x -> tag_name x = key) ->
  TAG_Compound_update ∅ d = d.
Proof.
  intros H. unfold TAG_Compound_update. rewrite (right_id ∅ (∪)).
  apply map_eq. intros key. rewrite map_lookup_imap.
  destruct (d !! key) as [x|] eqn:E; [|done]. simpl.
  unfold name_from_key. specialize (H key x E).
  destruct (tag_name x) eqn:En; [done|]. subst key. f_equal.
  by apply set_name_None.
Qed.

Lemma foldl_store_keys (xs : list Tag) (key : option pystr) (x : Tag) :
  foldl store ∅ xs !! key = Some x -> tag_name x = key.
Proof.
  rewrite lookup_foldl_store.
  destruct (last _) as [y|] eqn:E; [|done]. intros [= <-].
  apply last_Some_elem_of in E. by apply list_elem_of_filter in E as [E _].
Qed.

Section Children.

Variable little_endian : bool.
Local Abbreviation o := (order_of little_endian).
Local Abbreviation rd := (reader little_endian).

Lemma compound_loop_children (fuel k : nat) (final d : dict) (s rest : pystr) :
  compound_loop rd (fun c => read rd fuel c true) k final s = Ok (d, rest) ->
  exists xs, children rd (fun c => TAG_read rd c true) s xs rest /\
             d = foldl store final xs.
Proof.
  revert final s. induction k as [|k IH]; intros final s H; [done|].
  cbn [compound_loop] in H.
  apply bind_Ok_inv in H as (t & s1 & H1 & H).
  destruct s as [|a s].
  { by rewrite reader_spec in H1. }
  pose proof H1 as Hrd.
  rewrite reader_byte in H1. injection H1 as <- <-.
  apply bind_Ok_inv in H as (tag & s1 & H1 & H).
  apply lift_Ok_inv in H1 as [[= <-] ->].
  destruct (Z.eqb_spec (unpack_int o 1 [a]) 0) as [E|E].
  - injection H as <- <-. exists []. split; [|done].
    apply children_end. by rewrite Hrd, E.
  - apply bind_Ok_inv in H as (entry & s1 & H1 & H).
    apply lift_Ok_inv in H1 as [Hentry ->].
    apply bind_Ok_inv in H as (tmp & s2 & H2 & H).
    destruct (IH _ _ H) as (xs & Hxs & ->).
    exists (tmp :: xs). split; [|done].
    eapply children_next; [exact Hrd|exact E|exact Hentry| |exact Hxs].
    destruct entry as [c|]; [|done]. cbn [read_entry] in *.
    rewrite (TAG_read_fuel little_endian fuel); [done|]. by rewrite H2.
Qed.

End Children.

(** C9.  When a compound is read, the children found in the stream are
    stored one after the other under their names: the compound holds,
    under each key, the last child of that name; the earlier ones are
    dropped and nothing is raised.  So two streams can give the same
    compound: [a] = 5 then [a] = 7 reads as [a] = 7 alone does. *)
Theorem compound_read_last_wins (little_endian : bool) :
  (forall has_name s t rest,
     TAG_read (reader little_endian) TAG_Compound has_name s = Ok (t, rest) ->
     exists name s1 xs value,
       read_name (reader little_endian) has_name s = Ok (name, s1) /\
       children (reader little_endian)
                (fun c => TAG_read (reader little_endian) c true) s1 xs rest /\
       t = CompoundTag value name /\
       forall key,
         value !! key = last (filter (fun x => tag_name x = key) xs)) /\
  TAG_read (reader little_endian) TAG_Compound false (twice_a little_endian)
  = Ok (CompoundTag {[ Some (b "a") := PlainTag TAG_Byte (PInt 7) (Some (b "a")) ]}
          None, []) /\
  TAG_read (reader little_endian) TAG_Compound false (once_a little_endian)
  = TAG_read (reader little_endian) TAG_Compound false (twice_a little_endian).
Proof.
  split; [|destruct little_endian; split; vm_compute; reflexivity].
  intros has_name s t rest H. unfold TAG_read in H. cbn [read] in H.
  apply bind_Ok_inv in H as (name & s1 & H1 & H).
  apply bind_Ok_inv in H as (final & s2 & H2 & H).
  injection H as <- <-.
  apply compound_loop_children in H2 as (xs & Hxs & ->).
  exists name, s1, xs, (foldl store ∅ xs).
  split; [done|]. split; [done|]. split.
  - unfold TAG_Compound___init__. rewrite TAG_Compound_update_keys; [done|].
    apply foldl_store_keys.
  - intros key. rewrite lookup_foldl_store. by destruct (last _).
Qed.

(** ** [TAG_Int_Array] and floats outside the well-formed trees *)

(** [TAG_Int_Array.write] hands the whole list to [pack] as one argument:
    whatever the list, [pack] refuses it. *)
Lemma TAG_Int_Array_write_raises (little_endian : bool) (l : list Z) :
  write (writer little_endian) (PlainTag TAG_Int_Array (PList l) None)
  = Raise struct_error.
Proof.
  cbn [write write_header rbind len]. unfold writer, pack.
  cbn [forallb item_ok negb andb].
  destruct (Z.leb_spec 0 1); [|lia].
  destruct (Z.leb_spec 0 (Z.of_nat (length l))); [|lia]. cbn [andb negb].
  cbn [fmt_values foldr item_values length].
  destruct (Z.eqb_spec (Z.of_nat 2) (1 + (Z.of_nat (length l) + 0))) as [E|E];
    [|done].
  assert (length l = 1%nat) as -> by lia.
  cbn [pack_items]. change (Z.to_nat 1) with 1%nat.
  change (Z.to_nat (Z.of_nat 1)) with 1%nat. cbn [pack_rep].
  unfold pack_value at 1. cbn [code_size].
  rewrite pack_int_Ok by (unfold int_min, int_max; simpl; lia).
  cbn [rbind]. by unfold pack_value.
Qed.

(** [read] keeps the first integer of a [TAG_Int_Array], and fails on an
    empty one. *)
Lemma TAG_Int_Array_read_examples :
  TAG_read (reader false) TAG_Int_Array false
    [chr 0; chr 0; chr 0; chr 2; chr 0; chr 0; chr 0; chr 7;
     chr 0; chr 0; chr 0; chr 9]
  = Ok (PlainTag TAG_Int_Array (PInt 7) None, []) /\
  TAG_read (reader false) TAG_Int_Array false [chr 0; chr 0; chr 0; chr 0]
  = Raise IndexError.
Proof. split; vm_compute; reflexivity. Qed.

(** The double nearest to 0.1 is not a single-precision number: it comes
    back from the four bytes of a [TAG_Float] as another double. *)
Lemma TAG_Float_tenth :
  float_exact 0x3FB999999999999A = false /\
  (let? bs := write (writer false)
                (PlainTag TAG_Float (PFloat 0x3FB999999999999A) None) in
   TAG_read (reader false) TAG_Float false bs)
  = Ok (PlainTag TAG_Float (PFloat 0x3FB99999A0000000) None, []).
Proof. split; vm_compute; reflexivity. Qed.

(** ** The claims on examples *)



Lemma compound_read_truncated_witness :
  truncation (child_a false 7) (once_a false) /\
  TAG_read (reader false) TAG_Compound false (child_a false 7)
  = Raise struct_error.
Proof.
  assert (Ht : truncation (child_a false 7) (once_a false))
    by (exists [chr 0]; split; [discriminate|reflexivity]).
  split; [exact Ht|].
  assert (Hr : TAG_read (reader false) TAG_Compound false (once_a false)
    = Ok (CompoundTag {[ Some (b "a") := PlainTag TAG_Byte (PInt 7) (Some (b "a")) ]}
            None, [])) by (vm_compute; reflexivity).
  destruct (compound_read_truncated false) as (_ & _ & H & _).
  destruct (H TAG_Compound false _ _ _ Hr) as (c & Hc & _ & Hp).
  apply Hp. rewrite app_nil_r in Hc. rewrite <- Hc. exact Ht.
Defined.

Lemma utf8_signed_length_witness :
  Z.of_nat (length (b "foo")) <= 32767 /\
  exists x,
    _write_utf8 (writer false) (b "foo") = Ok (x ++ b "foo") /\
    _read_utf8 (reader false) (x ++ b "foo" ++ b "rest") = Ok (b "foo", b "rest").
Proof.
  assert (Hlen : Z.of_nat (length (b "foo")) <= 32767) by (vm_compute; discriminate).
  split; [exact Hlen|].
  destruct (utf8_signed_length false (b "foo")) as (H & _).
  destruct (H Hlen) as (x & _ & _ & Hw & Hr).
  exists x. split; [exact Hw|apply Hr].
Defined.

(** A length of 32768 does not pass: neither a stream whose prefix is
    0x80 0x00 followed by 32768 characters, nor a string of 32768
    characters to write. *)
Lemma utf8_length_32768 :
  _read_utf8 (reader false) (chr 128 :: chr 0 :: replicate (Z.to_nat 32768) "a"%char)
  = Raise struct_error /\
  _write_utf8 (writer false) (replicate (Z.to_nat 32768) "a"%char) = Raise struct_error.
Proof. split; vm_compute; reflexivity. Qed.

(** A list declared of type [TAG_Byte] is built over a [TAG_Short] and a
    [TAG_Byte], and written. *)
Lemma TAG_List_heterogeneous :
  TAG_List___init__ (by_class TAG_Byte) mixed_elements None
  = Ok (ListTag 1 mixed_elements None) /\
  write (writer false) (ListTag 1 mixed_elements None)
  = Ok [chr 1; chr 0; chr 0; chr 0; chr 2; chr 0; chr 5; chr 1].
Proof. split; vm_compute; reflexivity. Qed.

Lemma setitem_name_witness :
  tag_name (PlainTag TAG_Byte (PInt 1) None) = None /\
  tag_name (TAG_Compound___setitem__ ∅ (Some (b "foo"))
              (PlainTag TAG_Byte (PInt 1) None)).2 = Some (b "foo") /\
  (TAG_Compound___setitem__ ∅ (Some (b "foo"))
     (PlainTag TAG_Byte (PInt 1) (Some (b "bar")))).2
  = PlainTag TAG_Byte (PInt 1) (Some (b "bar")).
Proof.
  split; [reflexivity|]. split.
  - destruct (setitem_name ∅ (Some (b "foo")) (PlainTag TAG_Byte (PInt 1) None))
      as (_ & H & _).
    apply (H eq_refl).
  - destruct (setitem_name ∅ (Some (b "foo"))
                (PlainTag TAG_Byte (PInt 1) (Some (b "bar")))) as (_ & _ & H).
    apply (H (b "bar") eq_refl).
Defined.

Lemma empty_list_round_trip_witness :
  name_ok (Some (b "l")) = true /\
  exists h,
    write (writer false) (ListTag 0 [] (Some (b "l")))
    = Ok (h ++ [chr 0; chr 0; chr 0; chr 0; chr 0]) /\
    TAG_read (reader false) TAG_List false
      ([chr 0; chr 0; chr 0; chr 0; chr 0] ++ b "rest")
    = Ok (ListTag 0 [] None, b "rest").
Proof.
  split; [reflexivity|].
  destruct (empty_list_round_trip false (Some (b "l")) eq_refl)
    as (h & _ & Hw & _).
  exists h. split; [exact Hw|].
  destruct (empty_list_round_trip false None eq_refl) as (h' & _ & _ & Hr).
  apply (Hr false [] (b "rest")). apply reads_read_name_None.
Defined.

Lemma write_without_name_witness :
  tag_name (PlainTag TAG_Int (PInt 3) None) = None /\
  write (writer false) (PlainTag TAG_Int (PInt 3) (Some (b "n")))
  = (let? x := writer false [Item 1 c_b] [PInt 3] in
     let? y := _write_utf8 (writer false) (b "n") in
     let? p := write (writer false) (PlainTag TAG_Int (PInt 3) None) in
     Ok (x ++ y ++ p)).
Proof.
  split; [reflexivity|].
  destruct (write_without_name false (PlainTag TAG_Int (PInt 3) None) eq_refl)
    as (_ & H & _).
  apply (H (b "n")).
Defined.

Lemma compound_read_last_wins_witness :
  TAG_read (reader false) TAG_Compound false (twice_a false)
  = Ok (CompoundTag {[ Some (b "a") := PlainTag TAG_Byte (PInt 7) (Some (b "a")) ]}
          None, []) /\
  exists xs (value : dict),
    children (reader false) (fun c => TAG_read (reader false) c true)
             (twice_a false) xs [] /\
    forall key, value !! key = last (filter (fun x => tag_name x = key) xs).
Proof.
  assert (Hr : TAG_read (reader false) TAG_Compound false (twice_a false)
    = Ok (CompoundTag {[ Some (b "a") := PlainTag TAG_Byte (PInt 7) (Some (b "a")) ]}
            None, [])) by (vm_compute; reflexivity).
  split; [exact Hr|].
  destruct (compound_read_last_wins false) as (H & _).
  destruct (H false _ _ _ Hr) as (name & s1 & xs & value & Hn & Hc & _ & Hv).
  injection Hn as _ <-. exists xs, value. split; [exact Hc|exact Hv].
Defined.

Lemma read_list_negative_count_witness :
  unpack_int BigEndian 4 [chr 255; chr 255; chr 255; chr 255] < 0 /\
  TAG_read (reader false) TAG_List false
    ([chr 1] ++ [chr 255; chr 255; chr 255; chr 255] ++ b "junk")
  = Ok (ListTag 1 [] None, b "junk").
Proof.
  assert (Hneg : unpack_int BigEndian 4 [chr 255; chr 255; chr 255; chr 255] < 0)
    by (vm_compute; reflexivity).
  split; [exact Hneg|].
  assert (Hty : -12 <= unpack_int BigEndian 1 [chr 1] <= 11)
    by (vm_compute; split; discriminate).
  apply (proj1 (read_list_negative_count false false [] None [chr 1]
                  [chr 255; chr 255; chr 255; chr 255] (b "junk")
                  (reads_read_name_None false) eq_refl eq_refl Hneg) Hty).
Defined.

(** A list header with the type byte 12 and the count -1: the read ends
    in [IndexError], not in a list without elements. *)
Lemma negative_count_bad_type :
  unpack_int BigEndian 4 [chr 255; chr 255; chr 255; chr 255] = -1 /\
  TAG_read (reader false) TAG_List false
    ([chr 12] ++ [chr 255; chr 255; chr 255; chr 255] ++ b "junk")
  = Raise IndexError.
Proof. split; vm_compute; reflexivity. Qed.

(** * Further properties of the module *)

(** ** What a successful read returns *)

Lemma reader_Ok_inv (le : bool) (f : fmt) (s : pystr) (t : list pyval)
    (s1 : pystr) :
  reader le f s = Ok (t, s1) ->
  exists c, s = c ++ s1 /\ Z.of_nat (length c) = fmt_size f /\
            forallb item_ok f = true /\
            t = unpack_items (order_of le) f c.
Proof.
  rewrite reader_spec. unfold calcsize.
  destruct (forallb item_ok f) eqn:Hf; [|done].
  pose proof (calcsize_nonneg f (fmt_size f)) as Hn.
  unfold calcsize in Hn. rewrite Hf in Hn. specialize (Hn eq_refl).
  destruct (Z.ltb_spec (Z.of_nat (length s)) (fmt_size f)); [done|].
  intros [= <- <-]. exists (take (Z.to_nat (fmt_size f)) s).
  split; [by rewrite take_drop|]. split; [rewrite length_take; lia|done].
Qed.

Lemma unpack_int_range (o : byte_order) (w : Z) (bs : pystr) :
  is_width w -> Z.of_nat (length bs) = w ->
  int_min w <= unpack_int o w bs <= int_max w.
Proof.
  intros Hw Hbs. unfold unpack_int, to_signed.
  pose proof (le_value_range (ordered o bs)) as Hr.
  rewrite ordered_length, Hbs in Hr. unfold int_min, int_max.
  destruct Hw as [-> | [-> | [-> | ->]]]; simpl in *;
    case_match eqn:E; [apply Z.leb_le in E|apply Z.leb_gt in E| apply Z.leb_le in E|apply Z.leb_gt in E| apply Z.leb_le in E|apply Z.leb_gt in E| apply Z.leb_le in E|apply Z.leb_gt in E]; lia.
Qed.

Lemma unpack_items_scalar (o : byte_order) (c : code) (bs : pystr) :
  c <> c_s -> Z.of_nat (length bs) = code_size c ->
  unpack_items o [Item 1 c] bs = [unpack_value o c bs].
Proof.
  intros Hc Hbs. destruct c; try done; simpl in *; by rewrite take_ge by lia.
Qed.

Lemma unpack_items_s (o : byte_order) (n : Z) (bs : pystr) :
  Z.of_nat (length bs) = n -> unpack_items o [Item n c_s] bs = [PStr bs].
Proof. intros Hbs. simpl. by rewrite take_ge by lia. Qed.

Section Returned.

Variable little_endian : bool.
Local Abbreviation o := (order_of little_endian).
Local Abbreviation rd := (reader little_endian).
Local Abbreviation wt := (writer little_endian).

(** What [_read_utf8] consumes and returns. *)
Lemma read_utf8_Ok_inv (s : pystr) (n : pystr) (s1 : pystr) :
  _read_utf8 rd s = Ok (n, s1) ->
  exists x, length x = 2%nat /\ s = x ++ n ++ s1 /\
            Z.of_nat (length n) = unpack_int o 2 x /\
            Z.of_nat (length n) <= 32767.
Proof.
  unfold _read_utf8. intros H.
  apply bind_Ok_inv in H as (t & s2 & H1 & H).
  apply reader_Ok_inv in H1 as (x & -> & Hx & _ & ->).
  change (fmt_size [Item 1 c_h]) with 2 in Hx.
  apply bind_Ok_inv in H as (z & s3 & H2 & H).
  apply lift_Ok_inv in H2 as [H2 ->].
  assert (Hz : z = unpack_int o 2 x).
  { rewrite unpack_items_scalar in H2 by done. by injection H2 as <-. }
  apply bind_Ok_inv in H as (t' & s4 & H3 & H).
  apply reader_Ok_inv in H3 as (c & -> & Hc & Hok & ->).
  apply lift_Ok_inv in H as [H ->].
  cbn [fmt_size foldr item_size code_size forallb item_ok] in Hc, Hok.
  rewrite andb_true_r in Hok. apply Z.leb_le in Hok.
  assert (Hn : n = c).
  { rewrite unpack_items_s in H by lia. by injection H as <-. }
  subst n. exists x. split; [lia|]. split; [done|].
  pose proof (unpack_int_range o 2 x ltac:(unfold is_width; lia) Hx) as Hr.
  unfold int_max in Hr. simpl in Hr. lia.
Qed.

Lemma read_name_Ok_inv (has_name : bool) (s : pystr) (name : option pystr)
    (s1 : pystr) :
  read_name rd has_name s = Ok (name, s1) ->
  if has_name then
    exists x n, length x = 2%nat /\ s = x ++ n ++ s1 /\ name = Some n /\
                Z.of_nat (length n) = unpack_int o 2 x /\
                Z.of_nat (length n) <= 32767
  else name = None /\ s1 = s.
Proof.
  destruct has_name; cbn [read_name].
  - intros H. apply bind_Ok_inv in H as (n & s2 & H1 & [= <- <-]).
    apply read_utf8_Ok_inv in H1 as (x & Hx & Hs & Hn & Hle). by exists x, n.
  - by intros [= <- <-].
Qed.

(** [read] returns a tag of the class it was called on, under the name
    [read_name] has read. *)
Lemma read_class_name (fuel : nat) (cls : TagClass) (has_name : bool)
    (s : pystr) (t : Tag) (rest : pystr) :
  read rd fuel cls has_name s = Ok (t, rest) ->
  class_of t = cls /\
  exists s1, read_name rd has_name s = Ok (tag_name t, s1).
Proof.
  destruct fuel as [|fuel]; [done|]. cbn [read]. intros H.
  apply bind_Ok_inv in H as (name & s1 & Hname & H).
  assert (class_of t = cls /\ tag_name t = name) as [Hc Hn];
    [|split; [done|exists s1; by rewrite Hn]].
  destruct cls as [c| |].
  - destruct c; cbn [STRUCT_FMT] in H;
      repeat (apply bind_Ok_inv in H as (? & ? & _ & H));
      by injection H as <- _.
  - repeat (apply bind_Ok_inv in H as (? & ? & _ & H)).
    destruct x1. repeat (apply bind_Ok_inv in H as (? & ? & _ & H)).
    apply lift_Ok_inv in H as [[= <-] _]. done.
  - apply bind_Ok_inv in H as (? & ? & _ & H). by injection H as <- _.
Qed.

Lemma consumes_after_reader {B} (f : fmt) (k : list pyval -> M B)
    (s : pystr) (y : B) (s' : pystr) :
  1 <= fmt_size f -> (forall a, local (k a)) ->
  bind (rd f) k s = Ok (y, s') -> (length s' < length s)%nat.
Proof.
  intros Hf Hk H. apply bind_Ok_inv in H as (a & s1 & H1 & H).
  apply reader_Ok_inv in H1 as (c & -> & Hc & _).
  apply (local_length _ _ _ _ (Hk a)) in H. rewrite length_app. lia.
Qed.

(** A successful read consumes at least one character. *)
Lemma read_consumes (fuel : nat) (cls : TagClass) (has_name : bool)
    (s : pystr) (t : Tag) (rest : pystr) :
  read rd fuel cls has_name s = Ok (t, rest) -> (length rest < length s)%nat.
Proof.
  destruct fuel as [|fuel]; [done|]. cbn [read]. intros H.
  apply bind_Ok_inv in H as (name & s1 & Hname & H).
  apply (local_length _ _ _ _ (local_read_name rd (local_reader little_endian)
                                 has_name)) in Hname.
  enough (length rest < length s1)%nat by lia. clear Hname.
  destruct cls as [c| |].
  - destruct c; cbn [STRUCT_FMT] in H;
      try (apply (fun Hf Hk => consumes_after_reader _ _ _ _ _ Hf Hk H);
           [by vm_compute|];
           intros; repeat (apply local_reader || local_step)).
    apply bind_Ok_inv in H as (v & s2 & H1 & H). injection H as _ <-.
    apply read_utf8_Ok_inv in H1 as (x & Hx & -> & _).
    rewrite !length_app. lia.
  - apply (fun Hf Hk => consumes_after_reader _ _ _ _ _ Hf Hk H);
      [by vm_compute|]. intros a.
    apply local_bind; [apply local_lift|]. intros [tag_type length].
    apply local_bind; [apply local_lift|]. intros real_type.
    apply local_bind; [|intros; apply local_lift].
    apply local_list_items, local_read_entry. intros c.
    apply local_read, local_reader.
  - apply bind_Ok_inv in H as (final & s2 & H1 & H). injection H as _ <-.
    apply compound_loop_end in H1 as (c & ->).
    + rewrite length_app. simpl. lia.
    + intros c. apply local_read, local_reader.
Qed.

End Returned.

(** X1.  A successful read returns a tag of the class it was called on;
    the tag has a name exactly when [has_name] was set, of at most 32767
    characters; and at least one character of the stream was consumed. *)
Theorem read_returns_requested (little_endian : bool) (cls : TagClass)
    (has_name : bool) (s : pystr) (t : Tag) (rest : pystr) :
  TAG_read (reader little_endian) cls has_name s = Ok (t, rest) ->
  class_of t = cls /\
  (if has_name
   then exists n, tag_name t = Some n /\ Z.of_nat (length n) <= 32767
   else tag_name t = None) /\
  (length rest < length s)%nat.
Proof.
  unfold TAG_read. intros H. split; [|split].
  - by apply read_class_name in H as [? _].
  - apply read_class_name in H as [_ (s1 & Hn)].
    apply read_name_Ok_inv in Hn. destruct has_name.
    + destruct Hn as (x & n & _ & _ & Hn & _ & Hle). by exists n.
    + by destruct Hn.
  - by apply read_consumes in H.
Qed.

(** ** Documents and tag bytes *)

Section TagBytes.

Variable little_endian : bool.
Local Abbreviation o := (order_of little_endian).
Local Abbreviation rd := (reader little_endian).
Local Abbreviation wt := (writer little_endian).

(** The dictionary of a compound that was read is keyed by the names of
    its tags. *)
Lemma read_compound_shape (fuel : nat) (has_name : bool) (s : pystr)
    (t : Tag) (rest : pystr) :
  read rd fuel TAG_Compound has_name s = Ok (t, rest) ->
  exists xs, t = CompoundTag (foldl store ∅ xs) (tag_name t).
Proof.
  destruct fuel as [|fuel]; [done|]. cbn [read]. intros H.
  apply bind_Ok_inv in H as (name & s1 & _ & H).
  apply bind_Ok_inv in H as (final & s2 & H2 & H). injection H as <- _.
  apply compound_loop_children in H2 as (xs & _ & ->).
  exists xs. unfold TAG_Compound___init__.
  rewrite TAG_Compound_update_keys; [done|]. apply foldl_store_keys.
Qed.

Lemma getitem_tags_alias (tag : Z) :
  -12 < tag < 0 -> getitem _tags tag = getitem _tags (tag + 12).
Proof.
  intros Ht. unfold getitem. change (Z.of_nat (length _tags)) with 12.
  destruct (Z.ltb_spec tag 0); [|lia].
  destruct (Z.ltb_spec (tag + 12) 0); [lia|]. done.
Qed.


Lemma compound_loop_byte (rc : TagClass -> M Tag) (k : nat) (final : dict)
    (tag : Z) (rest : pystr) :
  -128 <= tag <= 127 -> tag <> 0 ->
  compound_loop rd rc (S k) final (chr tag :: rest) =
    (let* entry := lift (getitem _tags tag) in
     let* tmp := read_entry entry rc in
     compound_loop rd rc k (<[tag_name tmp := tmp]> final)) rest.
Proof.
  intros Ht H0. cbn [compound_loop].
  rewrite (bind_Ok _ _ _ _ _ (reader_byte little_endian (chr tag) rest)).
  rewrite (bind_Ok _ _ _ (unpack_int o 1 [chr tag]) rest) by done.
  rewrite unpack_byte by done.
  by destruct (Z.eqb_spec tag 0).
Qed.

End TagBytes.

(** After the byte 0x0A, [NBTFile] does what [TAG_Compound.read] does. *)
Lemma load_after_first_byte (little_endian : bool) (s : pystr) :
  NBTFile_load little_endian (chr 10 :: s)
  = TAG_read (reader little_endian) TAG_Compound true s.
Proof.
  unfold NBTFile_load.
  rewrite (bind_Ok _ _ _ _ _ (reader_byte little_endian (chr 10) s)).
  rewrite (bind_Ok _ _ _ (PInt (unpack_int (order_of little_endian) 1 [chr 10])) s)
    by done.
  rewrite unpack_byte by lia. cbn [pyval_eqb]. change (10 =? 10) with true.
  cbn [negb]. unfold bind.
  destruct (TAG_read (reader little_endian) TAG_Compound true s)
    as [[t rest]| |] eqn:E; [|done..].
  unfold TAG_read in E. apply read_compound_shape in E as (xs & ->).
  cbn [tag_name]. unfold ret, TAG_Compound___init__.
  rewrite TAG_Compound_update_keys; [done|]. apply foldl_store_keys.
Qed.

(** X2.  [NBTFile] adds nothing to [TAG_Compound.read] but the test of the
    first byte: on a stream that starts with 0x0A, loading has the outcome
    of reading a named compound from the rest, whatever the stream. *)
Theorem NBTFile_load_is_compound_read (little_endian : bool) (s : pystr) :
  NBTFile_load little_endian (chr 10 :: s)
  = TAG_read (reader little_endian) TAG_Compound true s.
Proof. apply load_after_first_byte. Qed.

(** X3.  A tag byte of a compound is used as a Python index into [_tags]:
    a byte from 12 to 127, or below -12 as a signed byte, raises
    [IndexError]; the byte -12 selects the entry [None] and raises
    [AttributeError]; and a byte from -11 to -1 is read like the byte 12
    above it, so 0xFF stands for [TAG_Int_Array] as 0x0B does. *)
Theorem compound_tag_byte (little_endian : bool) (rc : TagClass -> M Tag)
    (k : nat) (final : dict) (tag : Z) (rest : pystr) :
  -128 <= tag <= 127 ->
  (tag < -12 \/ 11 < tag ->
   compound_loop (reader little_endian) rc (S k) final (chr tag :: rest)
   = Raise IndexError) /\
  (tag = -12 ->
   compound_loop (reader little_endian) rc (S k) final (chr tag :: rest)
   = Raise AttributeError) /\
  (-12 < tag < 0 ->
   compound_loop (reader little_endian) rc (S k) final (chr tag :: rest)
   = compound_loop (reader little_endian) rc (S k) final
       (chr (tag + 12) :: rest)).
Proof.
  intros Ht. split; [|split].
  - intros H. rewrite compound_loop_byte by lia.
    by rewrite getitem_tags_IndexError.
  - intros ->. by rewrite compound_loop_byte.
  - intros H. rewrite !compound_loop_byte by lia.
    by rewrite getitem_tags_alias.
Qed.

(** X4.  The element type of a list is looked up in [_tags] before the
    count is used: a type below -12 or above 11 raises [IndexError]
    whatever the count, and the types 0 and -12, the entry [None], raise
    [AttributeError] as soon as the count is positive. *)
Theorem list_element_type (little_endian : bool) (has_name : bool)
    (nb : pystr) (name : option pystr) (x y rest : pystr) :
  reads (read_name (reader little_endian) has_name) nb name ->
  length x = 1%nat -> length y = 4%nat ->
  (unpack_int (order_of little_endian) 1 x < -12 \/
   11 < unpack_int (order_of little_endian) 1 x ->
   TAG_read (reader little_endian) TAG_List has_name (nb ++ x ++ y ++ rest)
   = Raise IndexError) /\
  (unpack_int (order_of little_endian) 1 x = 0 \/
   unpack_int (order_of little_endian) 1 x = -12 ->
   0 < unpack_int (order_of little_endian) 4 y ->
   TAG_read (reader little_endian) TAG_List has_name (nb ++ x ++ y ++ rest)
   = Raise AttributeError).
Proof.
  intros Hnb Hx Hy.
  assert (Hread :
    read (reader little_endian) 1 TAG_List has_name (nb ++ x ++ y ++ rest) =
    (let* real_type :=
       lift (getitem _tags (unpack_int (order_of little_endian) 1 x)) in
     let* value :=
       list_items (read_entry real_type
                     (fun c => read (reader little_endian) 0 c false))
                  (Z.to_nat (unpack_int (order_of little_endian) 4 y)) in
     lift (TAG_List___init__
             (by_int (unpack_int (order_of little_endian) 1 x)) value name))
      rest).
  { cbn [read]. rewrite (bind_Ok _ _ _ _ _ (Hnb _)).
    rewrite (app_assoc x y rest).
    rewrite (bind_Ok _ _ _ _ _ (reads_bi little_endian x y ltac:(lia) ltac:(lia) rest)).
    by rewrite (bind_Ok _ _ _ (unpack_int (order_of little_endian) 1 x,
                               unpack_int (order_of little_endian) 4 y) rest). }
  split.
  - intros H. rewrite (TAG_read_fuel little_endian 1); rewrite Hread;
      by rewrite getitem_tags_IndexError.
  - intros H Hn.
    assert (Hentry : getitem _tags (unpack_int (order_of little_endian) 1 x)
                     = Ok None) by (by destruct H as [-> | ->]).
    destruct (Z.to_nat (unpack_int (order_of little_endian) 4 y)) as [|n] eqn:En;
      [lia|].
    rewrite (TAG_read_fuel little_endian 1); rewrite Hread, Hentry; done.
Qed.

(** ** Arrays *)

Lemma unpack_rep_ints (o : byte_order) (n : nat) (data : pystr) :
  Forall (fun v => exists z, v = PInt z) (unpack_rep o c_i n data).1.
Proof.
  revert data. induction n as [|n IH]; intros data; cbn [unpack_rep]; [done|].
  specialize (IH (drop (Z.to_nat (code_size c_i)) data)).
  destruct (unpack_rep o c_i n _) as [vs r]. cbn [fst] in *.
  apply Forall_cons. split; [|done]. by eexists.
Qed.

Lemma unpack_items_ints (o : byte_order) (n : Z) (data : pystr) :
  Forall (fun v => exists z, v = PInt z) (unpack_items o [Item n c_i] data).
Proof.
  cbn [unpack_items]. pose proof (unpack_rep_ints o (Z.to_nat n) data) as H.
  destruct (unpack_rep o c_i (Z.to_nat n) data) as [vs r]. cbn [fst] in H.
  by rewrite app_nil_r.
Qed.

Lemma unpack_items_ints_first (o : byte_order) (n : Z) (data : pystr) :
  0 < n ->
  getitem (unpack_items o [Item n c_i] data) 0
  = Ok (PInt (unpack_int o 4 (take 4 data))).
Proof.
  intros Hn. cbn [unpack_items].
  destruct (Z.to_nat n) as [|m] eqn:E; [lia|]. cbn [unpack_rep].
  destruct (unpack_rep o c_i m _) as [vs r]. rewrite app_nil_r.
  unfold getitem. cbn [length].
  destruct (Z.ltb_spec 0 0); [lia|].
  destruct (Z.leb_spec 0 0); [|lia].
  destruct (Z.ltb_spec 0 (Z.of_nat (S (length vs)))); [|lia]. done.
Qed.

Lemma getitem_Forall {A} (P : A -> Prop) (t : list A) (i : Z) (x : A) :
  Forall P t -> getitem t i = Ok x -> P x.
Proof.
  intros Ht. unfold getitem. case_match; [|done].
  destruct (t !! _) as [y|] eqn:E; [|done]. intros [= <-].
  by eapply Forall_lookup_1.
Qed.

Section Arrays.

Variable little_endian : bool.
Local Abbreviation o := (order_of little_endian).
Local Abbreviation rd := (reader little_endian).
Local Abbreviation wt := (writer little_endian).

Lemma reader_negative_count (c : code) (n : Z) (s : pystr) :
  n < 0 -> rd [Item n c] s = Raise struct_error.
Proof.
  intros Hn. rewrite reader_spec. unfold calcsize. cbn [forallb item_ok].
  by destruct (Z.leb_spec 0 n); [lia|].
Qed.

Lemma read_array_count (cls : ValueClass) (c : code) (has_name : bool)
    (nb : pystr) (name : option pystr) (x s : pystr) :
  (cls = TAG_Byte_Array /\ c = c_s) \/ (cls = TAG_Int_Array /\ c = c_i) ->
  reads (read_name rd has_name) nb name -> length x = 4%nat ->
  read rd 1 cls has_name (nb ++ x ++ s) =
    (let* t := rd [Item (unpack_int o 4 x) c] in
     let* value := lift (getitem t 0) in
     ret (PlainTag cls value name)) s.
Proof.
  intros Hcls Hnb Hx. cbn [read]. rewrite (bind_Ok _ _ _ _ _ (Hnb _)).
  destruct Hcls as [[-> ->] | [-> ->]];
    rewrite (bind_Ok _ _ _ _ _
               (reads_scalar little_endian c_i x ltac:(done) ltac:(simpl; lia) s));
    by rewrite (bind_Ok _ _ _ (unpack_int o 4 x) s).
Qed.

End Arrays.

(** X5.  [read] of a [TAG_Int_Array] takes the 4-byte count, unpacks that
    many integers and keeps the first one only, as an integer: a negative
    count raises [struct.error], the count 0 raises [IndexError], and a
    positive count consumes all the integers and returns the first. *)
Theorem read_int_array (little_endian : bool) (has_name : bool) (nb : pystr)
    (name : option pystr) (x : pystr) :
  reads (read_name (reader little_endian) has_name) nb name ->
  length x = 4%nat ->
  (unpack_int (order_of little_endian) 4 x < 0 ->
   forall rest,
     TAG_read (reader little_endian) TAG_Int_Array has_name (nb ++ x ++ rest)
     = Raise struct_error) /\
  (unpack_int (order_of little_endian) 4 x = 0 ->
   forall rest,
     TAG_read (reader little_endian) TAG_Int_Array has_name (nb ++ x ++ rest)
     = Raise IndexError) /\
  (0 < unpack_int (order_of little_endian) 4 x ->
   forall data rest,
     Z.of_nat (length data) = 4 * unpack_int (order_of little_endian) 4 x ->
     TAG_read (reader little_endian) TAG_Int_Array has_name
       (nb ++ x ++ data ++ rest)
     = Ok (PlainTag TAG_Int_Array
             (PInt (unpack_int (order_of little_endian) 4 (take 4 data))) name,
           rest)).
Proof.
  intros Hnb Hx. split; [|split].
  - intros Hn rest. rewrite (TAG_read_fuel little_endian 1);
      rewrite (read_array_count little_endian TAG_Int_Array c_i has_name nb name x _
                 (or_intror (conj eq_refl eq_refl)) Hnb Hx);
      by rewrite (bind_Raise _ _ _ _ (reader_negative_count _ _ _ _ Hn)).
  - intros Hn rest. rewrite (TAG_read_fuel little_endian 1);
      rewrite (read_array_count little_endian TAG_Int_Array c_i has_name nb name x _
                 (or_intror (conj eq_refl eq_refl)) Hnb Hx);
      rewrite Hn;
      by rewrite (bind_Ok _ _ _ _ _
                    (reader_reads little_endian [Item 0 c_i] [] eq_refl rest)).
  - intros Hn data rest Hdata.
    assert (Hc : calcsize [Item (unpack_int (order_of little_endian) 4 x) c_i]
                 = Ok (Z.of_nat (length data))).
    { unfold calcsize. cbn [forallb item_ok fmt_size foldr item_size code_size].
      destruct (Z.leb_spec 0 (unpack_int (order_of little_endian) 4 x)); [|lia].
      cbn [andb]. f_equal. lia. }
    rewrite (TAG_read_fuel little_endian 1);
      rewrite (read_array_count little_endian TAG_Int_Array c_i has_name nb name x _
                 (or_intror (conj eq_refl eq_refl)) Hnb Hx);
      rewrite (bind_Ok _ _ _ _ _ (reader_reads little_endian _ data Hc rest));
      by rewrite (bind_Ok _ _ _ _ rest
                    (f_equal (fun r => lift r rest)
                       (unpack_items_ints_first _ _ data Hn))).
Qed.

(** X6.  A [TAG_Int_Array] that was read cannot be written: its value is an
    integer, of which [write] takes the length. *)
Theorem read_int_array_not_writable (little_endian : bool) (has_name : bool)
    (s : pystr) (t : Tag) (rest : pystr) :
  TAG_read (reader little_endian) TAG_Int_Array has_name s = Ok (t, rest) ->
  write (writer little_endian) t = Raise TypeError.
Proof.
  unfold TAG_read. cbn [read]. intros H.
  apply bind_Ok_inv in H as (name & s1 & Hname & H).
  apply bind_Ok_inv in H as (t1 & s2 & _ & H).
  apply bind_Ok_inv in H as (n & s3 & _ & H).
  apply bind_Ok_inv in H as (t2 & s4 & H2 & H).
  apply bind_Ok_inv in H as (value & s5 & Hv & H).
  injection H as <- _.
  apply reader_Ok_inv in H2 as (c & _ & _ & _ & ->).
  apply lift_Ok_inv in Hv as [Hv _].
  apply (getitem_Forall _ _ _ _ (unpack_items_ints _ _ _)) in Hv as [z ->].
  assert (Hok : name_ok name = true).
  { apply read_name_Ok_inv in Hname. destruct has_name.
    - destruct Hname as (x & n' & _ & _ & -> & _ & Hle). by apply Z.leb_le.
    - by destruct Hname as [-> _]. }
  destruct (write_header_Ok little_endian 11 name ltac:(lia) Hok) as (h & Hh).
  cbn [write]. by rewrite Hh.
Qed.

(** X7.  [read] of a [TAG_Byte_Array] takes the 4-byte length and then
    exactly that many characters, whatever they are; a negative length
    raises [struct.error]. *)
Theorem read_byte_array (little_endian : bool) (has_name : bool) (nb : pystr)
    (name : option pystr) (x : pystr) :
  reads (read_name (reader little_endian) has_name) nb name ->
  length x = 4%nat ->
  (unpack_int (order_of little_endian) 4 x < 0 ->
   forall rest,
     TAG_read (reader little_endian) TAG_Byte_Array has_name (nb ++ x ++ rest)
     = Raise struct_error) /\
  (forall data rest,
     Z.of_nat (length data) = unpack_int (order_of little_endian) 4 x ->
     TAG_read (reader little_endian) TAG_Byte_Array has_name
       (nb ++ x ++ data ++ rest)
     = Ok (PlainTag TAG_Byte_Array (PStr data) name, rest)).
Proof.
  intros Hnb Hx. split.
  - intros Hn rest. rewrite (TAG_read_fuel little_endian 1);
      rewrite (read_array_count little_endian TAG_Byte_Array c_s has_name nb name x _
                 (or_introl (conj eq_refl eq_refl)) Hnb Hx);
      by rewrite (bind_Raise _ _ _ _ (reader_negative_count _ _ _ _ Hn)).
  - intros data rest Hdata.
    rewrite (TAG_read_fuel little_endian 1);
      rewrite (read_array_count little_endian TAG_Byte_Array c_s has_name nb name x _
                 (or_introl (conj eq_refl eq_refl)) Hnb Hx);
      rewrite <- Hdata;
      by rewrite (bind_Ok _ _ _ _ _ (reads_s little_endian data rest)).
Qed.

(** ** Building compounds *)

Lemma well_formed_set_name (name : option pystr) (t : Tag) :
  well_formed t = true -> name_ok name = true ->
  well_formed (set_name name t) = true.
Proof.
  intros Ht Hn. destruct t; cbn [well_formed set_name tag_name] in *;
    apply andb_prop in Ht as [_ Ht]; by rewrite Hn, Ht.
Qed.

Lemma name_from_key_named (key : option pystr) (x : Tag) :
  is_Some (tag_name x) -> name_from_key key x = x.
Proof. unfold name_from_key. by intros [n ->]. Qed.

Lemma TAG_Compound_update_lookup (self other : dict) (key : option pystr) :
  TAG_Compound_update self other !! key
  = name_from_key key <$> (other ∪ self) !! key.
Proof. unfold TAG_Compound_update. by rewrite map_lookup_imap. Qed.

(** *** The loop of [update] on objects *)

Lemma name_item_Some (ns : names) (entry : option pystr * ident) (id : ident)
    (n : pystr) :
  ns id = Some n -> name_item ns entry id = Some n.
Proof.
  intros H. unfold name_item, assign. destruct (ns entry.2) eqn:E; [done|].
  case_decide; [congruence|done].
Qed.

Lemma name_item_other (ns : names) (entry : option pystr * ident) (id : ident) :
  id <> entry.2 -> name_item ns entry id = ns id.
Proof.
  intros H. unfold name_item, assign. destruct (ns entry.2); [done|].
  by case_decide.
Qed.

Lemma name_item_here (ns : names) (key : option pystr) (id : ident) :
  ns id = None -> name_item ns (key, id) id = key.
Proof.
  intros H. unfold name_item, assign. cbn [fst snd]. rewrite H.
  by case_decide.
Qed.

Lemma name_items_cons (entry : option pystr * ident)
    (items : list (option pystr * ident)) (ns : names) :
  name_items (entry :: items) ns = name_items items (name_item ns entry).
Proof. done. Qed.

Lemma name_items_Some (items : list (option pystr * ident)) (ns : names)
    (id : ident) (n : pystr) :
  ns id = Some n -> name_items items ns id = Some n.
Proof.
  revert ns. induction items as [|entry items IH]; intros ns H; [done|].
  rewrite name_items_cons. by apply IH, name_item_Some.
Qed.

Lemma name_items_other (items : list (option pystr * ident)) (ns : names)
    (id : ident) :
  id ∉ items.*2 -> name_items items ns id = ns id.
Proof.
  revert ns. induction items as [|entry items IH]; intros ns H; [done|].
  rewrite fmap_cons, not_elem_of_cons in H. destruct H as [H1 H2].
  rewrite name_items_cons, IH by done. by apply name_item_other.
Qed.

(** An object without a name ends with a key under which it is found. *)
Lemma name_items_key (items : list (option pystr * ident)) (ns : names)
    (id : ident) :
  ns id = None -> id ∈ items.*2 ->
  exists key, (key, id) ∈ items /\ name_items items ns id = key.
Proof.
  revert ns. induction items as [|[k0 id0] items IH]; intros ns Hn Hin.
  { by apply elem_of_nil in Hin. }
  rewrite name_items_cons. destruct (decide (id = id0)) as [->|Hne].
  - pose proof (name_item_here ns k0 id0 Hn) as Hk. destruct k0 as [n|].
    + exists (Some n). split; [left|]. by apply name_items_Some.
    + destruct (decide (id0 ∈ items.*2)) as [Hin'|Hout].
      * destruct (IH _ Hk Hin') as (key & Hkey & Hr).
        exists key. split; [by right|done].
      * exists None. split; [left|]. by rewrite name_items_other.
  - rewrite fmap_cons, elem_of_cons in Hin. destruct Hin as [Hin|Hin]; [done|].
    destruct (IH (name_item ns (k0, id0)) ltac:(by rewrite name_item_other) Hin)
      as (key & Hkey & Hr).
    exists key. split; [by right|done].
Qed.

(** An object found under a string key ends with a name. *)
Lemma name_items_string (items : list (option pystr * ident)) (ns : names)
    (id : ident) (k : pystr) :
  (Some k, id) ∈ items -> is_Some (name_items items ns id).
Proof.
  revert ns. induction items as [|entry items IH]; intros ns Hin.
  { by apply elem_of_nil in Hin. }
  rewrite name_items_cons. apply elem_of_cons in Hin as [<-|Hin]; [|by apply IH].
  destruct (ns id) as [n|] eqn:E.
  - exists n. by apply name_items_Some, name_item_Some.
  - exists k. by apply name_items_Some, name_item_here.
Qed.

Lemma name_items_ext (items : list (option pystr * ident)) (ns1 ns2 : names) :
  (forall id, ns1 id = ns2 id) ->
  forall id, name_items items ns1 id = name_items items ns2 id.
Proof.
  revert ns1 ns2. induction items as [|entry items IH]; intros ns1 ns2 H; [done|].
  rewrite !name_items_cons. apply IH. intros id.
  unfold name_item, assign. rewrite (H entry.2).
  destruct (ns2 entry.2); [done|]. by case_decide.
Qed.

(** Where every object without a name is found under [None] only, the loop
    changes no name. *)
Lemma name_items_fixed (items : list (option pystr * ident)) (ns : names) :
  (forall key id, (key, id) ∈ items -> ns id = None -> key = None) ->
  forall id, name_items items ns id = ns id.
Proof.
  induction items as [|[k0 id0] items IH]; intros H id; [done|].
  rewrite name_items_cons.
  assert (Hsame : forall id', name_item ns (k0, id0) id' = ns id').
  { intros id'. unfold name_item, assign. cbn [fst snd].
    destruct (ns id0) eqn:E; [done|]. case_decide as Hd; [|done].
    subst id'. rewrite E. apply (H k0 id0); [left|done]. }
  rewrite (name_items_ext items _ ns Hsame). apply IH.
  intros key id' Hin. apply H. by right.
Qed.

(** X8.  [update] on tag objects: the dictionary gets the entries of the
    argument over its own, and the loop assigns [item.name = key] on the
    objects themselves, in whatever order the dictionary yields its items.
    An object that has a name keeps it, like every object outside the
    dictionary; an object without a name ends with one of the keys it is
    stored under as its name, so an object stored under two keys has one
    name for both; stored under one key only, it gets that key, as
    [name_from_key] says; no object under a string key is left without a
    name; and a second [update] changes no name. *)
Theorem TAG_Compound_update_names (self other d : gmap (option pystr) ident)
    (items : list (option pystr * ident)) (ns ns' : names) :
  TAG_Compound_update_objects self other items ns = (d, ns') ->
  items ≡ₚ map_to_list d ->
  (forall key,
     d !! key = match other !! key with
                | Some item => Some item
                | None => self !! key
                end) /\
  (forall item n, ns item = Some n -> ns' item = Some n) /\
  (forall item, (forall key, d !! key <> Some item) -> ns' item = ns item) /\
  (forall item key,
     ns item = None -> d !! key = Some item ->
     exists key', d !! key' = Some item /\ ns' item = key') /\
  (forall item key t,
     d !! key = Some item ->
     (forall key', d !! key' = Some item -> key' = key) ->
     tag_name t = ns item ->
     ns' item = tag_name (name_from_key key t)) /\
  (forall item key, d !! key = Some item -> is_Some key -> is_Some (ns' item)) /\
  (forall items',
     items' ≡ₚ map_to_list (∅ ∪ d) ->
     forall item,
       (TAG_Compound_update_objects d ∅ items' ns').2 item = ns' item).
Proof.
  intros [= <- <-] Hitems.
  assert (Hin : forall key item,
    (key, item) ∈ items <-> (other ∪ self) !! key = Some item).
  { intros key item. by rewrite Hitems, elem_of_map_to_list. }
  assert (Hin2 : forall item,
    item ∈ items.*2 <-> exists key, (other ∪ self) !! key = Some item).
  { intros item. rewrite list_elem_of_fmap. split.
    - intros ([key item'] & -> & H). exists key. by apply Hin.
    - intros (key & H). exists (key, item). split; [done|]. by apply Hin. }
  assert (Hkey : forall item key,
    ns item = None -> (other ∪ self) !! key = Some item ->
    exists key', (other ∪ self) !! key' = Some item /\
                 name_items items ns item = key').
  { intros item key Hn Hd.
    destruct (name_items_key items ns item Hn) as (key' & Hk & Hr).
    - apply Hin2. by exists key.
    - exists key'. split; [by apply Hin|done]. }
  split; [|split; [|split; [|split; [|split; [|split]]]]].
  - intros key. rewrite lookup_union. by destruct (other !! key), (self !! key).
  - intros item n. apply name_items_Some.
  - intros item Hout. apply name_items_other. rewrite Hin2.
    intros (key & H). by apply (Hout key).
  - exact Hkey.
  - intros item key t Hd Honce Ht. unfold name_from_key. rewrite Ht.
    destruct (ns item) as [n|] eqn:E.
    + rewrite Ht. by apply name_items_Some.
    + rewrite tag_name_set_name.
      destruct (Hkey item key E Hd) as (key' & Hd' & ->). by apply Honce.
  - intros item key Hd [k ->]. apply (name_items_string items ns item k).
    by apply Hin.
  - intros items' Hitems' item. cbn [snd TAG_Compound_update_objects].
    apply name_items_fixed. intros key item' Hi Hn.
    rewrite Hitems', (left_id ∅ (∪)), elem_of_map_to_list in Hi.
    destruct key as [k|]; [|done].
    destruct (name_items_string items ns item' k) as [n Hs]; [by apply Hin|].
    congruence.
Qed.

Section Built.

Variable little_endian : bool.
Local Abbreviation o := (order_of little_endian).
Local Abbreviation rd := (reader little_endian).
Local Abbreviation wt := (writer little_endian).

(** A well-formed named compound is saved, and loaded back. *)
Lemma save_load (value : dict) (name : pystr) :
  well_formed (CompoundTag value (Some name)) = true ->
  exists bs,
    NBTFile_save (CompoundTag value (Some name)) little_endian = Ok bs /\
    forall rest,
      NBTFile_load little_endian (bs ++ rest)
      = Ok (CompoundTag value (Some name), rest).
Proof.
  intros Hwf.
  destruct (write_read little_endian
              (S (weight (CompoundTag value (Some name)))) _ Hwf ltac:(lia))
    as (h & p & Hh & Hw & Hr).
  pose proof (well_formed_name _ Hwf) as Hok. cbn [tag_name class_of] in *.
  apply Z.leb_le in Hok.
  destruct (write_header_Some little_endian (discriminant TAG_Compound) name
              ltac:(done) Hok) as (u & Hu & _ & Hur).
  rewrite Hu in Hh. injection Hh as <-.
  exists ((chr (discriminant TAG_Compound) :: u) ++ p). split; [done|].
  apply (reads_NBTFile_load little_endian (u ++ p) value (Some name)).
  - eapply reads_TAG_read. by apply Hr.
  - intros key x Hx.
    destruct (well_formed_compound _ _ Hwf key x Hx) as (Hk & -> & _). done.
Qed.

End Built.

(** *** Documents built from tag objects *)

Lemma set_name_view (ns : names) (t : OTag) :
  set_name (ns (obj_id t)) (view ns t) = view ns t.
Proof. by destruct t. Qed.

Lemma tag_name_view (ns : names) (t : OTag) :
  tag_name (view ns t) = ns (obj_id t).
Proof. by destruct t. Qed.

Lemma inner_ids_elements (l : list OTag) (x : OTag) (id : ident) :
  x ∈ l -> id = obj_id x \/ id ∈ inner_ids x ->
  id ∈ foldr (fun x acc => obj_id x :: inner_ids x ++ acc) [] l.
Proof.
  intros Hx Hid. induction Hx as [y l'|y z l' _ IH]; cbn [foldr];
    rewrite elem_of_cons, elem_of_app; tauto.
Qed.

Lemma inner_ids_entries (l : list (option pystr * OTag)) (key : option pystr)
    (x : OTag) (id : ident) :
  (key, x) ∈ l -> id = obj_id x \/ id ∈ inner_ids x ->
  id ∈ foldr (uncurry (fun (_ : option pystr) x acc =>
                         obj_id x :: inner_ids x ++ acc)) [] l.
Proof.
  intros Hx Hid. induction l as [|[k y] l IH]; [by apply elem_of_nil in Hx|].
  cbn [foldr uncurry]. rewrite elem_of_cons, elem_of_app.
  apply elem_of_cons in Hx as [[= <- <-]|Hx]; [tauto|].
  right. right. by apply IH.
Qed.

Lemma inner_ids_element (id0 : ident) (_type : Z) (value : list OTag)
    (x : OTag) (id : ident) :
  x ∈ value -> id = obj_id x \/ id ∈ inner_ids x ->
  id ∈ inner_ids (OList id0 _type value).
Proof. apply inner_ids_elements. Qed.

Lemma inner_ids_entry (id0 : ident) (value : gmap (option pystr) OTag)
    (key : option pystr) (x : OTag) (id : ident) :
  value !! key = Some x -> id = obj_id x \/ id ∈ inner_ids x ->
  id ∈ inner_ids (OCompound id0 value).
Proof.
  intros Hx Hid. cbn [inner_ids]. rewrite map_fold_foldr.
  apply (inner_ids_entries _ key x); [|done]. by apply elem_of_map_to_list.
Qed.

(** The tree of an object depends on the names of the object and of the
    objects inside it only. *)
Lemma view_inner (ns ns' : names) (n : nat) :
  forall t,
    (weight (view ns t) < n)%nat ->
    (forall id, id ∈ inner_ids t -> ns' id = ns id) ->
    view ns' t = set_name (ns' (obj_id t)) (view ns t).
Proof.
  induction n as [|n IH]; intros t Hn Hns; [lia|].
  assert (Hsub : forall x,
    (weight (view ns x) < weight (view ns t))%nat ->
    (forall id, id = obj_id x \/ id ∈ inner_ids x -> id ∈ inner_ids t) ->
    view ns' x = view ns x).
  { intros x Hw Hx. rewrite IH.
    - rewrite (Hns (obj_id x)) by (apply Hx; by left). apply set_name_view.
    - lia.
    - intros id Hid. apply Hns, Hx. by right. }
  destruct t as [id cls value|id _type value|id value];
    cbn [view set_name obj_id]; [done| |].
  - f_equal. apply map_ext_in. intros x Hx. apply list_elem_of_In in Hx.
    apply Hsub.
    + cbn [view]. apply weight_element. apply list_elem_of_fmap. by exists x.
    + intros id' Hid. by apply (inner_ids_element _ _ _ x).
  - f_equal. apply map_fmap_ext. intros key x Hx. apply Hsub.
    + cbn [view]. apply (weight_entry _ _ key). by rewrite lookup_fmap, Hx.
    + intros id' Hid. by apply (inner_ids_entry _ _ key x).
Qed.

(** X9.  A document built by [NBTFile(name=name, value=value)], with a name
    of at most 32767 characters, from well-formed tag objects without
    names under string keys of at most 32767 characters, none of which is
    stored under two keys or inside another of them: whatever the order in
    which the dictionary is gone through, each tag ends under its key with
    the key as name and is otherwise as it was, the document is the one
    that [NBTFile_new] gives on the trees of the objects, it is saved
    without an exception and loaded back as it is, in both byte orders. *)
Theorem built_document_round_trip (little_endian : bool) (self : ident)
    (name : pystr) (value : gmap (option pystr) OTag)
    (items : list (option pystr * ident)) (ns : names)
    (doc : OTag) (ns' : names) :
  NBTFile_new_objects self (Some name) (Some value) items ns = (doc, ns') ->
  items ≡ₚ map_to_list (obj_id <$> value) ->
  Z.of_nat (length name) <= 32767 ->
  (forall key x, value !! key = Some x ->
     (exists k, key = Some k /\ Z.of_nat (length k) <= 32767) /\
     ns (obj_id x) = None /\ well_formed (view ns x) = true) ->
  (forall key1 key2 x y,
     value !! key1 = Some x -> value !! key2 = Some y ->
     obj_id x = obj_id y -> key1 = key2) ->
  (forall key1 key2 x y,
     value !! key1 = Some x -> value !! key2 = Some y ->
     obj_id x ∉ inner_ids y) ->
  (forall key x, value !! key = Some x ->
     self <> obj_id x /\ self ∉ inner_ids x) ->
  exists d bs,
    view ns' doc = CompoundTag d (Some name) /\
    (forall key, d !! key = set_name key <$> (view ns <$> value !! key)) /\
    view ns' doc = NBTFile_new (Some name) (Some (view ns <$> value)) /\
    NBTFile_save (view ns' doc) little_endian = Ok bs /\
    NBTFile_load little_endian bs = Ok (view ns' doc, []).
Proof.
  intros [= <- <-] Hitems Hname Hvalue Honce Hflat Hself.
  cbn [default from_option id snd TAG_Compound_update_objects] in *.
  set (ns1 := assign ns self (Some name)).
  set (ns2 := name_items items ns1).
  assert (Hin : forall key id,
    (key, id) ∈ items <-> exists x, value !! key = Some x /\ id = obj_id x).
  { intros key id. rewrite Hitems, elem_of_map_to_list, lookup_fmap.
    destruct (value !! key) as [x|]; cbn.
    - split; [intros [= <-]; by exists x|by intros (? & [= <-] & ->)].
    - split; [done|by intros (? & ? & _)]. }
  assert (Hroot : ns2 self = Some name).
  { apply name_items_Some. unfold ns1, assign. by case_decide. }
  assert (Hns1 : forall id, id <> self -> ns1 id = ns id).
  { intros id H. unfold ns1, assign. by case_decide. }
  assert (Hentry : forall key x, value !! key = Some x ->
    view ns2 x = set_name key (view ns x)).
  { intros key x Hx.
    destruct (Hvalue key x Hx) as (_ & Hn & _).
    destruct (Hself key x Hx) as [Hs1 Hs2].
    assert (Hk : ns2 (obj_id x) = key).
    { destruct (name_items_key items ns1 (obj_id x)) as (key' & Hk' & Hr).
      - by rewrite Hns1.
      - apply list_elem_of_fmap. exists (key, obj_id x). split; [done|].
        apply Hin. by exists x.
      - fold ns2 in Hr. rewrite Hr.
        apply Hin in Hk' as (y & Hy & Hid). by apply (Honce key' key y x). }
    rewrite (view_inner ns ns2 (S (weight (view ns x)))), Hk;
      [done|lia|].
    intros id Hid. unfold ns2. rewrite name_items_other.
    - apply Hns1. intros ->. done.
    - intros Hi. apply list_elem_of_fmap in Hi as ([key' id'] & -> & Hi).
      apply Hin in Hi as (y & Hy & Hid'). cbn [snd] in *. subst id'.
      by apply (Hflat key' key y x). }
  assert (Hd : forall key,
    (view ns2 <$> value) !! key = set_name key <$> (view ns <$> value !! key)).
  { intros key. rewrite lookup_fmap.
    destruct (value !! key) as [x|] eqn:E; [|done]. cbn. f_equal.
    by apply Hentry. }
  assert (Hnew : CompoundTag (view ns2 <$> value) (Some name)
                 = NBTFile_new (Some name) (Some (view ns <$> value))).
  { unfold NBTFile_new, TAG_Compound___init__. cbn [default from_option id].
    f_equal.
    apply map_eq. intros key. rewrite Hd, TAG_Compound_update_lookup.
    rewrite (right_id ∅ (∪)), lookup_fmap.
    destruct (value !! key) as [x|] eqn:E; [|done]. cbn. f_equal.
    destruct (Hvalue key x E) as (_ & Hn & _).
    unfold name_from_key. by rewrite tag_name_view, Hn. }
  assert (Hwf : well_formed (CompoundTag (view ns2 <$> value) (Some name))
                = true).
  { cbn [well_formed tag_name name_ok].
    apply andb_true_intro. split; [by apply Z.leb_le|].
    apply (map_fold_andb (fun key x => entry_ok key x && well_formed x)).
    intros key x Hx. rewrite Hd in Hx.
    destruct (value !! key) as [y|] eqn:E; [|done]. injection Hx as <-.
    destruct (Hvalue key y E) as ((k & -> & Hk) & Hn & Hy).
    apply andb_true_intro. split.
    - unfold entry_ok. rewrite tag_name_set_name.
      apply andb_true_intro. split; by apply bool_decide_eq_true.
    - apply well_formed_set_name; [done|]. by apply Z.leb_le. }
  destruct (save_load little_endian _ _ Hwf) as (bs & Hs & Hl).
  exists (view ns2 <$> value), bs. cbn [view]. fold ns1. fold ns2.
  rewrite Hroot.
  split; [done|]. split; [done|]. split; [done|]. split; [done|].
  rewrite <- (app_nil_r bs). apply Hl.
Qed.


(** ** Entries and names *)

Section Filed.

Variable little_endian : bool.
Local Abbreviation o := (order_of little_endian).
Local Abbreviation rd := (reader little_endian).
Local Abbreviation wt := (writer little_endian).



End Filed.


(** ** What [write] refuses and what it emits *)

(** X12.  No tag whose name is longer than 32767 characters can be
    written: [write] raises [struct.error] on the length of the name. *)
Theorem write_long_name (little_endian : bool) (t : Tag) (n : pystr) :
  tag_name t = Some n -> 32767 < Z.of_nat (length n) ->
  write (writer little_endian) t = Raise struct_error.
Proof.
  intros Hn Hlen. rewrite write_split, Hn. cbn [write_header].
  pose proof (discriminant_range (class_of t)).
  rewrite write_byte by lia. cbn [rbind].
  unfold _write_utf8. cbv zeta. rewrite pack_len_s by done.
  unfold pack_value. cbn [code_size].
  rewrite pack_int_Raise; [done|]. right. unfold int_max. simpl. lia.
Qed.

(** X13.  A tag of an integer class is written exactly when its value is
    in the two's complement range of the width of the class, 1, 2, 4 or 8
    bytes; the payload has that width and unpacks to the value; outside
    the range [write] raises [struct.error]. *)
Theorem write_integer_range (little_endian : bool) (cls : ValueClass)
    (c : code) (z : Z) :
  STRUCT_FMT cls = Some c -> c <> c_f -> c <> c_d ->
  (int_min (code_size c) <= z <= int_max (code_size c) ->
   exists bs,
     write (writer little_endian) (PlainTag cls (PInt z) None) = Ok bs /\
     Z.of_nat (length bs) = code_size c /\
     unpack_int (order_of little_endian) (code_size c) bs = z) /\
  (z < int_min (code_size c) \/ int_max (code_size c) < z ->
   write (writer little_endian) (PlainTag cls (PInt z) None)
   = Raise struct_error).
Proof.
  intros Hc Hf Hd.
  assert (Hw : write (writer little_endian) (PlainTag cls (PInt z) None)
               = pack_int (order_of little_endian) (code_size c) z).
  { destruct cls; cbn [STRUCT_FMT] in Hc; try discriminate Hc;
      injection Hc as <-; try done;
      cbn [write STRUCT_FMT]; rewrite index_tags; cbn [rbind write_header];
      rewrite pack_scalar by done; unfold pack_value; cbn [code_size];
      by destruct (pack_int _ _ z). }
  assert (Hwidth : is_width (code_size c)).
  { unfold is_width.
    destruct cls; cbn [STRUCT_FMT] in Hc; try discriminate Hc;
      injection Hc as <-; try done; cbn; lia. }
  rewrite Hw. split.
  - intros Hz. rewrite pack_int_Ok by done. eexists. split; [done|]. split.
    + rewrite ordered_length, le_bytes_length.
      destruct Hwidth as [-> | [-> | [-> | ->]]]; done.
    + apply (unpack_pack_int _ _ z); [done|]. by apply pack_int_Ok.
  - apply pack_int_Raise.
Qed.

(** X14.  What [write] emits for a named tag starts with the tag byte of
    its class, and what it emits for a compound ends with a zero byte; so
    a named compound that is saved starts with 0x0A, and loading it is
    reading the compound that follows. *)
Theorem write_framing (little_endian : bool) (t : Tag) (bs : pystr) :
  write (writer little_endian) t = Ok bs ->
  (is_Some (tag_name t) ->
   exists bs', bs = chr (discriminant (class_of t)) :: bs') /\
  (class_of t = TAG_Compound -> exists bs', bs = bs' ++ [chr 0]) /\
  (is_Some (tag_name t) -> class_of t = TAG_Compound ->
   exists bs',
     NBTFile_save t little_endian = Ok (chr 10 :: bs') /\
     NBTFile_load little_endian (chr 10 :: bs')
     = TAG_read (reader little_endian) TAG_Compound true bs').
Proof.
  intros Hw.
  assert (H1 : is_Some (tag_name t) ->
               exists bs', bs = chr (discriminant (class_of t)) :: bs').
  { intros [n Hn]. rewrite write_split, Hn in Hw. cbn [write_header] in Hw.
    pose proof (discriminant_range (class_of t)).
    rewrite write_byte in Hw by lia. cbn [rbind] in Hw.
    destruct (_write_utf8 _ n) as [y| |]; cbn [rbind] in Hw; [|done..].
    destruct (write _ (set_name None t)) as [p| |]; cbn [rbind] in Hw; [|done..].
    injection Hw as <-. by eexists. }
  split; [done|]. split.
  - destruct t as [| |value name]; try done. intros _.
    cbn [write] in Hw.
    destruct (write_header _ 10 name) as [h| |]; cbn [rbind] in Hw; [|done..].
    destruct (map_fold _ _ value) as [xs| |]; cbn [rbind] in Hw; [|done..].
    rewrite write_byte in Hw by lia. cbn [rbind] in Hw. injection Hw as <-.
    exists (h ++ xs). by rewrite app_assoc.
  - intros Hn Hc. destruct (H1 Hn) as (bs' & ->). rewrite Hc in Hw.
    exists bs'. split; [exact Hw|]. apply load_after_first_byte.
Qed.

(** ** Single-precision numbers *)

Lemma shiftr_fields (x hi lo k : Z) :
  0 <= k -> 0 <= lo < 2 ^ k -> x = hi * 2 ^ k + lo -> Z.shiftr x k = hi.
Proof.
  intros Hk Hlo ->. rewrite Z.shiftr_div_pow2 by done.
  symmetry. apply (Z.div_unique_pos _ _ hi lo); lia.
Qed.

Lemma land_ones_fields (x hi lo k : Z) :
  0 <= k -> 0 <= lo < 2 ^ k -> x = hi * 2 ^ k + lo -> Z.land x (Z.ones k) = lo.
Proof.
  intros Hk Hlo ->. rewrite Z.land_ones by done.
  symmetry. apply (Z.mod_unique_pos _ _ hi lo); lia.
Qed.

(** The sign, exponent and fraction of a 32-bit pattern. *)
Lemma float_fields (s e m : Z) :
  0 <= s <= 1 -> 0 <= e < 256 -> 0 <= m < 2 ^ 23 ->
  Z.shiftr (s * 2 ^ 31 + e * 2 ^ 23 + m) 31 = s /\
  Z.land (Z.shiftr (s * 2 ^ 31 + e * 2 ^ 23 + m) 23) 255 = e /\
  Z.land (s * 2 ^ 31 + e * 2 ^ 23 + m) (Z.ones 23) = m.
Proof.
  intros Hs He Hm. split; [|split].
  - apply (shiftr_fields _ s (e * 2 ^ 23 + m)); lia.
  - rewrite (shiftr_fields _ (s * 2 ^ 8 + e) m 23) by lia.
    change 255 with (Z.ones 8). apply (land_ones_fields _ s e); lia.
  - apply (land_ones_fields _ (s * 2 ^ 8 + e) m); lia.
Qed.

Lemma double_fields (s e m : Z) :
  0 <= s <= 1 -> 0 <= e < 2048 -> 0 <= m < 2 ^ 52 ->
  Z.shiftr (s * 2 ^ 63 + e * 2 ^ 52 + m) 63 = s /\
  Z.land (Z.shiftr (s * 2 ^ 63 + e * 2 ^ 52 + m) 52) 2047 = e /\
  Z.land (s * 2 ^ 63 + e * 2 ^ 52 + m) (Z.ones 52) = m.
Proof.
  intros Hs He Hm. split; [|split].
  - apply (shiftr_fields _ s (e * 2 ^ 52 + m)); lia.
  - rewrite (shiftr_fields _ (s * 2 ^ 11 + e) m 52) by lia.
    change 2047 with (Z.ones 11). apply (land_ones_fields _ s e); lia.
  - apply (land_ones_fields _ (s * 2 ^ 11 + e) m); lia.
Qed.

Lemma float_decompose (w : Z) :
  0 <= w < 2 ^ 32 ->
  exists s e m, 0 <= s <= 1 /\ 0 <= e < 256 /\ 0 <= m < 2 ^ 23 /\
                w = s * 2 ^ 31 + e * 2 ^ 23 + m.
Proof.
  intros Hw. exists (w / 2 ^ 31), ((w / 2 ^ 23) mod 2 ^ 8), (w mod 2 ^ 23).
  pose proof (Z.div_mod w (2 ^ 23) ltac:(lia)) as H1.
  pose proof (Z.div_mod (w / 2 ^ 23) (2 ^ 8) ltac:(lia)) as H2.
  pose proof (Z.mod_pos_bound w (2 ^ 23) ltac:(lia)).
  pose proof (Z.mod_pos_bound (w / 2 ^ 23) (2 ^ 8) ltac:(lia)).
  assert (w / 2 ^ 23 / 2 ^ 8 = w / 2 ^ 31) as H3
    by (rewrite Z.div_div by lia; done).
  rewrite H3 in H2.
  assert (0 <= w / 2 ^ 31 <= 1).
  { split; [apply Z.div_pos; lia|].
    assert (w / 2 ^ 31 < 2); [apply Z.div_lt_upper_bound; lia|lia]. }
  change (2 ^ 8) with 256 in *. change (2 ^ 23) with 8388608 in *.
  change (2 ^ 31) with 2147483648 in *. lia.
Qed.

(** A double assembled from its fields, narrowed. *)
Lemma double_to_float_fields (s e m : Z) :
  0 <= s <= 1 -> 0 <= e < 2048 -> 0 <= m < 2 ^ 52 ->
  double_to_float (s * 2 ^ 63 + e * 2 ^ 52 + m) =
    if e =? 2047 then
      if m =? 0 then Some (s * 2 ^ 31 + 2139095040)
      else Some (s * 2 ^ 31 + Z.lor 2143289344 (Z.shiftr m 29))
    else
      let M := if e =? 0 then m else 2 ^ 52 + m in
      let E := if e =? 0 then -1074 else e - 1075 in
      let E' := Z.max (E + 29) (-149) in
      let w := Z.shiftl (E' + 149) 23 + round_shift M (E' - E) in
      if w <? 2139095040 then Some (s * 2 ^ 31 + w) else None.
Proof.
  intros Hs He Hm. unfold double_to_float.
  destruct (double_fields s e m Hs He Hm) as (-> & -> & ->).
  by rewrite Z.shiftl_mul_pow2.
Qed.

Lemma float_to_double_fields (s e m : Z) :
  0 <= s <= 1 -> 0 <= e < 256 -> 0 <= m < 2 ^ 23 ->
  float_to_double (s * 2 ^ 31 + e * 2 ^ 23 + m) =
    if e =? 255 then
      s * 2 ^ 63 + 2047 * 2 ^ 52
      + (if m =? 0 then 0 else Z.lor (2 ^ 51) (m * 2 ^ 29))
    else if e =? 0 then
      if m =? 0 then s * 2 ^ 63
      else s * 2 ^ 63 + (873 + (Z.log2 m + 1)) * 2 ^ 52
           + (m * 2 ^ (53 - (Z.log2 m + 1)) - 2 ^ 52)
    else s * 2 ^ 63 + (e + 896) * 2 ^ 52 + m * 2 ^ 29.
Proof.
  intros Hs He Hm. unfold float_to_double.
  destruct (float_fields s e m Hs He Hm) as (-> & -> & ->).
  destruct (e =? 255); [by rewrite !Z.shiftl_mul_pow2|].
  destruct (e =? 0).
  - destruct (Z.eqb_spec m 0) as [->|Hm0]; [by rewrite Z.shiftl_mul_pow2|].
    assert (Z.log2 m < 23) by (apply Z.log2_lt_pow2; lia).
    pose proof (Z.log2_nonneg m).
    rewrite !Z.shiftl_mul_pow2 by lia. done.
  - by rewrite !Z.shiftl_mul_pow2.
Qed.

Lemma round_shift_exact (q k : Z) :
  0 <= q -> 1 <= k -> round_shift (q * 2 ^ k) k = q.
Proof.
  intros Hq Hk. unfold round_shift.
  rewrite (shiftr_fields _ q 0 k) by lia.
  rewrite (land_ones_fields _ q 0 k) by lia.
  assert (0 < 2 ^ (k - 1)) by (apply Z.pow_pos_nonneg; lia).
  by destruct (Z.ltb_spec 0 (2 ^ (k - 1))); [|lia].
Qed.

Lemma land_pow2_below (a c k : Z) :
  0 <= k -> 0 <= c < 2 ^ k -> Z.land (a * 2 ^ k) c = 0.
Proof.
  intros Hk Hc. apply Z.bits_inj'. intros i Hi.
  rewrite Z.land_spec, Z.bits_0, <- Z.shiftl_mul_pow2 by done.
  destruct (Z.lt_ge_cases i k).
  - by rewrite Z.shiftl_spec_low.
  - destruct (Z.eq_dec c 0) as [->|Hc0]; [by rewrite Z.bits_0, andb_false_r|].
    rewrite (Z.bits_above_log2 c i), andb_false_r; [done|lia|].
    assert (Z.log2 c < k) by (apply Z.log2_lt_pow2; lia). lia.
Qed.

(** Adding below the low end of a multiple of [2^k] is a bitwise or. *)
Lemma add_lor_below (a c k : Z) :
  0 <= k -> 0 <= c < 2 ^ k -> a * 2 ^ k + c = Z.lor (a * 2 ^ k) c.
Proof.
  intros Hk Hc. pose proof (land_pow2_below a c k Hk Hc) as H.
  rewrite <- Z.lxor_lor by done. by apply Z.add_nocarry_lxor.
Qed.

Lemma lor_high (a c1 c2 k : Z) :
  0 <= k -> 0 <= c1 < 2 ^ k -> 0 <= c2 < 2 ^ k ->
  Z.lor (a * 2 ^ k + c1) c2 = a * 2 ^ k + Z.lor c1 c2.
Proof.
  intros Hk H1 H2.
  rewrite (add_lor_below a c1 k), <- Z.lor_assoc by done.
  symmetry. apply add_lor_below; [done|]. by apply lor_bound.
Qed.

(** Setting the top bit of a [k+1]-bit number. *)
Lemma lor_top_bit (c k : Z) :
  0 <= k -> 0 <= c < 2 ^ (k + 1) ->
  exists r, 0 <= r < 2 ^ k /\ Z.lor (2 ^ k) c = 2 ^ k + r /\
            (c = r \/ c = 2 ^ k + r).
Proof.
  intros Hk Hc.
  replace (2 ^ (k + 1)) with (2 * 2 ^ k) in Hc
    by (rewrite Z.pow_add_r by lia; lia).
  assert (Hadd : forall r, 0 <= r < 2 ^ k -> 2 ^ k + r = Z.lor (2 ^ k) r).
  { intros r Hr. pose proof (add_lor_below 1 r k Hk Hr) as H.
    by rewrite Z.mul_1_l in H. }
  destruct (Z.lt_ge_cases c (2 ^ k)) as [Hlt|Hge].
  - exists c. split; [lia|]. split; [|by left]. symmetry. apply Hadd. lia.
  - exists (c - 2 ^ k). split; [lia|]. split; [|right; lia].
    replace c with (2 ^ k + (c - 2 ^ k)) at 1 by lia.
    rewrite (Hadd (c - 2 ^ k)) by lia.
    by rewrite Z.lor_assoc, Z.lor_diag.
Qed.

Lemma widen_normal (s e m : Z) :
  0 <= s <= 1 -> 1 <= e < 255 -> 0 <= m < 2 ^ 23 ->
  double_to_float (s * 2 ^ 63 + (e + 896) * 2 ^ 52 + m * 2 ^ 29)
  = Some (s * 2 ^ 31 + e * 2 ^ 23 + m).
Proof.
  intros Hs He Hm. rewrite double_to_float_fields by lia.
  destruct (Z.eqb_spec (e + 896) 2047); [lia|].
  destruct (Z.eqb_spec (e + 896) 0); [lia|]. cbv zeta.
  rewrite Z.max_l by lia.
  replace (e + 896 - 1075 + 29 - (e + 896 - 1075)) with 29 by lia.
  replace (2 ^ 52 + m * 2 ^ 29) with ((2 ^ 23 + m) * 2 ^ 29) by lia.
  rewrite round_shift_exact by lia.
  rewrite Z.shiftl_mul_pow2 by lia.
  destruct (Z.ltb_spec ((e + 896 - 1075 + 29 + 149) * 2 ^ 23 + (2 ^ 23 + m))
              2139095040); [|lia].
  f_equal; lia.
Qed.

Lemma widen_zero (s : Z) :
  0 <= s <= 1 -> double_to_float (s * 2 ^ 63) = Some (s * 2 ^ 31).
Proof.
  intros Hs. replace (s * 2 ^ 63) with (s * 2 ^ 63 + 0 * 2 ^ 52 + 0) by lia.
  rewrite double_to_float_fields by lia. cbn [Z.eqb]. cbv zeta.
  replace (Z.max (-1074 + 29) (-149)) with (-149) by done.
  replace (round_shift 0 (-149 - -1074)) with 0 by (by vm_compute).
  change (Z.shiftl (-149 + 149) 23 + 0) with 0. cbn [Z.ltb Z.compare].
  f_equal; lia.
Qed.

Lemma widen_subnormal (s m : Z) :
  0 <= s <= 1 -> 1 <= m < 2 ^ 23 ->
  0 <= m * 2 ^ (53 - (Z.log2 m + 1)) - 2 ^ 52 < 2 ^ 52 /\
  double_to_float
    (s * 2 ^ 63 + (873 + (Z.log2 m + 1)) * 2 ^ 52
     + (m * 2 ^ (53 - (Z.log2 m + 1)) - 2 ^ 52))
  = Some (s * 2 ^ 31 + m).
Proof.
  intros Hs Hm.
  assert (Hl : 0 <= Z.log2 m < 23).
  { split; [apply Z.log2_nonneg|apply Z.log2_lt_pow2; lia]. }
  destruct (Z.log2_spec m ltac:(lia)) as [Hlo Hhi].
  set (k := Z.log2 m) in *.
  assert (Hp : 2 ^ k * 2 ^ (53 - (k + 1)) = 2 ^ 52).
  { rewrite <- Z.pow_add_r by lia. f_equal. lia. }
  assert (Hs2 : 2 ^ Z.succ k = 2 * 2 ^ k) by (rewrite Z.pow_succ_r; lia).
  assert (0 < 2 ^ k) by (apply Z.pow_pos_nonneg; lia).
  assert (0 < 2 ^ (53 - (k + 1))) by (apply Z.pow_pos_nonneg; lia).
  set (P := 2 ^ (53 - (k + 1))) in *. set (Q := 2 ^ k) in *.
  assert (Hb : 0 <= m * P - 2 ^ 52 < 2 ^ 52) by nia.
  split; [done|].
  rewrite double_to_float_fields by lia.
  destruct (Z.eqb_spec (873 + (k + 1)) 2047); [lia|].
  destruct (Z.eqb_spec (873 + (k + 1)) 0); [lia|]. cbv zeta.
  rewrite Z.max_r by lia.
  replace (2 ^ 52 + (m * P - 2 ^ 52)) with (m * P) by lia.
  replace (-149 - (873 + (k + 1) - 1075)) with (53 - (k + 1)) by lia.
  unfold P. rewrite round_shift_exact by lia.
  change (Z.shiftl (-149 + 149) 23) with 0.
  destruct (Z.ltb_spec (0 + m) 2139095040); [|lia].
  f_equal; lia.
Qed.

Lemma widen_inf (s : Z) :
  0 <= s <= 1 ->
  double_to_float (s * 2 ^ 63 + 2047 * 2 ^ 52 + 0)
  = Some (s * 2 ^ 31 + 255 * 2 ^ 23 + 0).
Proof.
  intros Hs. rewrite double_to_float_fields by lia. cbn [Z.eqb Pos.eqb].
  f_equal; lia.
Qed.

Lemma widen_nan (s m : Z) :
  0 <= s <= 1 -> 1 <= m < 2 ^ 23 ->
  exists y m',
    2 ^ 51 <= y < 2 ^ 52 /\ 2 ^ 22 <= m' < 2 ^ 23 /\
    Z.lor (2 ^ 51) (m * 2 ^ 29) = y /\
    double_to_float (s * 2 ^ 63 + 2047 * 2 ^ 52 + y)
    = Some (s * 2 ^ 31 + 255 * 2 ^ 23 + m') /\
    Z.lor (2 ^ 51) (m' * 2 ^ 29) = y.
Proof.
  intros Hs Hm.
  destruct (lor_top_bit m 22 ltac:(lia) ltac:(simpl; lia))
    as (r & Hr & Hlor & Hcase).
  assert (Hy : Z.lor (2 ^ 51) (m * 2 ^ 29) = (2 ^ 22 + r) * 2 ^ 29).
  { replace (2 ^ 51) with (2 ^ 22 * 2 ^ 29) by lia.
    rewrite <- !Z.shiftl_mul_pow2, <- Z.shiftl_lor, Hlor by lia. done. }
  assert (Hm' : Z.lor (2 ^ 51) ((2 ^ 22 + r) * 2 ^ 29) = (2 ^ 22 + r) * 2 ^ 29).
  { replace (2 ^ 51) with (2 ^ 22 * 2 ^ 29) by lia.
    rewrite <- !Z.shiftl_mul_pow2, <- Z.shiftl_lor by lia.
    rewrite <- Hlor at 1. by rewrite Z.lor_assoc, Z.lor_diag, Hlor. }
  exists ((2 ^ 22 + r) * 2 ^ 29), (2 ^ 22 + r).
  split; [lia|]. split; [lia|]. split; [done|]. split; [|done].
  rewrite double_to_float_fields by lia. cbn [Z.eqb Pos.eqb].
  destruct (Z.eqb_spec ((2 ^ 22 + r) * 2 ^ 29) 0); [lia|].
  rewrite (shiftr_fields _ (2 ^ 22 + r) 0 29) by lia.
  change 2143289344 with (255 * 2 ^ 23 + 2 ^ 22).
  rewrite lor_high by lia.
  rewrite <- Hlor at 1. rewrite Z.lor_assoc, Z.lor_diag, Hlor.
  f_equal; lia.
Qed.

(** Every double that comes from four bytes is a 64-bit pattern that
    narrowing and widening leave as it is. *)
Lemma float_exact_widen (w : Z) :
  0 <= w < 2 ^ 32 ->
  0 <= float_to_double w < 2 ^ 64 /\ float_exact (float_to_double w) = true.
Proof.
  intros Hw. destruct (float_decompose w Hw) as (s & e & m & Hs & He & Hm & ->).
  rewrite float_to_double_fields by done.
  destruct (Z.eqb_spec e 255) as [->|He255].
  - destruct (Z.eqb_spec m 0) as [->|Hm0].
    + split; [lia|]. unfold float_exact. rewrite widen_inf by done.
      rewrite float_to_double_fields by lia. by apply Z.eqb_eq.
    + destruct (widen_nan s m Hs ltac:(lia))
        as (y & m' & Hy & Hm' & -> & Hn & Hw').
      split; [lia|]. unfold float_exact. rewrite Hn.
      rewrite float_to_double_fields by lia. cbn [Z.eqb Pos.eqb].
      destruct (Z.eqb_spec m' 0); [lia|]. rewrite Hw'. by apply Z.eqb_eq.
  - destruct (Z.eqb_spec e 0) as [->|He0].
    + destruct (Z.eqb_spec m 0) as [->|Hm0].
      * split; [lia|]. unfold float_exact. rewrite widen_zero by done.
        replace (s * 2 ^ 31) with (s * 2 ^ 31 + 0 * 2 ^ 23 + 0) by lia.
        rewrite float_to_double_fields by lia. by apply Z.eqb_eq.
      * destruct (widen_subnormal s m Hs ltac:(lia)) as (Hb & Hn).
        assert (Hl : 0 <= Z.log2 m < 23).
        { split; [apply Z.log2_nonneg|apply Z.log2_lt_pow2; lia]. }
        split; [lia|]. unfold float_exact. rewrite Hn.
        replace (s * 2 ^ 31 + m) with (s * 2 ^ 31 + 0 * 2 ^ 23 + m) by lia.
        rewrite float_to_double_fields by lia. cbn [Z.eqb].
        destruct (Z.eqb_spec m 0); [lia|]. by apply Z.eqb_eq.
    + split; [lia|]. unfold float_exact. rewrite widen_normal by lia.
      rewrite float_to_double_fields by lia.
      destruct (Z.eqb_spec e 255); [lia|].
      destruct (Z.eqb_spec e 0); [lia|]. by apply Z.eqb_eq.
Qed.

(** ** Trees that were read *)

Lemma list_items_inv (ri : M Tag) (n : nat) (s : pystr) (l : list Tag)
    (s' : pystr) :
  list_items ri n s = Ok (l, s') ->
  length l = n /\ Forall (fun x => exists s1 s2, ri s1 = Ok (x, s2)) l.
Proof.
  revert s l. induction n as [|n IH]; intros s l; cbn [list_items].
  - by intros [= <- <-].
  - intros H. apply bind_Ok_inv in H as (x & s1 & Hx & H).
    apply bind_Ok_inv in H as (xs & s2 & Hxs & H). injection H as <- <-.
    destruct (IH _ _ Hxs) as [Hlen Hall]. split; [simpl; lia|].
    apply Forall_cons. split; [by exists s, s1|done].
Qed.

Section WellFormedRead.

Variable little_endian : bool.
Local Abbreviation o := (order_of little_endian).
Local Abbreviation rd := (reader little_endian).
Local Abbreviation wt := (writer little_endian).

Lemma compound_loop_inv (rc : TagClass -> M Tag) (k : nat) (final d : dict)
    (s rest : pystr) :
  compound_loop rd rc k final s = Ok (d, rest) ->
  exists xs, d = foldl store final xs /\
             Forall (fun x => exists c s1 s2, rc c s1 = Ok (x, s2)) xs.
Proof.
  revert final s. induction k as [|k IH]; intros final s H; [done|].
  cbn [compound_loop] in H.
  apply bind_Ok_inv in H as (t & s1 & _ & H).
  apply bind_Ok_inv in H as (tag & s2 & _ & H).
  destruct (tag =? 0).
  - injection H as <- <-. by exists [].
  - apply bind_Ok_inv in H as (entry & s3 & _ & H).
    apply bind_Ok_inv in H as (tmp & s4 & H2 & H).
    destruct (IH _ _ H) as (xs & -> & Hxs).
    exists (tmp :: xs). split; [done|].
    apply Forall_cons. split; [|done].
    destruct entry as [c|]; [|done]. by exists c, s3, s4.
Qed.

(** What [unpack] returns for a scalar class fits the class. *)
Lemma unpack_value_ok (cls : ValueClass) (c : code) (bs : pystr) :
  STRUCT_FMT cls = Some c -> Z.of_nat (length bs) = code_size c ->
  value_ok cls (unpack_value o c bs) = true.
Proof.
  intros Hc Hbs.
  destruct cls; cbn [STRUCT_FMT] in Hc; try discriminate Hc;
    injection Hc as <-; unfold unpack_value; cbn [value_ok code_size] in *.
  1-4: match goal with |- context [unpack_int _ ?w _] =>
         assert (Hw : is_width w) by (unfold is_width; lia);
         pose proof (unpack_int_range o w bs Hw Hbs) as Hr
       end;
       unfold int_min, int_max in Hr; simpl in Hr;
       apply andb_true_intro; split; apply Z.leb_le; lia.
  - pose proof (le_value_range (ordered o bs)) as Hr.
    rewrite ordered_length in Hr.
    replace (Z.of_nat (length bs)) with 4 in Hr.
    change (256 ^ 4) with (2 ^ 32) in Hr.
    destruct (float_exact_widen _ Hr) as [Hd He].
    rewrite He, andb_true_r. apply andb_true_intro.
    split; [apply Z.leb_le|apply Z.ltb_lt]; lia.
  - pose proof (le_value_range (ordered o bs)) as Hr.
    rewrite ordered_length in Hr.
    replace (Z.of_nat (length bs)) with 8 in Hr.
    change (256 ^ 8) with (2 ^ 64) in Hr.
    apply andb_true_intro. split; [apply Z.leb_le|apply Z.ltb_lt]; lia.
Qed.


Lemma read_name_ok (has_name : bool) (s : pystr) (name : option pystr)
    (s1 : pystr) :
  read_name rd has_name s = Ok (name, s1) ->
  name_ok name = true /\ (if has_name then is_Some name else name = None).
Proof.
  intros H. apply read_name_Ok_inv in H. destruct has_name.
  - destruct H as (x & n & _ & _ & -> & _ & Hle).
    split; [by apply Z.leb_le|by eexists].
  - by destruct H as [-> _].
Qed.

Lemma read_well_formed (fuel : nat) :
  forall (cls : TagClass) (has_name : bool) (s : pystr) (t : Tag)
         (rest : pystr),
    read rd fuel cls has_name s = Ok (t, rest) ->
    int_array_free t = true -> well_formed t = true.
Proof.
  induction fuel as [|fuel IH]; intros cls has_name s t rest H Hfree; [done|].
  cbn [read] in H. apply bind_Ok_inv in H as (name & s1 & Hname & H).
  apply read_name_ok in Hname as [Hname _].
  destruct cls as [c| |].
  - destruct c; cbn [STRUCT_FMT] in H.
    1-6: apply bind_Ok_inv in H as (t1 & s2 & H1 & H);
         apply bind_Ok_inv in H as (value & s3 & Hv & H);
         injection H as <- _;
         apply reader_Ok_inv in H1 as (x & _ & Hx & _ & ->);
         apply lift_Ok_inv in Hv as [Hv _];
         cbn [fmt_size foldr item_size] in Hx;
         rewrite unpack_items_scalar in Hv by (done || lia);
         injection Hv as <-;
         cbn [well_formed tag_name]; rewrite Hname; cbn [andb];
         apply unpack_value_ok; [done|lia].
    + (* TAG_Byte_Array *)
      apply bind_Ok_inv in H as (t1 & s2 & H1 & H).
      apply bind_Ok_inv in H as (n & s3 & Hn & H).
      apply bind_Ok_inv in H as (t2 & s4 & H2 & H).
      apply bind_Ok_inv in H as (value & s5 & Hv & H).
      injection H as <- _.
      apply reader_Ok_inv in H1 as (x & _ & Hx & _ & ->).
      change (fmt_size [Item 1 c_i]) with 4 in Hx.
      apply lift_Ok_inv in Hn as [Hn _].
      rewrite unpack_items_scalar in Hn by done.
      unfold unpack_value in Hn. cbn [unpack1_int code_size] in Hn.
      injection Hn as <-.
      apply reader_Ok_inv in H2 as (c & _ & Hc & Hok & ->).
      cbn [fmt_size foldr item_size code_size forallb item_ok] in Hc, Hok.
      rewrite andb_true_r in Hok. apply Z.leb_le in Hok.
      apply lift_Ok_inv in Hv as [Hv _].
      rewrite unpack_items_s in Hv by lia. injection Hv as <-.
      cbn [well_formed tag_name value_ok]. rewrite Hname. cbn [andb].
      pose proof (unpack_int_range o 4 x ltac:(unfold is_width; lia) Hx) as Hr.
      unfold int_max in Hr. simpl in Hr. apply Z.leb_le. lia.
    + (* TAG_String *)
      apply bind_Ok_inv in H as (value & s2 & Hv & H). injection H as <- _.
      apply read_utf8_Ok_inv in Hv as (x & _ & _ & _ & Hle).
      cbn [well_formed tag_name value_ok]. rewrite Hname. cbn [andb].
      by apply Z.leb_le.
    + (* TAG_Int_Array *)
      apply bind_Ok_inv in H as (t1 & s2 & _ & H).
      apply bind_Ok_inv in H as (n & s3 & _ & H).
      apply bind_Ok_inv in H as (t2 & s4 & _ & H).
      apply bind_Ok_inv in H as (value & s5 & _ & H).
      injection H as <- _. cbn [int_array_free] in Hfree.
      by rewrite bool_decide_eq_true_2 in Hfree.
  - (* TAG_List *)
    apply bind_Ok_inv in H as (t1 & s2 & H1 & H).
    apply bind_Ok_inv in H as ([tag_type n] & s3 & Hn & H).
    apply bind_Ok_inv in H as (real_type & s4 & Hty & H).
    apply bind_Ok_inv in H as (value & s5 & Hv & H).
    apply lift_Ok_inv in H as [H _]. cbn [TAG_List___init__] in H.
    injection H as <-.
    apply lift_Ok_inv in Hty as [Hty _].
    apply list_items_inv in Hv as [Hlen Hall].
    (* the count is a signed 32-bit integer *)
    assert (Hcount : n <= 2147483647).
    { apply reader_Ok_inv in H1 as (x & _ & Hx & _ & ->).
      apply lift_Ok_inv in Hn as [Hn _].
      change (fmt_size [Item 1 c_b; Item 1 c_i]) with 5 in Hx.
      cbn [unpack_items unpack_rep Z.to_nat Pos.to_nat Pos.iter_op Nat.add
           fst snd app] in Hn.
      unfold unpack_value in Hn. cbn [unpack2_int code_size] in Hn.
      injection Hn as _ <-.
      match goal with |- unpack_int _ _ ?y <= _ =>
        destruct (decide (Z.of_nat (length y) = 4)) as [Hy|Hy]
      end.
      - pose proof (unpack_int_range o 4 _ ltac:(unfold is_width; lia) Hy)
          as Hr.
        unfold int_max in Hr. simpl in Hr. lia.
      - exfalso. apply Hy. rewrite length_take, length_drop. lia. }
    cbn [well_formed tag_name]. rewrite Hname. cbn [andb].
    cbn [int_array_free] in Hfree. rewrite forallb_forall in Hfree.
    apply andb_true_intro. split; [apply andb_true_intro; split|].
    + apply Z.leb_le. lia.
    + unfold type_ok. by rewrite Hty.
    + apply forallb_forall. intros x Hx.
      apply list_elem_of_In in Hx.
      pose proof (proj1 (Forall_forall _ _) Hall x Hx) as (sa & sb & Hread).
      destruct real_type as [c|]; [|done]. cbn [read_entry] in Hread.
      pose proof (read_class_name little_endian _ _ _ _ _ _ Hread)
        as [Hcls (sc & Hnone)].
      injection Hnone as Hnone _.
      apply andb_true_intro. split.
      * unfold element_ok. rewrite Hty, <- Hnone, Hcls.
        by rewrite !bool_decide_eq_true_2.
      * apply (IH _ _ _ _ _ Hread). apply Hfree. by apply list_elem_of_In.
  - (* TAG_Compound *)
    apply bind_Ok_inv in H as (final & s2 & Hloop & H). injection H as <- _.
    apply compound_loop_inv in Hloop as (xs & -> & Hall).
    unfold TAG_Compound___init__ in *.
    rewrite TAG_Compound_update_keys in * by apply foldl_store_keys.
    cbn [well_formed tag_name]. rewrite Hname. cbn [andb].
    cbn [int_array_free] in Hfree.
    rewrite (map_fold_andb (fun _ x => int_array_free x)) in Hfree.
    rewrite (map_fold_andb (fun key x => entry_ok key x && well_formed x)).
    intros key x Hx. specialize (Hfree _ _ Hx).
    pose proof (foldl_store_keys _ _ _ Hx) as Hkey.
    rewrite lookup_foldl_store, lookup_empty in Hx.
    destruct (last _) as [y|] eqn:Hlast; [|done]. injection Hx as ->.
    apply last_Some_elem_of, list_elem_of_filter in Hlast as [_ Hin].
    pose proof (proj1 (Forall_forall _ _) Hall x Hin) as (c & sa & sb & Hread).
    pose proof (read_class_name little_endian _ _ _ _ _ _ Hread)
      as [_ (sc & Hsome)].
    apply read_name_ok in Hsome as [_ Hsome].
    apply andb_true_intro. split; [|by apply (IH _ _ _ _ _ Hread)].
    unfold entry_ok. rewrite <- Hkey. by rewrite !bool_decide_eq_true_2.
Qed.

End WellFormedRead.

Section Decoded.

Variable little_endian : bool.
Local Abbreviation o := (order_of little_endian).
Local Abbreviation rd := (reader little_endian).
Local Abbreviation wt := (writer little_endian).

(** What [NBTFile] makes of a stream is the compound [read] returns. *)
Lemma NBTFile_load_Ok_inv (s : pystr) (t : Tag) (rest : pystr) :
  NBTFile_load little_endian s = Ok (t, rest) ->
  exists c s', s = c :: s' /\
               TAG_read rd TAG_Compound true s' = Ok (t, rest) /\
               exists value name, t = CompoundTag value (Some name).
Proof.
  unfold NBTFile_load. intros H.
  apply bind_Ok_inv in H as (t1 & s1 & H1 & H).
  apply bind_Ok_inv in H as (first & s2 & Hf & H).
  apply lift_Ok_inv in Hf as [_ ->].
  destruct (negb _); [done|].
  apply bind_Ok_inv in H as (tmp & s3 & Hread & H).
  apply reader_Ok_inv in H1 as (x & -> & Hx & _ & _).
  change (fmt_size [Item 1 c_b]) with 1 in Hx.
  destruct x as [|c [|? ?]]; simpl in Hx; try lia.
  exists c, s1. split; [done|].
  pose proof Hread as Hshape. unfold TAG_read in Hshape.
  pose proof (read_class_name little_endian _ _ _ _ _ _ Hshape)
    as [_ (sc & Hsome)].
  apply read_name_ok in Hsome as [_ [n Hn]].
  apply read_compound_shape in Hshape as (xs & Hshape).
  rewrite Hshape in H. unfold TAG_Compound___init__ in H.
  rewrite TAG_Compound_update_keys in H by apply foldl_store_keys.
  rewrite <- Hshape in H. injection H as <- <-.
  split; [done|]. rewrite Hshape, Hn. by eexists _, _.
Qed.

End Decoded.

(** X15.  A tree that [read] returns, if it holds no [TAG_Int_Array], is
    one the format can carry: every name and string is at most 32767
    characters long, every number fits the field of its class, every float
    is a single-precision value, the elements of a list have no name and are
    of the class its type byte selects, and the entries of a compound are
    filed under their own names. *)
Theorem read_well_formed_tree (little_endian : bool) (cls : TagClass)
    (has_name : bool) (s : pystr) (t : Tag) (rest : pystr) :
  TAG_read (reader little_endian) cls has_name s = Ok (t, rest) ->
  int_array_free t = true ->
  well_formed t = true.
Proof. unfold TAG_read. apply read_well_formed. Qed.

(** X16.  A document that was loaded and holds no [TAG_Int_Array] is saved
    without an exception, and loading what was saved gives the same
    document again, whatever follows it in the stream. *)
Theorem load_save_load (little_endian : bool) (s : pystr) (t : Tag)
    (rest : pystr) :
  NBTFile_load little_endian s = Ok (t, rest) ->
  int_array_free t = true ->
  exists bs,
    NBTFile_save t little_endian = Ok bs /\
    forall rest', NBTFile_load little_endian (bs ++ rest') = Ok (t, rest').
Proof.
  intros H Hfree.
  apply NBTFile_load_Ok_inv in H as (c & s' & _ & Hread & value & name & ->).
  unfold TAG_read in Hread.
  apply (save_load little_endian).
  by apply (read_well_formed little_endian _ _ _ _ _ _ Hread).
Qed.

(** ** Single-precision values *)

Section Floats.

Variable little_endian : bool.
Local Abbreviation o := (order_of little_endian).
Local Abbreviation rd := (reader little_endian).
Local Abbreviation wt := (writer little_endian).

(** The four characters of a float, read as a [TAG_Float]. *)
Lemma reads_float (w : Z) :
  0 <= w < 2 ^ 32 ->
  reads (TAG_read rd TAG_Float false) (ordered o (le_bytes 4 w))
        (PlainTag TAG_Float (PFloat (float_to_double w)) None).
Proof.
  intros Hw. apply (reads_TAG_read little_endian 1). cbn [read read_name].
  assert (Hlen : Z.of_nat (length (ordered o (le_bytes 4 w))) = code_size c_f).
  { by rewrite ordered_length, le_bytes_length. }
  pose proof (reads_scalar little_endian c_f _ ltac:(done) Hlen) as Hr.
  unfold unpack_value in Hr.
  rewrite ordered_involutive, le_value_le_bytes in Hr by lia.
  change (256 ^ Z.of_nat 4) with (2 ^ 32) in Hr.
  rewrite Z.mod_small in Hr by done.
  intros rest. cbn [STRUCT_FMT]. unfold bind at 1. cbn [ret].
  by rewrite (bind_Ok _ _ _ _ _ (Hr rest)).
Qed.

Lemma write_float (d : Z) :
  write wt (PlainTag TAG_Float (PFloat d) None) =
    match double_to_float d with
    | Some w => Ok (ordered o (le_bytes 4 w))
    | None => Raise OverflowError
    end.
Proof.
  cbn [write STRUCT_FMT]. 
  replace (index _tags (Some (Plain TAG_Float))) with (Ok 5 : result Z)
    by (vm_compute; reflexivity).
  cbn [rbind write_header]. rewrite pack_scalar by done.
  unfold pack_value. by destruct (double_to_float d).
Qed.

End Floats.

(** X17.  A [TAG_Float] keeps single precision only.  Writing narrows the
    value to a float, or raises [OverflowError] when a finite value is too
    large for one; reading gives back the narrowed value, and from then on
    writing and reading change nothing. *)
Theorem float_single_precision (little_endian : bool) (d : Z) :
  0 <= d < 2 ^ 64 ->
  match double_to_float d with
  | None =>
      write (writer little_endian) (PlainTag TAG_Float (PFloat d) None)
      = Raise OverflowError
  | Some w =>
      let t' := PlainTag TAG_Float (PFloat (float_to_double w)) None in
      (exists bs,
         write (writer little_endian) (PlainTag TAG_Float (PFloat d) None)
         = Ok bs /\
         forall rest,
           TAG_read (reader little_endian) TAG_Float false (bs ++ rest)
           = Ok (t', rest)) /\
      (exists bs',
         write (writer little_endian) t' = Ok bs' /\
         forall rest,
           TAG_read (reader little_endian) TAG_Float false (bs' ++ rest)
           = Ok (t', rest))
  end.
Proof.
  intros Hd. destruct (double_to_float d) as [w|] eqn:Hw.
  - pose proof (double_to_float_range d w Hd Hw) as Hr.
    destruct (float_exact_widen w Hr) as [Hr' He].
    split.
    + exists (ordered (order_of little_endian) (le_bytes 4 w)).
      split; [by rewrite write_float, Hw|]. by apply reads_float.
    + unfold float_exact in He.
      destruct (double_to_float (float_to_double w)) as [w'|] eqn:Hw';
        [|done].
      apply Z.eqb_eq in He.
      pose proof (double_to_float_range _ w' Hr' Hw') as Hr''.
      exists (ordered (order_of little_endian) (le_bytes 4 w')).
      split; [by rewrite write_float, Hw'|].
      rewrite <- He. by apply reads_float.
  - by rewrite write_float, Hw.
Qed.

(** ** Termination *)

Lemma NBTFile_load_not_OutOfFuel (little_endian : bool) (s : pystr) :
  NBTFile_load little_endian s <> OutOfFuel.
Proof.
  unfold NBTFile_load, bind, throw, ret.
  pose proof (reader_not_OutOfFuel little_endian [Item 1 c_b] s) as H1.
  destruct (reader little_endian [Item 1 c_b] s) as [[t1 s1]| |]; [|done..].
  pose proof (getitem_not_OutOfFuel t1 0) as H2. unfold lift.
  destruct (getitem t1 0) as [first| |]; [|done..]. cbn [rbind].
  destruct (pyval_eqb first (PInt 10)); cbn [negb]; [|done].
  pose proof (TAG_read_not_OutOfFuel little_endian TAG_Compound true s1) as H3.
  destruct (TAG_read _ _ _ s1) as [[[] s2]| |]; done.
Qed.

(** X18.  Reading ends on every stream: neither the loop over the entries
    of a compound nor the nesting of tags goes on for ever, whatever the
    characters are.  The outcome is a tag or an exception, and it is the
    outcome of [read] under every bound on the nesting that [read] stays
    within. *)
Theorem read_terminates (little_endian : bool) (cls : TagClass)
    (has_name : bool) (s : pystr) :
  TAG_read (reader little_endian) cls has_name s <> OutOfFuel /\
  NBTFile_load little_endian s <> OutOfFuel /\
  forall fuel,
    read (reader little_endian) fuel cls has_name s <> OutOfFuel ->
    read (reader little_endian) fuel cls has_name s
    = TAG_read (reader little_endian) cls has_name s.
Proof.
  split; [apply TAG_read_not_OutOfFuel|].
  split; [apply NBTFile_load_not_OutOfFuel|].
  intros fuel H. symmetry. by apply TAG_read_fuel.
Qed.

(** ** The further properties on examples *)

Lemma read_returns_requested_witness :
  TAG_read (reader false) TAG_Short true
    ([chr 0; chr 1] ++ b "n" ++ [chr 1; chr 2; chr 9])
  = Ok (PlainTag TAG_Short (PInt 258) (Some (b "n")), [chr 9]) /\
  class_of (PlainTag TAG_Short (PInt 258) (Some (b "n"))) = TAG_Short.
Proof.
  assert (H : TAG_read (reader false) TAG_Short true
                ([chr 0; chr 1] ++ b "n" ++ [chr 1; chr 2; chr 9])
              = Ok (PlainTag TAG_Short (PInt 258) (Some (b "n")), [chr 9]))
    by (vm_compute; reflexivity).
  split; [exact H|].
  exact (proj1 (read_returns_requested false _ _ _ _ _ H)).
Defined.

Lemma compound_tag_byte_witness :
  -128 <= 12 <= 127 /\
  compound_loop (reader false) (fun c => TAG_read (reader false) c true) 1 ∅
    (chr 12 :: b "rest")
  = Raise IndexError.
Proof.
  assert (Hb : -128 <= 12 <= 127) by lia.
  split; [exact Hb|].
  apply (proj1 (compound_tag_byte false _ 0 ∅ 12 (b "rest") Hb)).
  right. reflexivity.
Defined.

Lemma list_element_type_witness :
  11 < unpack_int BigEndian 1 [chr 12] /\
  TAG_read (reader false) TAG_List false
    ([] ++ [chr 12] ++ [chr 0; chr 0; chr 0; chr 0] ++ b "rest")
  = Raise IndexError.
Proof.
  assert (Hty : 11 < unpack_int BigEndian 1 [chr 12])
    by (vm_compute; reflexivity).
  split; [exact Hty|].
  apply (proj1 (list_element_type false false [] None [chr 12]
                  [chr 0; chr 0; chr 0; chr 0] (b "rest")
                  (reads_read_name_None false) eq_refl eq_refl)).
  right. exact Hty.
Defined.

Lemma read_int_array_witness :
  unpack_int BigEndian 4 [chr 0; chr 0; chr 0; chr 0] = 0 /\
  TAG_read (reader false) TAG_Int_Array false
    ([] ++ [chr 0; chr 0; chr 0; chr 0] ++ b "rest")
  = Raise IndexError.
Proof.
  assert (Hn : unpack_int BigEndian 4 [chr 0; chr 0; chr 0; chr 0] = 0)
    by (vm_compute; reflexivity).
  split; [exact Hn|].
  destruct (read_int_array false false [] None [chr 0; chr 0; chr 0; chr 0]
              (reads_read_name_None false) eq_refl) as (_ & H & _).
  apply (H Hn).
Defined.

Lemma read_int_array_not_writable_witness :
  TAG_read (reader false) TAG_Int_Array false
    [chr 0; chr 0; chr 0; chr 1; chr 0; chr 0; chr 0; chr 7]
  = Ok (PlainTag TAG_Int_Array (PInt 7) None, []) /\
  write (writer false) (PlainTag TAG_Int_Array (PInt 7) None) = Raise TypeError.
Proof.
  assert (H : TAG_read (reader false) TAG_Int_Array false
                [chr 0; chr 0; chr 0; chr 1; chr 0; chr 0; chr 0; chr 7]
              = Ok (PlainTag TAG_Int_Array (PInt 7) None, []))
    by (vm_compute; reflexivity).
  split; [exact H|].
  exact (read_int_array_not_writable false _ _ _ _ H).
Defined.

Lemma read_byte_array_witness :
  Z.of_nat (length (b "ab")) = unpack_int BigEndian 4 [chr 0; chr 0; chr 0; chr 2] /\
  TAG_read (reader false) TAG_Byte_Array false
    ([] ++ [chr 0; chr 0; chr 0; chr 2] ++ b "ab" ++ b "rest")
  = Ok (PlainTag TAG_Byte_Array (PStr (b "ab")) None, b "rest").
Proof.
  assert (Hn : Z.of_nat (length (b "ab"))
               = unpack_int BigEndian 4 [chr 0; chr 0; chr 0; chr 2])
    by (vm_compute; reflexivity).
  split; [exact Hn|].
  destruct (read_byte_array false false [] None [chr 0; chr 0; chr 0; chr 2]
              (reads_read_name_None false) eq_refl) as (_ & H).
  apply (H (b "ab") (b "rest") Hn).
Defined.

Lemma TAG_Compound_update_names_witness :
  exists key,
    ({[ Some (b "a") := 1%positive; Some (b "b") := 1%positive ]}
     ∪ (∅ : gmap (option pystr) ident)) !! key = Some 1%positive /\
    name_items
      (map_to_list ({[ Some (b "a") := 1%positive; Some (b "b") := 1%positive ]}
                    ∪ (∅ : gmap (option pystr) ident)))
      (fun _ => None) 1%positive = key.
Proof.
  destruct (TAG_Compound_update_names ∅
              {[ Some (b "a") := 1%positive; Some (b "b") := 1%positive ]}
              _ _ (fun _ => None) _ eq_refl (reflexivity _))
    as (_ & _ & _ & H & _).
  apply (H 1%positive (Some (b "a")) eq_refl). vm_compute. reflexivity.
Defined.

Lemma built_document_round_trip_witness :
  exists bs,
    NBTFile_save
      (CompoundTag
         {[ Some (b "hp") := PlainTag TAG_Short (PInt 20) (Some (b "hp"));
            Some (b "mp") := PlainTag TAG_Short (PInt 20) (Some (b "mp")) ]}
         (Some (b "root")))
      false = Ok bs /\
    NBTFile_load false bs
    = Ok (CompoundTag
            {[ Some (b "hp") := PlainTag TAG_Short (PInt 20) (Some (b "hp"));
               Some (b "mp") := PlainTag TAG_Short (PInt 20) (Some (b "mp")) ]}
            (Some (b "root")), []).
Proof.
  set (value := ({[ Some (b "hp") := OPlain 1%positive TAG_Short (PInt 20);
                    Some (b "mp") := OPlain 2%positive TAG_Short (PInt 20) ]}
                 : gmap (option pystr) OTag)).
  assert (Hvalue : forall key x, value !! key = Some x ->
    (key = Some (b "hp") /\ x = OPlain 1%positive TAG_Short (PInt 20)) \/
    (key = Some (b "mp") /\ x = OPlain 2%positive TAG_Short (PInt 20))).
  { intros key x H. apply lookup_insert_Some in H as [[<- <-]|[_ H]]; [by left|].
    apply lookup_singleton_Some in H as [<- <-]. by right. }
  destruct (built_document_round_trip false 3%positive (b "root") value
              (map_to_list (obj_id <$> value)) (fun _ => None) _ _ eq_refl
              (reflexivity _))
    as (d & bs & Hd & _ & Hnew & Hs & Hl).
  - vm_compute. discriminate.
  - intros key x H.
    destruct (Hvalue key x H) as [[-> ->]|[-> ->]];
      (split; [eexists; split; [reflexivity|vm_compute; discriminate]|
               split; reflexivity]).
  - intros key1 key2 x y Hx Hy Hid.
    destruct (Hvalue key1 x Hx) as [[-> ->]|[-> ->]];
      destruct (Hvalue key2 y Hy) as [[-> ->]|[-> ->]];
      first [reflexivity|discriminate Hid].
  - intros key1 key2 x y Hx Hy.
    destruct (Hvalue key2 y Hy) as [[-> ->]|[-> ->]]; apply not_elem_of_nil.
  - intros key x H.
    destruct (Hvalue key x H) as [[-> ->]|[-> ->]];
      (split; [discriminate|apply not_elem_of_nil]).
  - assert (Hdoc : NBTFile_new (Some (b "root"))
                     (Some ((view (fun _ => None)) <$> value))
                   = CompoundTag
                       {[ Some (b "hp") :=
                            PlainTag TAG_Short (PInt 20) (Some (b "hp"));
                          Some (b "mp") :=
                            PlainTag TAG_Short (PInt 20) (Some (b "mp")) ]}
                       (Some (b "root")))
      by (vm_compute; reflexivity).
    rewrite Hnew, Hdoc in Hs, Hl. exists bs. split; [exact Hs|exact Hl].
Defined.



Lemma write_long_name_witness :
  32767 < Z.of_nat (length (replicate (Z.to_nat 32768) "a"%char)) /\
  write (writer false)
    (PlainTag TAG_Byte (PInt 1) (Some (replicate (Z.to_nat 32768) "a"%char)))
  = Raise struct_error.
Proof.
  assert (Hlen : 32767 < Z.of_nat (length (replicate (Z.to_nat 32768) "a"%char)))
    by (vm_compute; reflexivity).
  split; [exact Hlen|].
  exact (write_long_name false
           (PlainTag TAG_Byte (PInt 1)
              (Some (replicate (Z.to_nat 32768) "a"%char)))
           (replicate (Z.to_nat 32768) "a"%char) eq_refl Hlen).
Defined.

Lemma write_integer_range_witness :
  STRUCT_FMT TAG_Short = Some c_h /\
  write (writer false) (PlainTag TAG_Short (PInt 40000) None)
  = Raise struct_error.
Proof.
  split; [reflexivity|].
  assert (Hf : c_h <> c_f) by discriminate.
  assert (Hd : c_h <> c_d) by discriminate.
  apply (proj2 (write_integer_range false TAG_Short c_h 40000 eq_refl Hf Hd)).
  right. vm_compute. reflexivity.
Defined.

Lemma write_framing_witness :
  write (writer false) (CompoundTag ∅ (Some (b "r")))
  = Ok ([chr 10; chr 0; chr 1] ++ b "r" ++ [chr 0]) /\
  NBTFile_load false ([chr 10; chr 0; chr 1] ++ b "r" ++ [chr 0])
  = TAG_read (reader false) TAG_Compound true ([chr 0; chr 1] ++ b "r" ++ [chr 0]).
Proof.
  assert (H : write (writer false) (CompoundTag ∅ (Some (b "r")))
              = Ok ([chr 10; chr 0; chr 1] ++ b "r" ++ [chr 0]))
    by (vm_compute; reflexivity).
  split; [exact H|].
  destruct (write_framing false _ _ H) as (_ & _ & Hdoc).
  destruct (Hdoc (ex_intro _ (b "r") eq_refl) eq_refl) as (bs' & Hs & Hl).
  unfold NBTFile_save in Hs. rewrite H in Hs. injection Hs as <-. exact Hl.
Defined.

Lemma read_well_formed_tree_witness :
  TAG_read (reader false) TAG_Compound false (once_a false)
  = Ok (CompoundTag
          {[ Some (b "a") := PlainTag TAG_Byte (PInt 7) (Some (b "a")) ]} None,
        []) /\
  well_formed
    (CompoundTag
       {[ Some (b "a") := PlainTag TAG_Byte (PInt 7) (Some (b "a")) ]} None)
  = true.
Proof.
  assert (H : TAG_read (reader false) TAG_Compound false (once_a false)
              = Ok (CompoundTag
                      {[ Some (b "a") :=
                           PlainTag TAG_Byte (PInt 7) (Some (b "a")) ]} None,
                    []))
    by (vm_compute; reflexivity).
  split; [exact H|].
  apply (read_well_formed_tree false _ _ _ _ _ H). vm_compute. reflexivity.
Defined.

Lemma load_save_load_witness :
  NBTFile_load false ([chr 10; chr 0; chr 0] ++ twice_a false ++ b "rest")
  = Ok (CompoundTag
          {[ Some (b "a") := PlainTag TAG_Byte (PInt 7) (Some (b "a")) ]}
          (Some []),
        b "rest") /\
  exists bs,
    NBTFile_save
      (CompoundTag
         {[ Some (b "a") := PlainTag TAG_Byte (PInt 7) (Some (b "a")) ]}
         (Some []))
      false = Ok bs /\
    NBTFile_load false bs
    = Ok (CompoundTag
            {[ Some (b "a") := PlainTag TAG_Byte (PInt 7) (Some (b "a")) ]}
            (Some []),
          []).
Proof.
  assert (H : NBTFile_load false
                ([chr 10; chr 0; chr 0] ++ twice_a false ++ b "rest")
              = Ok (CompoundTag
                      {[ Some (b "a") :=
                           PlainTag TAG_Byte (PInt 7) (Some (b "a")) ]}
                      (Some []),
                    b "rest"))
    by (vm_compute; reflexivity).
  split; [exact H|].
  destruct (load_save_load false _ _ _ H) as (bs & Hs & Hl).
  - vm_compute. reflexivity.
  - exists bs. split; [exact Hs|].
    pose proof (Hl []) as Hl'. rewrite app_nil_r in Hl'. exact Hl'.
Defined.

Lemma float_single_precision_witness :
  0 <= 0x3FB999999999999A < 2 ^ 64 /\
  exists bs,
    write (writer false) (PlainTag TAG_Float (PFloat 0x3FB999999999999A) None)
    = Ok bs /\
    TAG_read (reader false) TAG_Float false bs
    = Ok (PlainTag TAG_Float (PFloat 0x3FB99999A0000000) None, []).
Proof.
  assert (Hd : 0 <= 0x3FB999999999999A < 2 ^ 64) by lia.
  split; [exact Hd|].
  pose proof (float_single_precision false _ Hd) as H.
  replace (double_to_float 0x3FB999999999999A) with (Some 0x3DCCCCCD) in H
    by (vm_compute; reflexivity).
  destruct H as [(bs & Hw & Hr) _].
  exists bs. split; [exact Hw|].
  pose proof (Hr []) as Hr'. rewrite app_nil_r in Hr'.
  replace (float_to_double 0x3DCCCCCD) with 0x3FB99999A0000000 in Hr'
    by (vm_compute; reflexivity).
  exact Hr'.
Defined.
